(** * SmartCart: cart store and price comparison

    A shallow embedding of the cart logic of the SmartCart application (the
    [App] component, the [CartItemRow] component and the Gemini analysis
    service), followed by the properties stated about it.

    Conventions of the embedding:
    - a JavaScript [number] is an IEEE 754 binary64 value ([spec_float] with
      precision 53 and maximal exponent 1024): sums, products, quotients and
      the reading of decimal text round to the nearest value, ties to even,
      and there are [NaN], two infinities and two zeros; quantities, which
      the program sets to 1 and moves by 1, are integers ([Z]) and enter the
      arithmetic through [JS.ofZ];
    - a JavaScript string is the [string] of the bytes of its UTF-8
      encoding; white space is the [WhiteSpace] and [LineTerminator] code
      points of ECMAScript; [toLowerCase], which follows the Unicode case
      tables, is a function of the engine ([JS.Engine]) of which the
      properties use what [JS.EngineLaws] states;
    - an optional field ([category?], [measureValue?], [measureUnit?]) is an
      [option], and so is [budget : number | null];
    - code that may throw returns a [JS.Completion];
    - React state is passed explicitly: a handler is a function from the
      state it reads to the state it sets, or the list of the setter calls it
      makes; the browser, the random identifiers and the remote model are a
      [World] threaded through the calls. *)

From Stdlib Require Import ZArith QArith Qpower Qround Lqa List Ascii String Lia Permutation Sorted.
From Stdlib Require Import Floats.SpecFloat.
From stdpp Require Import gmap strings list fin_maps pretty.
Import ListNotations.

(** ** JavaScript primitives used by the program *)

Fixpoint allChars (p : ascii -> bool) (s : string) : bool :=
  match s with
  | EmptyString => true
  | String c s' => p c && allChars p s'
  end.

(** [s.startsWith(t)] *)
Fixpoint startsWith (s t : string) : bool :=
  match t, s with
  | EmptyString, _ => true
  | String b t', String a s' => Ascii.eqb a b && startsWith s' t'
  | String _ _, EmptyString => false
  end.

(** [s.includes(t)]: [t] occurs in [s] at some position. *)
Fixpoint includes (s t : string) : bool :=
  startsWith s t
  || match s with
     | EmptyString => false
     | String _ s' => includes s' t
     end.

Module JS.

(** Outcome of running code that may throw. *)
Inductive Completion (A : Type) : Type :=
| Normal (a : A)
| Throw (msg : string).
Arguments Normal {A} a.
Arguments Throw {A} msg.

Definition bind {A B} (c : Completion A) (k : A -> Completion B) : Completion B :=
  match c with
  | Normal a => k a
  | Throw e => Throw e
  end.

(** *** Numbers *)

Definition prec : Z := 53.
Definition emax : Z := 1024.

Definition number := spec_float.

Definition NaN : number := S754_nan.

(** [x + y], [x - y], [x * y], [x / y] *)
Definition add : number -> number -> number := SFadd prec emax.
Definition sub : number -> number -> number := SFsub prec emax.
Definition mul : number -> number -> number := SFmul prec emax.
Definition div : number -> number -> number := SFdiv prec emax.

(** The number nearest to an integer: the integer itself up to 2^53. *)
Definition ofZ (z : Z) : number := binary_normalize prec emax z 0 false.

(** [Math.abs(x)] *)
Definition abs : number -> number := SFabs.

(** [isNaN(x)] *)
Definition isNaN (x : number) : bool :=
  match x with
  | S754_nan => true
  | _ => false
  end.

Definition isZero (x : number) : bool :=
  match x with
  | S754_zero _ => true
  | _ => false
  end.

(** The rational a finite number denotes (0 for the others). *)
Definition toQ (x : number) : Q :=
  match x with
  | S754_finite s m e => inject_Z (cond_Zopp s (Z.pos m)) * 2 ^ e
  | _ => 0
  end.

(** The value a number denotes on the extended line; [NaN] denotes none. *)
Inductive Ext := NegInf | Fin (q : Q) | PosInf.

Definition ext (x : number) : option Ext :=
  match x with
  | S754_nan => None
  | S754_infinity s => Some (if s then NegInf else PosInf)
  | _ => Some (Fin (toQ x))
  end.

Definition compareExt (a b : Ext) : comparison :=
  match a, b with
  | NegInf, NegInf => Eq
  | NegInf, _ => Lt
  | _, NegInf => Gt
  | PosInf, PosInf => Eq
  | PosInf, _ => Gt
  | _, PosInf => Lt
  | Fin p, Fin q => (p ?= q)%Q
  end.

(** Comparison of the values denoted; a comparison with [NaN] has no
    outcome, and the two zeros are equal. *)
Definition compare (x y : number) : option comparison :=
  match ext x, ext y with
  | Some a, Some b => Some (compareExt a b)
  | _, _ => None
  end.

(** [x < y], [x <= y], [x == y] on numbers *)
Definition ltb (x y : number) : bool :=
  match compare x y with
  | Some Lt => true
  | _ => false
  end.

Definition leb (x y : number) : bool :=
  match compare x y with
  | Some (Lt | Eq) => true
  | _ => false
  end.

Definition eqb (x y : number) : bool :=
  match compare x y with
  | Some Eq => true
  | _ => false
  end.

(** [Math.min(x, y)]: [NaN] when an argument is, and [-0] below [+0]. *)
Definition min (x y : number) : number :=
  if isNaN x || isNaN y then NaN
  else if ltb x y then x
  else if ltb y x then y
  else match x with
       | S754_zero true => x
       | _ => y
       end.

(** Truthiness of a number: [0], [-0] and [NaN] are falsy. *)
Definition truthy (x : number) : bool := negb (isNaN x || isZero x).

(** Truthiness of an optional number: [undefined] is falsy as well. *)
Definition truthyNum (v : option number) : bool :=
  match v with
  | Some x => truthy x
  | None => false
  end.

(** The number nearest to [digits * 10 ^ e10], negated when [negative]:
    the value of a decimal literal.  A negative power of ten divides, and
    the quotient is rounded once. *)
Definition ofDecimal (negative : bool) (digits e10 : Z) : number :=
  match digits with
  | Z0 => S754_zero negative
  | _ =>
      if (0 <=? e10)%Z then
        binary_normalize prec emax (cond_Zopp negative (digits * 10 ^ e10)) 0 negative
      else
        let '(q, e, l) := SFdiv_core_binary prec emax digits 0 (10 ^ (- e10)) 0 in
        binary_round_aux prec emax negative q e l
  end.

(** *** Truthiness of strings *)

(** Truthiness of an optional string: [undefined] and [''] are falsy. *)
Definition truthyStr (s : option string) : bool :=
  match s with
  | Some EmptyString => false
  | Some _ => true
  | None => false
  end.

(** *** Case *)

(** [String.prototype.toLowerCase] follows the case tables of the Unicode
    standard the engine implements; the program is run by an engine. *)
Class Engine := { toLowerCase : string -> string }.

Definition isCapital (c : ascii) : bool :=
  let n := nat_of_ascii c in (65 <=? n)%nat && (n <=? 90)%nat.

Definition isAscii (c : ascii) : bool := (nat_of_ascii c <? 128)%nat.

Definition lowerChar (c : ascii) : ascii :=
  if isCapital c then ascii_of_nat (nat_of_ascii c + 32) else c.

Fixpoint mapChars (f : ascii -> ascii) (s : string) : string :=
  match s with
  | EmptyString => EmptyString
  | String c s' => String (f c) (mapChars f s')
  end.

(** Lower-casing of a text of the ASCII range: the letters [A] to [Z]
    become [a] to [z]. *)
Definition asciiLower (s : string) : string := mapChars lowerChar s.

(** What the properties use of [toLowerCase]: on a text of the ASCII range
    it lowers the letters [A] to [Z] and nothing else, and its result never
    holds one of these letters. *)
Record EngineLaws (E : Engine) : Prop := {
  lower_ascii : forall s, allChars isAscii s = true -> toLowerCase s = asciiLower s;
  lower_no_capital : forall s, allChars (fun c => negb (isCapital c)) (toLowerCase s) = true
}.

(** [s.replace(/_/g, ' ')] *)
Definition replaceUnderscores (s : string) : string :=
  mapChars (fun c => if Ascii.eqb c "_" then " "%char else c) s.

(** *** Objects and arrays *)

(** Property names every object literal inherits from [Object.prototype]:
    [obj[k]] is truthy for them although [obj] has no such own property. *)
Definition objectPrototypeKeys : list string :=
  [ "constructor"; "hasOwnProperty"; "isPrototypeOf"; "propertyIsEnumerable";
    "toLocaleString"; "toString"; "valueOf"; "__defineGetter__";
    "__defineSetter__"; "__lookupGetter__"; "__lookupSetter__"; "__proto__" ].

Definition inherited (k : string) : bool :=
  bool_decide (k ∈ objectPrototypeKeys).

(** [l.forEach(f)] where the callback updates a state and may throw. *)
Fixpoint forEach {S A} (f : S -> A -> Completion S) (l : list A) (s : S)
  : Completion S :=
  match l with
  | [] => Normal s
  | x :: l' => bind (f s x) (forEach f l')
  end.

(** [Array.prototype.sort(cmp)]: the sort is stable, an element [x] is
    moved behind [y] only when [cmp x y > 0]; a comparator value of [NaN]
    counts as 0.  The embedding is the stable insertion sort that builds the
    result from the right; for a comparator that is a difference of keys
    none of which is [NaN] every stable sort returns the same list
    ([sort_characterised]). *)
Fixpoint insertSorted {A} (cmp : A -> A -> number) (x : A) (l : list A) : list A :=
  match l with
  | [] => [x]
  | y :: l' =>
      if ltb (ofZ 0) (cmp x y) then y :: insertSorted cmp x l' else x :: y :: l'
  end.

Definition sort {A} (cmp : A -> A -> number) (l : list A) : list A :=
  fold_right (insertSorted cmp) [] l.

(** *** Strings *)

Definition isDigit (c : ascii) : bool :=
  let n := nat_of_ascii c in (48 <=? n)%nat && (n <=? 57)%nat.

Definition isLetter (c : ascii) : bool :=
  let n := nat_of_ascii c in
  ((65 <=? n)%nat && (n <=? 90)%nat) || ((97 <=? n)%nat && (n <=? 122)%nat).

(** White space and line terminators of one byte: tab, line feed, vertical
    tab, form feed, carriage return, space. *)
Definition isWhiteSpace1 (c : ascii) : bool :=
  let n := nat_of_ascii c in
  ((9 <=? n)%nat && (n <=? 13)%nat) || (n =? 32)%nat.

(** Of two bytes: the no-break space U+00A0. *)
Definition isWhiteSpace2 (c1 c2 : ascii) : bool :=
  (nat_of_ascii c1 =? 194)%nat && (nat_of_ascii c2 =? 160)%nat.

(** Of three bytes: U+1680, U+2000 to U+200A, the line and paragraph
    separators U+2028 and U+2029, U+202F, U+205F, U+3000 and the byte order
    mark U+FEFF. *)
Definition isWhiteSpace3 (c1 c2 c3 : ascii) : bool :=
  let n1 := nat_of_ascii c1 in
  let n2 := nat_of_ascii c2 in
  let n3 := nat_of_ascii c3 in
  ((n1 =? 225) && (n2 =? 154) && (n3 =? 128))%nat
  || ((n1 =? 226) && (n2 =? 128)
      && (((128 <=? n3) && (n3 <=? 138)) || (n3 =? 168) || (n3 =? 169) || (n3 =? 175)))%nat
  || ((n1 =? 226) && (n2 =? 129) && (n3 =? 159))%nat
  || ((n1 =? 227) && (n2 =? 128) && (n3 =? 128))%nat
  || ((n1 =? 239) && (n2 =? 187) && (n3 =? 191))%nat.

(** The text behind the white space character a text starts with, if it
    starts with one. *)
Definition afterWhiteSpace (s : string) : option string :=
  match s with
  | String c1 s1 =>
      if isWhiteSpace1 c1 then Some s1
      else match s1 with
           | String c2 s2 =>
               if isWhiteSpace2 c1 c2 then Some s2
               else match s2 with
                    | String c3 s3 =>
                        if isWhiteSpace3 c1 c2 c3 then Some s3 else None
                    | EmptyString => None
                    end
           | EmptyString => None
           end
  | EmptyString => None
  end.

Definition startsWithWhiteSpace (s : string) : bool :=
  match afterWhiteSpace s with
  | Some _ => true
  | None => false
  end.

(** Longest prefix of characters satisfying [p], and the rest. *)
Fixpoint span (p : ascii -> bool) (s : string) : string * string :=
  match s with
  | EmptyString => (EmptyString, EmptyString)
  | String c s' =>
      if p c then let '(a, b) := span p s' in (String c a, b)
      else (EmptyString, s)
  end.

(** [s.trimStart()], also the text behind a match of [\s*] *)
Fixpoint trimStart (s : string) : string :=
  match s with
  | String c1 s1 =>
      if isWhiteSpace1 c1 then trimStart s1
      else match s1 with
           | String c2 s2 =>
               if isWhiteSpace2 c1 c2 then trimStart s2
               else match s2 with
                    | String c3 s3 =>
                        if isWhiteSpace3 c1 c2 c3 then trimStart s3 else s
                    | EmptyString => s
                    end
           | EmptyString => s
           end
  | EmptyString => EmptyString
  end.

(** A text of white space only. *)
Definition isBlank (s : string) : bool :=
  match trimStart s with
  | EmptyString => true
  | _ => false
  end.

(** [s.trimEnd()]: the text is cut where its white space suffix starts. *)
Fixpoint trimEnd (s : string) : string :=
  match s with
  | EmptyString => EmptyString
  | String c s' => if isBlank (String c s') then EmptyString else String c (trimEnd s')
  end.

(** [s.trim()] *)
Definition trim (s : string) : string := trimEnd (trimStart s).

(** [s.split(' ')[0]]: the text before the first space character. *)
Fixpoint splitSpaceHead (s : string) : string :=
  match s with
  | EmptyString => EmptyString
  | String c s' =>
      if Ascii.eqb c " " then EmptyString else String c (splitSpaceHead s')
  end.

(** [s.replace(',', '.')]: a string pattern replaces the first occurrence only. *)
Fixpoint replaceFirstComma (s : string) : string :=
  match s with
  | EmptyString => EmptyString
  | String c s' =>
      if Ascii.eqb c "," then String "." s' else String c (replaceFirstComma s')
  end.

(** *** Reading numbers *)

Definition digitValue (c : ascii) : Z := (Z.of_nat (nat_of_ascii c) - 48)%Z.

(** Value of a string of decimal digits, most significant first. *)
Fixpoint digitsValueFrom (acc : Z) (s : string) : Z :=
  match s with
  | EmptyString => acc
  | String c s' => digitsValueFrom (10 * acc + digitValue c)%Z s'
  end.

Definition digitsValue (s : string) : Z := digitsValueFrom 0%Z s.

(** An optional sign: whether it is a minus, and the rest. *)
Definition signOf (s : string) : bool * string :=
  match s with
  | String "+" r => (false, r)
  | String "-" r => (true, r)
  | _ => (false, s)
  end.

(** [ExponentPart]: [e] or [E], an optional sign and at least one digit;
    anything else is not part of the number. *)
Definition exponentOf (s : string) : Z :=
  match s with
  | String c r =>
      if Ascii.eqb c "e" || Ascii.eqb c "E" then
        let '(negative, r1) := signOf r in
        let '(ds, _) := span isDigit r1 in
        match ds with
        | EmptyString => 0%Z
        | _ => cond_Zopp negative (digitsValue ds)
        end
      else 0%Z
  | EmptyString => 0%Z
  end.

(** [parseFloat(s)]: leading white space is skipped and the longest prefix
    that is a decimal literal ([StrDecimalLiteral]) is converted; the result
    is [NaN] when there is none. *)
Definition parseFloat (s : string) : number :=
  let '(negative, s1) := signOf (trimStart s) in
  if startsWith s1 "Infinity" then S754_infinity negative
  else
    let '(int, r) := span isDigit s1 in
    match r with
    | String "." r' =>
        let '(frac, r'') := span isDigit r' in
        match int, frac with
        | EmptyString, EmptyString => NaN
        | _, _ =>
            ofDecimal negative (digitsValue (int +:+ frac))
                      (exponentOf r'' - Z.of_nat (String.length frac))
        end
    | _ =>
        match int with
        | EmptyString => NaN
        | _ => ofDecimal negative (digitsValue int) (exponentOf r)
        end
    end.

(** *** The pattern [/(\d+(?:\.\d+)?)\s*([a-zA-Z]+)/] *)

(** Match of the pattern anchored at the start of [s]: the two captures.
    Each quantifier is followed by a character class disjoint from its own,
    so the greedy choice is the only one that can succeed. *)
Definition matchSizeHere (s : string) : option (string * string) :=
  let '(int, r) := span isDigit s in
  match int with
  | EmptyString => None
  | _ =>
      let '(num, r1) :=
        match r with
        | String "." r' =>
            let '(frac, r'') := span isDigit r' in
            match frac with
            | EmptyString => (int, r)
            | _ => (int +:+ String "." frac, r'')
            end
        | _ => (int, r)
        end in
      let '(unit, _) := span isLetter (trimStart r1) in
      match unit with
      | EmptyString => None
      | _ => Some (num, unit)
      end
  end.

(** [s.match(re)]: the leftmost position at which the pattern matches. *)
Fixpoint matchSize (s : string) : option (string * string) :=
  match matchSizeHere s with
  | Some m => Some m
  | None =>
      match s with
      | EmptyString => None
      | String _ s' => matchSize s'
      end
  end.

End JS.

(** ** Data model ([types.ts]) *)

Record ScannedItem := mkScanned {
  s_productName : string;
  s_price : JS.number;
  s_category : option string;
  s_measureValue : option JS.number;
  s_measureUnit : option string
}.

(** [CartItem extends ScannedItem] with an identifier and a quantity. *)
Record CartItem := mkItem {
  id : string;
  productName : string;
  price : JS.number;
  quantity : Z;
  category : option string;
  measureValue : option JS.number;
  measureUnit : option string
}.

Record AnalysisState := mkStatus {
  isAnalyzing : bool;
  error : option string
}.

Record ShoppingListItem := mkListItem {
  listId : string;
  name : string;
  isChecked : bool
}.

(** ** Comparison engine ([App], "Comparison Logic") *)

Abbreviation Groups := (gmap string (list CartItem)).

(** [const cat = item.category ? item.category.toLowerCase().replace(/_/g, ' ') : 'outros'] *)
Definition groupKey {E : JS.Engine} (item : CartItem) : string :=
  match category item with
  | Some c =>
      if JS.truthyStr (Some c) then JS.replaceUnderscores (JS.toLowerCase c)
      else "outros"
  | None => "outros"
  end.

(** [item.measureValue && item.measureUnit] *)
Definition hasMeasure (item : CartItem) : bool :=
  JS.truthyNum (measureValue item) && JS.truthyStr (measureUnit item).

(** Body of [items.forEach(item => ...)]: [grouped[cat]] is looked up through
    the prototype chain, so for a key of [Object.prototype] the array is never
    created and [grouped[cat].push] is not a function. *)
Definition pushItem {E : JS.Engine} (grouped : Groups) (item : CartItem)
    : JS.Completion Groups :=
  let cat := groupKey item in
  if hasMeasure item then
    match grouped !! cat with
    | Some arr => JS.Normal (<[cat := arr ++ [item]]> grouped)
    | None =>
        if JS.inherited cat
        then JS.Throw "TypeError: grouped[cat].push is not a function"
        else JS.Normal (<[cat := [item]]> grouped)
    end
  else JS.Normal grouped.

Definition getBasePrice (i : CartItem) : JS.number :=
  let val := if JS.truthyNum (measureValue i)
             then default (JS.ofZ 1) (measureValue i) else JS.ofZ 1 in
  let val := if bool_decide (measureUnit i = Some "kg")
             then JS.mul val (JS.ofZ 1000) else val in
  let val := if bool_decide (measureUnit i = Some "l")
             then JS.mul val (JS.ofZ 1000) else val in
  JS.div (price i) val.

Definition comparator (a b : CartItem) : JS.number :=
  JS.sub (getBasePrice a) (getBasePrice b).

Definition comparisonGroups {E : JS.Engine} (items : list CartItem)
    : JS.Completion Groups :=
  JS.bind (JS.forEach pushItem items ∅)
          (fun grouped => JS.Normal (JS.sort comparator <$> grouped)).

(** [bestValueIds]: the identifier of the first entry of every group of two
    or more entries. *)
Definition bestValueIds (groups : Groups) : gset string :=
  map_fold (fun _ (group : list CartItem) (ids : gset string) =>
              if (2 <=? length group)%nat
              then match group with
                   | first :: _ => {[ id first ]} ∪ ids
                   | [] => ids
                   end
              else ids) ∅ groups.

(** [isBestValue={bestValueIds.has(item.id)}] *)
Definition isBestValue (groups : Groups) (item : CartItem) : bool :=
  bool_decide (id item ∈ bestValueIds groups).

(** ** Cart store ([App] state and handlers, [CartItemRow] handlers) *)

(** [Partial<CartItem>]: the fields an update carries. *)
Record CartItemUpdates := mkUpdates {
  u_id : option string;
  u_productName : option string;
  u_price : option JS.number;
  u_quantity : option Z;
  u_category : option (option string);
  u_measureValue : option (option JS.number);
  u_measureUnit : option (option string)
}.

(** [{ ...item, ...updates }] *)
Definition applyUpdates (item : CartItem) (updates : CartItemUpdates) : CartItem :=
  {| id := default (id item) (u_id updates);
     productName := default (productName item) (u_productName updates);
     price := default (price item) (u_price updates);
     quantity := default (quantity item) (u_quantity updates);
     category := default (category item) (u_category updates);
     measureValue := default (measureValue item) (u_measureValue updates);
     measureUnit := default (measureUnit item) (u_measureUnit updates) |}.

(** [setItems(prev => prev.map(item => item.id === id ? { ...item, ...updates } : item))] *)
Definition handleUpdateItem (target : string) (updates : CartItemUpdates)
    (prev : list CartItem) : list CartItem :=
  map (fun item => if String.eqb (id item) target
                   then applyUpdates item updates else item) prev.

(** [setItems(prev => prev.filter(item => item.id !== id))] *)
Definition handleRemoveItem (target : string) (prev : list CartItem) : list CartItem :=
  List.filter (fun item => negb (String.eqb (id item) target)) prev.

(** Handlers of the row that displays [item]; [onUpdate] and [onRemove] are
    [handleUpdateItem] and [handleRemoveItem]. *)
Definition handleIncrement (item : CartItem) (prev : list CartItem) : list CartItem :=
  handleUpdateItem (id item)
    {| u_id := None; u_productName := None; u_price := None;
       u_quantity := Some (quantity item + 1)%Z;
       u_category := None; u_measureValue := None; u_measureUnit := None |} prev.

Definition handleDecrement (item : CartItem) (prev : list CartItem) : list CartItem :=
  if (1 <? quantity item)%Z then
    handleUpdateItem (id item)
      {| u_id := None; u_productName := None; u_price := None;
         u_quantity := Some (quantity item - 1)%Z;
         u_category := None; u_measureValue := None; u_measureUnit := None |} prev
  else handleRemoveItem (id item) prev.

(** [handleNameBlur] with the text [tempName] of the edit field. *)
Definition handleNameBlur (item : CartItem) (tempName : string)
    (prev : list CartItem) : list CartItem :=
  if String.eqb (JS.trim tempName) (productName item) then prev
  else handleUpdateItem (id item)
         {| u_id := None; u_productName := Some tempName; u_price := None;
            u_quantity := None;
            u_category := None; u_measureValue := None; u_measureUnit := None |} prev.

(** The entry [handleAddManualItem] builds from the three form fields, with
    [newId] the value of [uuidv4()]; [None] when the handler returns before
    touching the cart (blank name or price, or a price that is not a number). *)
Definition manualItem {E : JS.Engine} (newId manualName manualPrice manualSize : string)
    : option CartItem :=
  if String.eqb (JS.trim manualName) "" || String.eqb (JS.trim manualPrice) ""
  then None
  else
    let normalizedPrice := JS.replaceFirstComma manualPrice in
    let priceValue := JS.parseFloat normalizedPrice in
    if JS.isNaN priceValue then None
    else
      let '(mValue, mUnit) :=
        if String.eqb (JS.trim manualSize) "" then (None, None)
        else match JS.matchSize manualSize with
             | Some (m1, m2) => (Some (JS.parseFloat m1), Some (JS.toLowerCase m2))
             | None => (None, None)
             end in
      Some {| id := newId;
              productName := JS.trim manualName;
              price := priceValue;
              quantity := 1;
              category := Some (JS.toLowerCase (JS.splitSpaceHead manualName));
              measureValue := mValue;
              measureUnit := mUnit |}.

(** [setItems(prev => [newItem, ...prev])] *)
Definition handleAddManualItem {E : JS.Engine}
    (newId manualName manualPrice manualSize : string)
    (prev : list CartItem) : list CartItem :=
  match manualItem newId manualName manualPrice manualSize with
  | Some newItem => newItem :: prev
  | None => prev
  end.

(** [handleClearAll], once the confirmation dialog is accepted. *)
Definition handleClearAll (prev : list CartItem) : list CartItem := [].

(** [handleSetBudget] with the text [tempBudget] of the budget field. *)
Definition handleSetBudget (tempBudget : string) (budget : option JS.number)
    : option JS.number :=
  if String.eqb tempBudget "" then None
  else
    let val := JS.parseFloat (JS.replaceFirstComma tempBudget) in
    if JS.isNaN val then budget else Some val.

(** *** Calculations *)

Definition totalCost (items : list CartItem) : JS.number :=
  fold_left (fun sum item => JS.add sum (JS.mul (price item) (JS.ofZ (quantity item))))
            items (JS.ofZ 0).

Definition itemCount (items : list CartItem) : Z :=
  fold_left (fun sum item => (sum + quantity item)%Z) items 0%Z.

(** [budget !== null && totalCost > budget] *)
Definition isOverBudget (budget : option JS.number) (items : list CartItem) : bool :=
  match budget with
  | Some b => JS.ltb b (totalCost items)
  | None => false
  end.

(** [budget ? Math.min((totalCost / budget) * 100, 100) : 0] *)
Definition budgetPercentage (budget : option JS.number) (items : list CartItem)
    : JS.number :=
  match budget with
  | Some b =>
      if JS.truthy b
      then JS.min (JS.mul (JS.div (totalCost items) b) (JS.ofZ 100)) (JS.ofZ 100)
      else JS.ofZ 0
  | None => JS.ofZ 0
  end.

(** [budget ? budget - totalCost : 0] *)
Definition remainingBudget (budget : option JS.number) (items : list CartItem)
    : JS.number :=
  match budget with
  | Some b => if JS.truthy b then JS.sub b (totalCost items) else JS.ofZ 0
  | None => JS.ofZ 0
  end.

(** ** Sharing ([handleShareList]) *)

Definition LF : ascii := "010"%char.

(** [l.join(sep)] *)
Fixpoint join (sep : string) (l : list string) : string :=
  match l with
  | [] => ""
  | [x] => x
  | x :: l' => x +:+ sep +:+ join sep l'
  end.

(** [`${n}`] for an integer [n] of magnitude below 10^21: its decimal digits,
    after a minus sign when it is negative. *)
Definition integerToString (n : Z) : string := pretty n.

Section Share.

(** [Intl.NumberFormat('pt-BR', { style: 'currency', currency: 'BRL' }).format] *)
Variable formatCurrency : JS.number -> string.

Definition itemLine (item : CartItem) : string :=
  integerToString (quantity item) +:+ "x " +:+ productName item +:+ " - "
  +:+ formatCurrency (JS.mul (price item) (JS.ofZ (quantity item))).

Definition shareTitle : string := "🛒 *Lista SmartCart*".
Definition totalLabel : string := "💰 *Total: ".

(** The text handed to the share sheet or the clipboard; [None] when the
    handler returns at once because the cart is empty. *)
Definition handleShareList (items : list CartItem) : option string :=
  match items with
  | [] => None
  | _ =>
      let listText := join (String LF "") (map itemLine items) in
      Some (shareTitle +:+ String LF (String LF "") +:+ listText
            +:+ String LF (String LF "") +:+ totalLabel
            +:+ formatCurrency (totalCost items) +:+ "*")
  end.

End Share.

(** ** Analysis service ([services/geminiService.ts]) *)

(** The browser and the remote model are outside the program.  They are taken
    as state transformers over a [World]: a call receives the world left by
    the call before it and returns the settled value of its promise. *)
Section Service.

Context {File World : Type}.
Variable apiKey : string.
Variable fileType : File -> string.
Variable fileToBase64 : File -> World -> JS.Completion string * World.
(** [ai.models.generateContent(...)] followed by [response.text]. *)
Variable generateContent :
  string -> string -> World -> JS.Completion (option string) * World.
(** [JSON.parse(text) as ScannedItem]; the cast is unchecked, the embedding
    takes the parsed value to have the declared shape. *)
Variable parseScannedItem : string -> JS.Completion ScannedItem.

Definition analysisFailed : string := "Falha ao analisar o arquivo. Tente novamente.".

Definition analyzeProductImage (file : File) (w : World)
    : JS.Completion ScannedItem * World :=
  if negb (JS.truthyStr (Some apiKey)) then (JS.Throw "API Key está faltando.", w)
  else
    let '(b64, w1) := fileToBase64 file w in
    match b64 with
    | JS.Throw e => (JS.Throw e, w1)
    | JS.Normal base64Data =>
        let mimeType := fileType file in
        let '(response, w2) := generateContent mimeType base64Data w1 in
        (* try { ... } catch (error) { throw new Error("Falha ...") } *)
        match response with
        | JS.Throw _ => (JS.Throw analysisFailed, w2)
        | JS.Normal text =>
            if negb (JS.truthyStr text) then (JS.Throw analysisFailed, w2)
            else match parseScannedItem (default "" text) with
                 | JS.Normal data => (JS.Normal data, w2)
                 | JS.Throw _ => (JS.Throw analysisFailed, w2)
                 end
        end
    end.

End Service.

(** ** File upload ([handleFileChange]) *)

(** State setters a handler calls, in the order it calls them. *)
Inductive Action :=
| SetStatus (s : AnalysisState)
| SetAnalyzingProgress (p : option (nat * nat))
| PrependItems (newItems : list CartItem).

Definition batchError : string := "Alguns arquivos não puderam ser processados.".

Definition newCartItem (newId : string) (result : ScannedItem) : CartItem :=
  {| id := newId;
     productName := s_productName result;
     price := s_price result;
     category := s_category result;
     measureValue := s_measureValue result;
     measureUnit := s_measureUnit result;
     quantity := 1 |}.

Section Upload.

Context {File World : Type}.
Variable analyze : File -> World -> JS.Completion ScannedItem * World.
Variable uuidv4 : World -> string * World.

(** Local variables of the handler while the loop runs. *)
Record LoopState := mkLoop {
  newItems : list CartItem;
  errorMsg : option string;
  emitted : list Action;
  world : World
}.

(** One iteration of [for (let i = 0; i < files.length; i++)]. *)
Definition iteration (total : nat) (st : LoopState) (i : nat) (file : File)
    : LoopState :=
  let emitted' := emitted st ++ [SetAnalyzingProgress (Some (i + 1, total)%nat)] in
  match analyze file (world st) with
  | (JS.Normal result, w1) =>
      let '(newId, w2) := uuidv4 w1 in
      {| newItems := newItems st ++ [newCartItem newId result];
         errorMsg := errorMsg st;
         emitted := emitted';
         world := w2 |}
  | (JS.Throw _, w1) =>
      {| newItems := newItems st;
         errorMsg := Some batchError;
         emitted := emitted';
         world := w1 |}
  end.

Fixpoint loop (total : nat) (st : LoopState) (i : nat) (files : list File)
    : LoopState :=
  match files with
  | [] => st
  | file :: rest => loop total (iteration total st i file) (S i) rest
  end.

Definition handleFileChange (files : list File) (w : World)
    : list Action * World :=
  match files with
  | [] => ([], w)
  | _ =>
      let total := length files in
      let st0 := {| newItems := []; errorMsg := None;
                    emitted := [SetStatus (mkStatus true None);
                                SetAnalyzingProgress (Some (0, total)%nat)];
                    world := w |} in
      let st := loop total st0 0 files in
      (emitted st ++ [PrependItems (newItems st);
                      SetStatus (mkStatus false (errorMsg st));
                      SetAnalyzingProgress None],
       world st)
  end.

End Upload.

(** ** Application state *)

Record AppState := mkApp {
  items : list CartItem;
  status : AnalysisState;
  analyzingProgress : option (nat * nat);
  budget : option JS.number
}.

Definition initialState : AppState :=
  {| items := []; status := mkStatus false None;
     analyzingProgress := None; budget := None |}.

Definition setItems (f : list CartItem -> list CartItem) (st : AppState) : AppState :=
  {| items := f (items st); status := status st;
     analyzingProgress := analyzingProgress st; budget := budget st |}.

Definition applyAction (st : AppState) (a : Action) : AppState :=
  match a with
  | SetStatus s =>
      {| items := items st; status := s;
         analyzingProgress := analyzingProgress st; budget := budget st |}
  | SetAnalyzingProgress p =>
      {| items := items st; status := status st;
         analyzingProgress := p; budget := budget st |}
  | PrependItems new => setItems (fun prev => new ++ prev) st
  end.

Definition applyActions (st : AppState) (l : list Action) : AppState :=
  fold_left applyAction l st.

(** ** User events *)

(** What the user, or a caller of the store, can do to the application.  A
    row is named by its position in the rendered cart. *)
Inductive Event {File : Type} :=
| ManualAdd (manualName manualPrice manualSize : string)
| FilesChosen (files : list File)
| Increment (row : nat)
| Decrement (row : nat)
| Rename (row : nat) (tempName : string)
| Update (target : string) (updates : CartItemUpdates)
| Remove (target : string)
| Clear
| SetBudget (tempBudget : string)
| RemoveBudget.
Arguments Event : clear implicits.

Section App.

Context {E : JS.Engine} {File World : Type}.
Variable analyze : File -> World -> JS.Completion ScannedItem * World.
Variable uuidv4 : World -> string * World.

Definition onRow (row : nat) (h : CartItem -> list CartItem -> list CartItem)
    (st : AppState) : AppState :=
  match nth_error (items st) row with
  | Some item => setItems (h item) st
  | None => st
  end.

Definition step (sw : AppState * World) (e : Event File) : AppState * World :=
  let '(st, w) := sw in
  match e with
  | ManualAdd manualName manualPrice manualSize =>
      let '(newId, w') := uuidv4 w in
      (setItems (handleAddManualItem newId manualName manualPrice manualSize) st, w')
  | FilesChosen files =>
      let '(actions, w') := handleFileChange analyze uuidv4 files w in
      (applyActions st actions, w')
  | Increment row => (onRow row handleIncrement st, w)
  | Decrement row => (onRow row handleDecrement st, w)
  | Rename row tempName =>
      (onRow row (fun item => handleNameBlur item tempName) st, w)
  | Update target updates => (setItems (handleUpdateItem target updates) st, w)
  | Remove target => (setItems (handleRemoveItem target) st, w)
  | Clear => (setItems handleClearAll st, w)
  | SetBudget tempBudget =>
      ({| items := items st; status := status st;
          analyzingProgress := analyzingProgress st;
          budget := handleSetBudget tempBudget (budget st) |}, w)
  | RemoveBudget =>
      ({| items := items st; status := status st;
          analyzingProgress := analyzingProgress st; budget := None |}, w)
  end.

Definition run (events : list (Event File)) (sw : AppState * World)
    : AppState * World :=
  fold_left step events sw.

End App.

(** The operations that [Update] generalises are the only ones the rows use;
    an arbitrary [Update] may write any quantity. *)
Definition writesQuantity {File} (e : Event File) : bool :=
  match e with
  | Update _ updates => bool_decide (is_Some (u_quantity updates))
  | _ => false
  end.

(** ** Shopping list ([App] "Shopping List State" and handlers) *)

(** [isItemInCart]: a list item is fulfilled by a cart entry. *)
Definition isItemInCart {E : JS.Engine} (items : list CartItem) (listName : string)
    : bool :=
  let normalizedList := JS.trim (JS.toLowerCase listName) in
  existsb (fun item => includes (JS.toLowerCase (productName item)) normalizedList)
          items.

(** [isItemInWishlist]: a cart entry corresponds to a wish list item. *)
Definition isItemInWishlist {E : JS.Engine} (shoppingList : list ShoppingListItem)
    (cartName : string) : bool :=
  let normalizedCart := JS.toLowerCase cartName in
  existsb (fun listItem =>
             includes normalizedCart (JS.trim (JS.toLowerCase (name listItem))))
          shoppingList.

(** [handleAddShoppingListItem] with the text of the field and the value
    [newId] of [uuidv4()]. *)
Definition handleAddShoppingListItem (newId newListItemName : string)
    (prev : list ShoppingListItem) : list ShoppingListItem :=
  if String.eqb (JS.trim newListItemName) "" then prev
  else prev ++ [ {| listId := newId; name := JS.trim newListItemName;
                    isChecked := false |} ].

Definition handleToggleListItem (target : string) (prev : list ShoppingListItem)
    : list ShoppingListItem :=
  map (fun i => if String.eqb (listId i) target
                then {| listId := listId i; name := name i;
                        isChecked := negb (isChecked i) |}
                else i) prev.

Definition handleDeleteListItem (target : string) (prev : list ShoppingListItem)
    : list ShoppingListItem :=
  List.filter (fun i => negb (String.eqb (listId i) target)) prev.

(** ** List extraction and import ([extractShoppingList], [handleImportList]) *)

Section ListService.

Context {File World : Type}.
Variable apiKey : string.
Variable fileType : File -> string.
Variable fileToBase64 : File -> World -> JS.Completion string * World.
Variable generateContent :
  string -> string -> World -> JS.Completion (option string) * World.
(** [JSON.parse(text) as string[]]; the cast is unchecked, the embedding
    takes the parsed value to be an array of strings. *)
Variable parseNames : string -> JS.Completion (list string).

Definition listReadFailed : string := "Falha ao ler a lista de compras.".

Definition extractShoppingList (file : File) (w : World)
    : JS.Completion (list string) * World :=
  if negb (JS.truthyStr (Some apiKey)) then (JS.Throw "API Key faltando", w)
  else
    let '(b64, w1) := fileToBase64 file w in
    match b64 with
    | JS.Throw e => (JS.Throw e, w1)
    | JS.Normal base64Data =>
        let '(response, w2) := generateContent (fileType file) base64Data w1 in
        match response with
        | JS.Throw _ => (JS.Throw listReadFailed, w2)
        | JS.Normal text =>
            if negb (JS.truthyStr text) then (JS.Normal [], w2)
            else match parseNames (default "" text) with
                 | JS.Normal names => (JS.Normal names, w2)
                 | JS.Throw _ => (JS.Throw listReadFailed, w2)
                 end
        end
    end.

End ListService.

Section ListImport.

Context {File World : Type}.
Variable extract : File -> World -> JS.Completion (list string) * World.
Variable uuidv4 : World -> string * World.

(** [names.map(name => ({ id: uuidv4(), name, isChecked: false }))] *)
Fixpoint newListItems (names : list string) (w : World)
    : list ShoppingListItem * World :=
  match names with
  | [] => ([], w)
  | n :: names' =>
      let '(newId, w1) := uuidv4 w in
      let '(rest, w2) := newListItems names' w1 in
      ({| listId := newId; name := n; isChecked := false |} :: rest, w2)
  end.

(** [handleImportList] for the chosen file ([None] when no file was chosen):
    the new list, whether the alert ["Erro ao ler lista."] was shown, and
    the world. *)
Definition handleImportList (file : option File) (prev : list ShoppingListItem)
    (w : World) : list ShoppingListItem * bool * World :=
  match file with
  | None => (prev, false, w)
  | Some f =>
      match extract f w with
      | (JS.Normal names, w1) =>
          let '(newItems, w2) := newListItems names w1 in
          (prev ++ newItems, false, w2)
      | (JS.Throw _, w1) => (prev, true, w1)
      end
  end.

End ListImport.

(** ** Reading a file ([fileToBase64]) *)

(** [s.split(',')[1]]: the text between the first and the second comma;
    [None] ([undefined]) when [s] has no comma. *)
Fixpoint untilComma (s : string) : string :=
  match s with
  | EmptyString => EmptyString
  | String c s' => if Ascii.eqb c "," then EmptyString else String c (untilComma s')
  end.

Fixpoint afterComma (s : string) : option string :=
  match s with
  | EmptyString => None
  | String c s' => if Ascii.eqb c "," then Some s' else afterComma s'
  end.

Definition splitCommaSecond (s : string) : option string :=
  option_map untilComma (afterComma s).

Section Reader.

Context {File World : Type}.
(** [FileReader.readAsDataURL]: the data URL in [onload], or [onerror]. *)
Variable readAsDataURL : File -> World -> JS.Completion string * World.

Definition fileToBase64 (file : File) (w : World)
    : JS.Completion (option string) * World :=
  match readAsDataURL file w with
  | (JS.Normal result, w1) => (JS.Normal (splitCommaSecond result), w1)
  | (JS.Throw e, w1) => (JS.Throw e, w1)
  end.

End Reader.

(** ** What the comparison view displays *)

(** [isBest] of the comparison view: [idx === 0 && grpItems.length > 1]. *)
Definition modalIsBest (idx : nat) (grpItems : list CartItem) : bool :=
  (idx =? 0)%nat && (1 <? length grpItems)%nat.

(** ** Report ([handleFinalize]) *)

(** The budget lines of the financial summary. *)
Inductive BudgetLines :=
| LimitUndefined
| Balance (limit saved : JS.number)
| Exceeded (limit over : JS.number).

Definition budgetLines (budget : option JS.number) (items : list CartItem)
    : BudgetLines :=
  match budget with
  | Some b =>
      let diff := JS.sub b (totalCost items) in
      if JS.leb (JS.ofZ 0) diff then Balance b diff else Exceeded b (JS.abs diff)
  | None => LimitUndefined
  end.

(** [shoppingList.filter(listItem => !isItemInCart(listItem.name))] *)
Definition missingItems {E : JS.Engine} (items : list CartItem)
    (shoppingList : list ShoppingListItem) : list ShoppingListItem :=
  List.filter (fun listItem => negb (isItemInCart items (name listItem)))
              shoppingList.

(** ** Vocabulary of the properties *)

(** *** Numbers *)

(** A number that is neither [NaN] nor an infinity. *)
Definition isFinite (x : JS.number) : bool :=
  match x with
  | S754_zero _ | S754_finite _ _ _ => true
  | _ => false
  end.

(** A number whose exponent, when it is finite, is not below the least
    exponent of the format; the results of the arithmetic are such. *)
Definition inRange (x : JS.number) : Prop :=
  match x with
  | S754_finite _ _ e => (emin JS.prec JS.emax <= e)%Z
  | _ => True
  end.

(** *** Cart store *)

(** The invariant of the data model: a stored entry has quantity at least 1. *)
Definition positiveQuantity (item : CartItem) : Prop := (1 <= quantity item)%Z.

(** Sums as the specification writes them: the amount of a line, and the
    sum of a list of amounts, taken in the order of the list. *)
Definition lineTotal (item : CartItem) : JS.number :=
  JS.mul (price item) (JS.ofZ (quantity item)).

Definition sumNumbers (l : list JS.number) : JS.number :=
  fold_left JS.add l (JS.ofZ 0).

Definition sumZ (l : list Z) : Z := fold_right Z.add 0%Z l.

(** The sum of price x quantity in exact arithmetic, for finite prices. *)
Definition exactTotal (items : list CartItem) : Q :=
  fold_right Qplus 0%Q
    (map (fun item => (JS.toQ (price item) * inject_Z (quantity item))%Q) items).

(** The entries that carry a given identifier. *)
Definition withId (target : string) (items : list CartItem) : list CartItem :=
  List.filter (fun item => String.eqb (id item) target) items.

(** *** Comparison *)

(** The unit price as the specification words it: the measure value, 1 when
    it is absent, times 1000 exactly for the units [kg] and [l], divides the
    price. *)
Definition normalize (unit : option string) (value : JS.number) : JS.number :=
  if bool_decide (unit = Some "kg" \/ unit = Some "l")
  then JS.mul value (JS.ofZ 1000) else value.

Definition unitPrice (item : CartItem) : JS.number :=
  JS.div (price item)
         (normalize (measureUnit item) (default (JS.ofZ 1) (measureValue item))).

(** An entry whose category, if any, is a text of the ASCII range. *)
Definition asciiCategory (item : CartItem) : Prop :=
  forall c, category item = Some c -> allChars JS.isAscii c = true.

(** The entries of the cart that are pushed under the key [k], in cart order. *)
Definition members {E : JS.Engine} (k : string) (items : list CartItem) : list CartItem :=
  List.filter (fun item => hasMeasure item && String.eqb (groupKey item) k) items.

(** Entries of a list whose unit price is [p], in list order. *)
Definition pricedAt (p : JS.number) (l : list CartItem) : list CartItem :=
  List.filter (fun item => JS.eqb (unitPrice item) p) l.

(** A slot of the grouping object after more entries were pushed to it: the
    array is created by the first push. *)
Definition extend (slot : option (list CartItem)) (new : list CartItem)
    : option (list CartItem) :=
  match slot, new with
  | Some arr, _ => Some (arr ++ new)
  | None, [] => None
  | None, _ => Some new
  end.

(** Characters a group key can contain: anything but capitals and underscores. *)
Definition keyChar (c : ascii) : bool :=
  negb (JS.isCapital c) && negb (Ascii.eqb c "_").

(** An update that leaves alone everything the comparison reads. *)
Definition keepsComparison (f : CartItem -> CartItem) : Prop :=
  forall item,
    id (f item) = id item /\ price (f item) = price item
    /\ category (f item) = category item
    /\ measureValue (f item) = measureValue item
    /\ measureUnit (f item) = measureUnit item.

(** *** File batches *)

(** Entries a sequence of setter calls puts in front of the cart. *)
Fixpoint prepended (l : list Action) : list CartItem :=
  match l with
  | [] => []
  | PrependItems new :: l' => prepended l' ++ new
  | _ :: l' => prepended l'
  end.

(** Sequential processing of a batch, as the specification describes it: the
    files are analysed one at a time, in order, each analysis starting in
    the world the one before it left; a success yields an entry with a fresh
    identifier and quantity 1, a failure yields nothing, and in both cases
    the rest of the batch is processed. *)
Section Sequential.

Context {File World : Type}.
Variable analyze : File -> World -> JS.Completion ScannedItem * World.
Variable uuidv4 : World -> string * World.

Inductive processed : World -> list File -> list (File * option CartItem)
                      -> World -> Prop :=
| processed_done w : processed w [] [] w
| processed_success w file rest result w1 newId w2 log w' :
    analyze file w = (JS.Normal result, w1) ->
    uuidv4 w1 = (newId, w2) ->
    processed w2 rest log w' ->
    processed w (file :: rest)
      ((file, Some (newCartItem newId result)) :: log) w'
| processed_failure w file rest e w1 log w' :
    analyze file w = (JS.Throw e, w1) ->
    processed w1 rest log w' ->
    processed w (file :: rest) ((file, None) :: log) w'.

End Sequential.

(** The progress shown while the files [i+1 .. i+n] of [total] are analysed. *)
Definition progressUpdates (total i n : nat) : list Action :=
  map (fun j => SetAnalyzingProgress (Some ((j + 1)%nat, total))) (seq i n).

Definition allSucceeded {File} (log : list (File * option CartItem)) : bool :=
  forallb (fun entry => bool_decide (is_Some (snd entry))) log.

(** Setter calls that record an error message. *)
Definition recordsError (a : Action) : bool :=
  match a with
  | SetStatus s => bool_decide (is_Some (error s))
  | _ => false
  end.

(** Identifiers handed out so far are never handed out again. *)
Definition freshIds {World : Type} (uuidv4 : World -> string * World)
    (issued : World -> string -> Prop) : Prop :=
  forall w, ~ issued w (fst (uuidv4 w))
            /\ issued (snd (uuidv4 w)) (fst (uuidv4 w))
            /\ forall s, issued w s -> issued (snd (uuidv4 w)) s.

(** The entries carry pairwise distinct identifiers, all of them issued. *)
Definition distinctIssued {World : Type} (issued : World -> string -> Prop)
    (items : list CartItem) (w : World) : Prop :=
  List.NoDup (map id items) /\ Forall (issued w) (map id items).

(** Events that can write an identifier directly. *)
Definition writesId {File} (e : Event File) : bool :=
  match e with
  | Update _ updates => bool_decide (is_Some (u_id updates))
  | _ => false
  end.

(** *** Manual entry *)

(** A decimal numeral: digits, or digits, a point and digits. *)
Definition numeral (s : string) : Prop :=
  exists int frac,
    int <> "" /\ allChars JS.isDigit int = true /\ allChars JS.isDigit frac = true
    /\ (s = int \/ (frac <> "" /\ s = int +:+ String "." frac)).

(** The text before the first white space character. *)
Fixpoint untilWhiteSpace (s : string) : string :=
  match s with
  | EmptyString => EmptyString
  | String c s' =>
      if JS.startsWithWhiteSpace (String c s') then EmptyString
      else String c (untilWhiteSpace s')
  end.

(** The first white-space-separated word of the trimmed name, as the
    specification words the derived category. *)
Definition firstWord (name : string) : string := untilWhiteSpace (JS.trim name).

(** No white space character other than the space. *)
Fixpoint spacesOnly (s : string) : bool :=
  match s with
  | EmptyString => true
  | String c s' =>
      (negb (JS.startsWithWhiteSpace (String c s')) || Ascii.eqb c " ")
      && spacesOnly s'
  end.

(** A name typed the usual way: it is not empty, it does not start with
    white space and its only white space is the space character. *)
Definition plainName (name : string) : bool :=
  match name with
  | EmptyString => false
  | _ => negb (JS.startsWithWhiteSpace name)
  end
  && spacesOnly name.

Definition noComma (s : string) : bool :=
  allChars (fun c => negb (Ascii.eqb c ",")) s.

(** *** Reading a shared text back *)

Definition noLineBreak (s : string) : bool :=
  allChars (fun c => negb (Ascii.eqb c LF)) s.

(** Modelled from the spec: the program has no reader for the text it
    shares; [splitLines], [leadingQuantity], [amountOfTotalLine] and
    [parseShare] follow the words "reading the leading quantity of each item
    line and the final total line": the text is cut at line breaks, the two
    heading lines and the blank line before the total are skipped, every
    line in between gives the number written at its start, and the last line
    gives the amount written between the label and the closing asterisk. *)
Fixpoint splitLines (s : string) : list string :=
  match s with
  | EmptyString => [""]
  | String c s' =>
      if Ascii.eqb c LF then "" :: splitLines s'
      else match splitLines s' with
           | line :: lines => String c line :: lines
           | [] => [String c ""]
           end
  end.

(** Modelled from the spec: the number written at the start of a line. *)
Definition leadingQuantity (line : string) : option Z :=
  let '(digits, _) := JS.span JS.isDigit line in
  match digits with
  | EmptyString => None
  | _ => Some (JS.digitsValue digits)
  end.

Fixpoint stripPrefix (prefix s : string) : option string :=
  match prefix, s with
  | EmptyString, _ => Some s
  | String p prefix', String c s' =>
      if Ascii.eqb p c then stripPrefix prefix' s' else None
  | String _ _, EmptyString => None
  end.

Fixpoint stripFinalAsterisk (s : string) : option string :=
  match s with
  | EmptyString => None
  | String c EmptyString => if Ascii.eqb c "*" then Some "" else None
  | String c s' => option_map (String c) (stripFinalAsterisk s')
  end.

(** Modelled from the spec: the amount written on the total line. *)
Definition amountOfTotalLine (line : string) : option string :=
  match stripPrefix totalLabel line with
  | Some rest => stripFinalAsterisk rest
  | None => None
  end.

Fixpoint sumQuantities (lines : list string) : option Z :=
  match lines with
  | [] => Some 0%Z
  | line :: lines' =>
      match leadingQuantity line, sumQuantities lines' with
      | Some q, Some total => Some (q + total)%Z
      | _, _ => None
      end
  end.

(** Modelled from the spec: the item count and the displayed total read
    from a shared text. *)
Definition parseShare (text : string) : option (Z * string) :=
  match splitLines text with
  | _ :: _ :: rest =>
      match rev rest with
      | totalLine :: _ :: itemLinesRev =>
          match sumQuantities (rev itemLinesRev), amountOfTotalLine totalLine with
          | Some count, Some amount => Some (count, amount)
          | _, _ => None
          end
      | _ => None
      end
  | _ => None
  end.

(** ** A sample environment

    A concrete engine, browser and model to run the handlers against: the
    engine lowers the letters of the ASCII range and the accented capitals
    of Latin-1, files are named by strings, the world counts the calls made
    so far, the model recognises two product photographs and fails on
    anything else. *)
Module Sample.

Abbreviation File := string.
Abbreviation World := nat.

(** The second byte of a capital between U+00C0 and U+00DE other than the
    multiplication sign, moved to the small letter. *)
Definition lowerLatin1 (c : ascii) : ascii :=
  let n := nat_of_ascii c in
  if (128 <=? n)%nat && (n <=? 158)%nat && negb (n =? 151)%nat
  then ascii_of_nat (n + 32) else c.

Definition isContinuation (c : ascii) : bool :=
  let n := nat_of_ascii c in (128 <=? n)%nat && (n <=? 191)%nat.

Fixpoint lower (s : string) : string :=
  match s with
  | String c1 s1 =>
      match s1 with
      | String c2 s2 =>
          if (nat_of_ascii c1 =? 195)%nat && isContinuation c2
          then String c1 (String (lowerLatin1 c2) (lower s2))
          else String (JS.lowerChar c1) (lower s1)
      | EmptyString => String (JS.lowerChar c1) EmptyString
      end
  | EmptyString => EmptyString
  end.

Definition engine : JS.Engine := {| JS.toLowerCase := lower |}.

Definition fileType (f : File) : string := "image/jpeg".

Definition fileToBase64 (f : File) (w : World) : JS.Completion string * World :=
  (JS.Normal f, w).

Definition generateContent (mimeType data : string) (w : World)
    : JS.Completion (option string) * World :=
  (JS.Normal (Some data), S w).

(** A number written as in the program text or in a JSON answer. *)
Definition num (literal : string) : JS.number := JS.parseFloat literal.

Definition parseScannedItem (text : string) : JS.Completion ScannedItem :=
  if String.eqb text "arroz-500g.jpg"
  then JS.Normal (mkScanned "Arroz Tio" (num "10") (Some "arroz")
                            (Some (num "500")) (Some "g"))
  else if String.eqb text "arroz-1kg.jpg"
  then JS.Normal (mkScanned "Arroz Bom" (num "22") (Some "Arroz")
                            (Some (num "1")) (Some "kg"))
  else JS.Throw "SyntaxError".

Definition analyze : File -> World -> JS.Completion ScannedItem * World :=
  analyzeProductImage "key" fileType fileToBase64 generateContent parseScannedItem.

Definition uuidv4 (w : World) : string * World := ("id-" +:+ pretty w, S w).

(** The two entries of the specification's example, newest first. *)
Definition riceA : CartItem :=
  mkItem "id-A" "A" (num "10") 1 (Some "rice") (Some (num "500")) (Some "g").
Definition riceB : CartItem :=
  mkItem "id-B" "B" (num "22") 1 (Some "rice") (Some (num "1")) (Some "kg").
Definition riceCart : list CartItem := [riceB; riceA].
Definition riceGroups : Groups := {[ "rice" := [riceA; riceB] ]}.

(** Two rice entries whose categories differ in case only, and an entry
    without category. *)
Definition arrozTio : CartItem :=
  mkItem "id-1" "Arroz Tio" (num "10") 1 (Some "arroz") (Some (num "500")) (Some "g").
Definition arrozBom : CartItem :=
  mkItem "id-2" "Arroz Bom" (num "22") 1 (Some "Arroz") (Some (num "1")) (Some "kg").
Definition avulso : CartItem :=
  mkItem "id-3" "Granel" (num "7") 1 None (Some (num "250")) (Some "g").
Definition arrozCart : list CartItem := [avulso; arrozBom; arrozTio].
Definition arrozGroups : Groups :=
  {[ "arroz" := [arrozTio; arrozBom]; "outros" := [avulso] ]}.

(** Two waters whose categories differ in the case of an accented letter. *)
Definition aguaMineral : CartItem :=
  mkItem "id-4" "Água Mineral" (num "3") 1 (Some "Água") (Some (num "1.5")) (Some "l").
Definition aguaCoco : CartItem :=
  mkItem "id-5" "Água de Coco" (num "6") 1 (Some "água") (Some (num "1")) (Some "l").

(** Entries the manual form produces. *)
Definition leite : CartItem :=
  mkItem "id-0" "Leite Integral" (num "4.5") 1 (Some "leite") (Some (num "1")) (Some "l").
Definition leiteLeadingSpace : CartItem :=
  mkItem "id-0" "Leite Integral" (num "4.5") 1 (Some "") (Some (num "1")) (Some "l").
Definition leiteZero : CartItem :=
  mkItem "id-0" "Leite" (num "4.5") 1 (Some "leite") (Some (num "0")) (Some "g").

(** A stand-in for the currency formatter: the amount in centavos. *)
Definition formatCurrency (x : JS.number) : string :=
  "R$ " +:+ pretty (Qfloor (JS.toQ x * 100 + (1 # 2))%Q) +:+ " centavos".

(** Two carts: the name of the only entry of the first spells out, after a
    line break, the second line of the other. *)
Definition trickCartFor (format : JS.number -> string) : list CartItem :=
  [ mkItem "id-0" ("A - " +:+ format (JS.ofZ 0) +:+ String LF "5x B")
           (JS.ofZ 5) 1 None None None ].
Definition trickCart : list CartItem := trickCartFor formatCurrency.
Definition plainCart : list CartItem :=
  [ mkItem "id-0" "A" (JS.ofZ 0) 1 None None None;
    mkItem "id-1" "B" (JS.ofZ 1) 5 None None None ].

Definition session : list (Event File) :=
  [ ManualAdd "Leite Integral" "4,5" "1 L";
    FilesChosen ["arroz-500g.jpg"; "borrado.jpg"; "arroz-1kg.jpg"];
    Increment 0;
    Increment 0;
    Decrement 2;
    Rename 1 "Arroz Bom 1kg";
    Decrement 0 ].

Definition budgetSession : list (Event File) :=
  [ ManualAdd "Carne" "60" ""; SetBudget "50" ].

(** Three units of a product at 1.10 against a budget of 3.30. *)
Definition centsSession : list (Event File) :=
  [ ManualAdd "Suco" "1.10" ""; Increment 0; Increment 0; SetBudget "3.30" ].

(** Two products typed with the same price per gram: 0.21 for 50 g, then
    8.40 for 2 kg. *)
Definition tieSession : list (Event File) :=
  [ ManualAdd "arroz a" "0.21" "50g"; ManualAdd "arroz b" "8.40" "2kg" ].

End Sample.

Module Sample2.

(** A list reader that recognises one photograph of a list, which holds a
    blank line, and fails on anything else. *)
Definition parseNames (text : string) : JS.Completion (list string) :=
  if String.eqb text "lista.jpg" then JS.Normal ["Arroz"; "  "; "Leite"]
  else JS.Throw "SyntaxError".

(** A model that answers with no text. *)
Definition silentModel (mimeType data : string) (w : nat)
    : JS.Completion (option string) * nat :=
  (JS.Normal None, S w).

Definition wishes : list ShoppingListItem :=
  [ mkListItem "l-1" "arroz" false; mkListItem "l-2" "Sabonete" true ].

Definition issued (w : nat) (s : string) : Prop :=
  exists n, (n < w)%nat /\ s = "id-" +:+ pretty n.

End Sample2.

(** * Properties *)

(** ** Numbers *)

Section NumberFacts.

Local Open Scope Z_scope.

Local Abbreviation emin := (SpecFloat.emin JS.prec JS.emax).
Local Abbreviation fexp := (SpecFloat.fexp JS.prec JS.emax).

Lemma digits2_pos_bounds (m : positive) :
  2 ^ (Z.pos (digits2_pos m) - 1) <= Z.pos m < 2 ^ Z.pos (digits2_pos m).
Proof.
  induction m as [m IH|m IH|]; cbn [digits2_pos].
  - rewrite Pos2Z.inj_succ.
    replace (Z.succ (Z.pos (digits2_pos m)) - 1)
      with (Z.succ (Z.pos (digits2_pos m) - 1)) by lia.
    rewrite !Z.pow_succ_r by lia. lia.
  - rewrite Pos2Z.inj_succ.
    replace (Z.succ (Z.pos (digits2_pos m)) - 1)
      with (Z.succ (Z.pos (digits2_pos m) - 1)) by lia.
    rewrite !Z.pow_succ_r by lia. lia.
  - simpl. lia.
Qed.

Lemma shr_1_m (mrs : shr_record) :
  0 <= shr_m mrs -> shr_m (shr_1 mrs) = shr_m mrs / 2.
Proof.
  destruct mrs as [m r s]. cbn [shr_m]. intros Hm.
  destruct m as [|[p|p|]|p]; cbn [shr_1 shr_m]; try reflexivity; try lia.
  - rewrite Pos2Z.inj_xI. apply Z.div_unique with (r := 1); lia.
  - rewrite Pos2Z.inj_xO. apply Z.div_unique with (r := 0); lia.
Qed.

Lemma iter_pos_shr_1_m (p : positive) : forall mrs : shr_record,
  0 <= shr_m mrs ->
  shr_m (SpecFloat.iter_pos shr_1 p mrs) = shr_m mrs / 2 ^ Z.pos p.
Proof.
  induction p as [p IH|p IH|]; intros mrs Hm; cbn [SpecFloat.iter_pos].
  - assert (H1 : 0 <= shr_m (shr_1 mrs))
      by (rewrite shr_1_m by exact Hm; apply Z.div_pos; lia).
    assert (H2 : 0 <= shr_m (SpecFloat.iter_pos shr_1 p (shr_1 mrs)))
      by (rewrite IH by exact H1; apply Z.div_pos; [exact H1 | lia]).
    rewrite IH by exact H2. rewrite IH by exact H1. rewrite shr_1_m by exact Hm.
    rewrite !Z.div_div by lia. f_equal.
    replace (Z.pos p~1) with (1 + Z.pos p + Z.pos p) by lia.
    rewrite !Z.pow_add_r by lia. lia.
  - assert (H1 : 0 <= shr_m (SpecFloat.iter_pos shr_1 p mrs))
      by (rewrite IH by exact Hm; apply Z.div_pos; [exact Hm | lia]).
    rewrite IH by exact H1. rewrite IH by exact Hm.
    rewrite Z.div_div by lia. f_equal.
    replace (Z.pos p~0) with (Z.pos p + Z.pos p) by lia.
    rewrite Z.pow_add_r by lia. reflexivity.
  - rewrite shr_1_m by exact Hm. reflexivity.
Qed.

Lemma shr_record_of_loc_m (m : Z) (l : location) :
  shr_m (shr_record_of_loc m l) = m.
Proof. destruct l as [|[]]; reflexivity. Qed.

Lemma fexp_emin (e : Z) : emin <= fexp e.
Proof. unfold SpecFloat.fexp. lia. Qed.

Lemma pow2_nonpositive (k : Z) : k <= 0 -> 2 ^ k <= 1.
Proof.
  intros Hk. destruct (Z.eq_dec k 0) as [->|Hne]; [simpl; lia|].
  rewrite Z.pow_neg_r by lia. lia.
Qed.

(** Shifting to the exponent of the format: the exponent reached is one of
    the format, the mantissa stays non-negative, and it stays positive when
    its value is at least that of the least positive number of the format. *)
Lemma shr_fexp_bounds (m e : Z) (l : location) :
  0 <= m ->
  emin <= snd (shr_fexp JS.prec JS.emax m e l)
  /\ 0 <= shr_m (fst (shr_fexp JS.prec JS.emax m e l))
  /\ (1 <= m -> 2 ^ (emin - e) <= m ->
      1 <= shr_m (fst (shr_fexp JS.prec JS.emax m e l))).
Proof.
  intros Hm. unfold shr_fexp, shr.
  pose proof (fexp_emin (Zdigits2 m + e)) as Hfexp.
  destruct (fexp (Zdigits2 m + e) - e) as [|p|p] eqn:Hn; cbn [fst snd].
  - rewrite shr_record_of_loc_m. repeat split; lia.
  - rewrite iter_pos_shr_1_m by (rewrite shr_record_of_loc_m; exact Hm).
    rewrite shr_record_of_loc_m.
    split; [lia|]. split; [apply Z.div_pos; lia|].
    intros Hpos He.
    destruct m as [|q|q]; try lia. cbn [Zdigits2] in *.
    pose proof (digits2_pos_bounds q) as [Hlow _].
    assert (Hle : 2 ^ Z.pos p <= Z.pos q).
    { destruct (Z_le_gt_dec emin (Z.pos (digits2_pos q) + e - JS.prec)) as [Hc|Hc].
      - assert (Hp : Z.pos p = Z.pos (digits2_pos q) - JS.prec)
          by (unfold SpecFloat.fexp in *; lia).
        etransitivity; [|exact Hlow]. apply Z.pow_le_mono_r; [lia|].
        unfold JS.prec in Hp. lia.
      - assert (Hp : Z.pos p = emin - e) by (unfold SpecFloat.fexp in *; lia).
        now rewrite Hp. }
    assert (0 < Z.pos q / 2 ^ Z.pos p); [|lia].
    apply Z.div_str_pos. lia.
  - rewrite shr_record_of_loc_m. repeat split; lia.
Qed.

Lemma round_nearest_even_bounds (m : Z) (l : location) :
  m <= round_nearest_even m l.
Proof.
  unfold round_nearest_even. destruct l as [|[]]; try lia.
  destruct (Z.even m); lia.
Qed.

(** Rounding a non-negative mantissa yields a zero, an infinity or a finite
    number of the given sign whose exponent is one of the format, and no
    zero when the value rounded is at least that of the least positive
    number of the format. *)
Lemma binary_round_aux_shape (s : bool) (m e : Z) (l : location) :
  0 <= m ->
  match binary_round_aux JS.prec JS.emax s m e l with
  | S754_zero s' => s' = s /\ ~ (1 <= m /\ 2 ^ (emin - e) <= m)
  | S754_infinity s' => s' = s
  | S754_nan => False
  | S754_finite s' _ e' => s' = s /\ emin <= e'
  end.
Proof.
  intros Hm. unfold binary_round_aux.
  destruct (shr_fexp_bounds m e l Hm) as (He1 & Hm1 & Hpos1).
  destruct (shr_fexp JS.prec JS.emax m e l) as [mrs1 e1]. cbn [fst snd] in *.
  pose proof (round_nearest_even_bounds (shr_m mrs1) (loc_of_shr_record mrs1)) as Hr.
  set (m2 := round_nearest_even (shr_m mrs1) (loc_of_shr_record mrs1)) in *.
  destruct (shr_fexp_bounds m2 e1 loc_Exact ltac:(lia)) as (He2 & Hm2 & Hpos2).
  destruct (shr_fexp JS.prec JS.emax m2 e1 loc_Exact) as [mrs2 e2].
  cbn [fst snd] in *.
  destruct (shr_m mrs2) as [|q|q].
  - split; [reflexivity|]. intros [H1 H2].
    specialize (Hpos1 H1 H2).
    pose proof (pow2_nonpositive (emin - e1) ltac:(lia)) as Hone.
    specialize (Hpos2 ltac:(lia) ltac:(lia)). lia.
  - destruct (e2 <=? JS.emax - JS.prec); [split; [reflexivity | exact He2] | reflexivity].
  - lia.
Qed.

Lemma shl_align_pos (m : positive) (e e' : Z) :
  e' <= e ->
  Z.pos (fst (shl_align m e e')) = Z.pos m * 2 ^ (e - e')
  /\ snd (shl_align m e e') = e'.
Proof.
  intros He. unfold shl_align.
  destruct (e' - e) as [|d|d] eqn:Hd; cbn [fst snd].
  - replace (e - e') with 0 by lia. split; lia.
  - lia.
  - replace (e - e') with (Z.pos d) by lia. split; [|reflexivity].
    clear. induction d as [|d IH] using Pos.peano_ind.
    + simpl. lia.
    + rewrite Pos.iter_succ, Pos2Z.inj_xO, IH, Pos2Z.inj_succ, Z.pow_succ_r by lia.
      lia.
Qed.

Lemma binary_round_shape (s : bool) (m : positive) (e : Z) :
  match binary_round JS.prec JS.emax s m e with
  | S754_zero s' => s' = s /\ ~ emin <= e
  | S754_infinity s' => s' = s
  | S754_nan => False
  | S754_finite s' _ e' => s' = s /\ emin <= e'
  end.
Proof.
  unfold binary_round.
  pose proof (fexp_emin (Z.pos (digits2_pos m) + e)) as Hfexp.
  set (f := fexp (Z.pos (digits2_pos m) + e)) in *.
  assert (Hez : emin <= e -> emin <= snd (shl_align m e f)).
  { intros He. unfold shl_align. destruct (f - e) eqn:Hd; cbn [snd]; lia. }
  destruct (shl_align m e f) as [mz ez]. cbn [snd] in Hez.
  pose proof (binary_round_aux_shape s (Z.pos mz) ez loc_Exact ltac:(lia)) as H.
  destruct (binary_round_aux JS.prec JS.emax s (Z.pos mz) ez loc_Exact);
    try exact H.
  destruct H as [Hs Hz]. split; [exact Hs|]. intros He. apply Hz.
  pose proof (pow2_nonpositive (emin - ez) ltac:(specialize (Hez He); lia)).
  lia.
Qed.

End NumberFacts.

(** ** Results of the arithmetic *)

Section RangeFacts.

Local Open Scope Z_scope.

Lemma div_core_nonneg (m1 e1 m2 e2 : Z) :
  0 <= m1 -> 0 < m2 ->
  0 <= fst (fst (SFdiv_core_binary JS.prec JS.emax m1 e1 m2 e2)).
Proof.
  intros H1 H2. unfold SFdiv_core_binary.
  set (s := e1 - e2 - _).
  set (m' := match s with Z.pos _ => Z.shiftl m1 s | 0 => m1 | Z.neg _ => 0 end).
  assert (Hm' : 0 <= m').
  { unfold m'. destruct s; [exact H1 | now apply Z.shiftl_nonneg | lia]. }
  pose proof (Z.div_pos m' m2 Hm' H2) as Hq. unfold Z.div in Hq.
  now destruct (Z.div_eucl m' m2).
Qed.

Lemma div_inRange (x y : JS.number) : inRange (JS.div x y).
Proof.
  destruct x as [sx|sx| |sx mx ex], y as [sy|sy| |sy my ey]; try exact I.
  unfold JS.div, SFdiv.
  pose proof (div_core_nonneg (Z.pos mx) ex (Z.pos my) ey ltac:(lia) ltac:(lia)) as Hq.
  destruct (SFdiv_core_binary JS.prec JS.emax (Z.pos mx) ex (Z.pos my) ey)
    as [[mz ez] lz]. cbn [fst] in Hq.
  pose proof (binary_round_aux_shape (xorb sx sy) mz ez lz Hq) as H.
  destruct (binary_round_aux JS.prec JS.emax (xorb sx sy) mz ez lz); try exact I.
  apply H.
Qed.

Lemma div_isNaN (x y : JS.number) :
  JS.isNaN (JS.div x y) = true ->
  JS.isNaN x = true \/ JS.isNaN y = true
  \/ (exists sx sy, x = S754_infinity sx /\ y = S754_infinity sy)
  \/ (exists sx sy, x = S754_zero sx /\ y = S754_zero sy).
Proof.
  destruct x as [sx|sx| |sx mx ex], y as [sy|sy| |sy my ey];
    try discriminate; eauto 8.
  unfold JS.div, SFdiv.
  pose proof (div_core_nonneg (Z.pos mx) ex (Z.pos my) ey ltac:(lia) ltac:(lia)) as Hq.
  destruct (SFdiv_core_binary JS.prec JS.emax (Z.pos mx) ex (Z.pos my) ey)
    as [[mz ez] lz]. cbn [fst] in Hq.
  pose proof (binary_round_aux_shape (xorb sx sy) mz ez lz Hq) as H.
  now destruct (binary_round_aux JS.prec JS.emax (xorb sx sy) mz ez lz).
Qed.

Lemma mul_inRange (x y : JS.number) : inRange (JS.mul x y).
Proof.
  destruct x as [sx|sx| |sx mx ex], y as [sy|sy| |sy my ey]; try exact I.
  unfold JS.mul, SFmul.
  pose proof (binary_round_aux_shape (xorb sx sy) (Z.pos (mx * my)) (ex + ey)
                loc_Exact ltac:(lia)) as H.
  destruct (binary_round_aux JS.prec JS.emax (xorb sx sy) (Z.pos (mx * my))
              (ex + ey) loc_Exact); try exact I.
  apply H.
Qed.

Lemma binary_normalize_inRange (m e : Z) (s : bool) :
  inRange (binary_normalize JS.prec JS.emax m e s).
Proof.
  destruct m as [|p|p]; cbn [binary_normalize]; [exact I| |].
  - pose proof (binary_round_shape false p e) as H.
    destruct (binary_round JS.prec JS.emax false p e); try exact I. apply H.
  - pose proof (binary_round_shape true p e) as H.
    destruct (binary_round JS.prec JS.emax true p e); try exact I. apply H.
Qed.

Lemma binary_normalize_number (m e : Z) (s : bool) :
  JS.isNaN (binary_normalize JS.prec JS.emax m e s) = false.
Proof.
  destruct m as [|p|p]; cbn [binary_normalize]; [reflexivity| |].
  - pose proof (binary_round_shape false p e) as H.
    now destruct (binary_round JS.prec JS.emax false p e).
  - pose proof (binary_round_shape true p e) as H.
    now destruct (binary_round JS.prec JS.emax true p e).
Qed.

Lemma ofZ_number (z : Z) : JS.isNaN (JS.ofZ z) = false.
Proof. apply binary_normalize_number. Qed.

Lemma add_inRange (x y : JS.number) :
  inRange x -> inRange y -> inRange (JS.add x y).
Proof.
  destruct x as [sx|sx| |sx mx ex], y as [sy|sy| |sy my ey];
    intros Hx Hy; try exact I; try assumption.
  - now destruct sx, sy.
  - now destruct sx, sy.
  - apply binary_normalize_inRange.
Qed.

Lemma sub_inRange (x y : JS.number) :
  inRange x -> inRange y -> inRange (JS.sub x y).
Proof.
  destruct x as [sx|sx| |sx mx ex], y as [sy|sy| |sy my ey];
    intros Hx Hy; try exact I; try assumption.
  - now destruct sx, sy.
  - now destruct sx, sy.
  - apply binary_normalize_inRange.
Qed.

Lemma ofZ_inRange (z : Z) : inRange (JS.ofZ z).
Proof. apply binary_normalize_inRange. Qed.

End RangeFacts.

(** ** Whole numbers *)

Section WholeNumbers.

Local Open Scope Z_scope.

Lemma digits2_pos_unique (m : positive) (d : Z) :
  2 ^ (d - 1) <= Z.pos m < 2 ^ d -> Z.pos (digits2_pos m) = d.
Proof.
  intros [Hlow Hhigh]. pose proof (digits2_pos_bounds m) as [Hl Hh].
  set (d0 := Z.pos (digits2_pos m)) in *.
  destruct (Z.lt_trichotomy d0 d) as [Hlt|[Heq|Hgt]]; [|exact Heq|].
  - exfalso. assert (2 ^ d0 <= 2 ^ (d - 1)) by (apply Z.pow_le_mono_r; lia). lia.
  - exfalso. destruct (Z_lt_le_dec d 0) as [Hneg|Hpos].
    + rewrite Z.pow_neg_r in Hhigh by lia. lia.
    + assert (2 ^ d <= 2 ^ (d0 - 1)) by (apply Z.pow_le_mono_r; lia). lia.
Qed.

(** A whole number below 2^53 is of the format. *)
Lemma binary_round_whole (s : bool) (p : positive) :
  Z.pos p < 2 ^ 53 ->
  exists m e,
    binary_round JS.prec JS.emax s p 0 = S754_finite s m e
    /\ e <= 0 /\ Z.pos m = Z.pos p * 2 ^ (- e).
Proof.
  intros Hp. pose proof (digits2_pos_bounds p) as [Hl Hh].
  set (d := Z.pos (digits2_pos p)) in *.
  assert (Hd : 1 <= d <= 53).
  { split; [unfold d; lia|].
    destruct (Z_le_gt_dec d 53) as [H|H]; [exact H|]. exfalso.
    assert (2 ^ 53 <= 2 ^ (d - 1)) by (apply Z.pow_le_mono_r; lia). lia. }
  unfold binary_round. fold d.
  assert (Hf : SpecFloat.fexp JS.prec JS.emax (d + 0) = d - 53)
    by (unfold SpecFloat.fexp, SpecFloat.emin, JS.prec, JS.emax; lia).
  rewrite Hf.
  destruct (shl_align_pos p 0 (d - 53) ltac:(lia)) as [Hm He].
  destruct (shl_align p 0 (d - 53)) as [mz ez]. cbn [fst snd] in Hm, He. subst ez.
  replace (0 - (d - 53)) with (53 - d) in Hm by lia.
  assert (Hdz : Z.pos (digits2_pos mz) = 53).
  { apply digits2_pos_unique. rewrite Hm. split.
    - replace (53 - 1) with ((d - 1) + (53 - d)) by lia.
      rewrite Z.pow_add_r by lia. apply Z.mul_le_mono_nonneg_r; lia.
    - replace 53 with (d + (53 - d)) at 2 by lia.
      rewrite Z.pow_add_r by lia. apply Z.mul_lt_mono_pos_r; lia. }
  assert (Hshift : forall l,
            shr_fexp JS.prec JS.emax (Z.pos mz) (d - 53) l
            = (shr_record_of_loc (Z.pos mz) l, d - 53)).
  { intros l. unfold shr_fexp. cbn [Zdigits2]. rewrite Hdz.
    replace (SpecFloat.fexp JS.prec JS.emax (53 + (d - 53)) - (d - 53)) with 0
      by (unfold SpecFloat.fexp, SpecFloat.emin, JS.prec, JS.emax; lia).
    reflexivity. }
  unfold binary_round_aux. rewrite (Hshift loc_Exact).
  cbn [shr_record_of_loc shr_m loc_of_shr_record round_nearest_even].
  rewrite (Hshift loc_Exact). cbn [shr_record_of_loc shr_m].
  assert (Hle : (d - 53 <=? JS.emax - JS.prec) = true)
    by (apply Z.leb_le; unfold JS.emax, JS.prec; lia).
  rewrite Hle. exists mz, (d - 53).
  split; [reflexivity|]. split; [lia|].
  rewrite Hm. f_equal. f_equal. lia.
Qed.

Lemma toQ_whole (s : bool) (m : positive) (e : Z) (p : positive) :
  e <= 0 -> Z.pos m = Z.pos p * 2 ^ (- e) ->
  (JS.toQ (S754_finite s m e) == inject_Z (cond_Zopp s (Z.pos p)))%Q.
Proof.
  intros He Hm. unfold JS.toQ. rewrite Hm.
  assert (Hc : cond_Zopp s (Z.pos p * 2 ^ (- e))
               = cond_Zopp s (Z.pos p) * 2 ^ (- e))
    by (destruct s; cbn [cond_Zopp]; lia).
  rewrite Hc, inject_Z_mult, Zpower_Qpower by lia.
  change (inject_Z 2) with 2%Q.
  rewrite <- Qmult_assoc, <- Qpower_plus by discriminate.
  replace (- e + e) with 0 by lia. change (2 ^ 0)%Q with 1%Q. ring.
Qed.

(** The number of a whole number of magnitude below 2^53 is that whole
    number. *)
Lemma ofZ_exact (z : Z) :
  Z.abs z < 2 ^ 53 -> isFinite (JS.ofZ z) = true /\ (JS.toQ (JS.ofZ z) == inject_Z z)%Q.
Proof.
  intros Hz. unfold JS.ofZ. destruct z as [|p|p]; cbn [binary_normalize].
  - split; reflexivity.
  - destruct (binary_round_whole false p Hz) as (m & e & -> & He & Hm).
    split; [reflexivity | exact (toQ_whole false m e p He Hm)].
  - destruct (binary_round_whole true p Hz) as (m & e & -> & He & Hm).
    split; [reflexivity | exact (toQ_whole true m e p He Hm)].
Qed.

End WholeNumbers.

Section OrderFacts.

Implicit Types (x y z p : JS.number) (a b c : JS.Ext).

Lemma compareExt_refl a : JS.compareExt a a = Eq.
Proof. destruct a; simpl; try reflexivity. apply Qeq_alt. reflexivity. Qed.

Lemma compareExt_antisym a b : JS.compareExt b a = CompOpp (JS.compareExt a b).
Proof. destruct a, b; simpl; try reflexivity. symmetry. apply Qcompare_antisym. Qed.

Lemma compareExt_le_trans a b c :
  JS.compareExt a b <> Gt -> JS.compareExt b c <> Gt -> JS.compareExt a c <> Gt.
Proof.
  destruct a, b, c; simpl; try congruence.
  rewrite <- !Qle_alt. apply Qle_trans.
Qed.

Lemma compareExt_eq_l a b c :
  JS.compareExt a b = Eq -> JS.compareExt a c = JS.compareExt b c.
Proof.
  destruct a, b, c; simpl; try congruence.
  rewrite <- Qeq_alt. intros H. now rewrite H.
Qed.

Lemma compare_Some x y :
  JS.isNaN x = false -> JS.isNaN y = false ->
  exists a b, JS.ext x = Some a /\ JS.ext y = Some b
              /\ JS.compare x y = Some (JS.compareExt a b).
Proof.
  intros Hx Hy. unfold JS.compare.
  destruct x, y; try discriminate; simpl; eauto 6.
Qed.

Lemma leb_isNaN x y : JS.leb x y = true -> JS.isNaN x = false /\ JS.isNaN y = false.
Proof. unfold JS.leb, JS.compare. destruct x, y; simpl; try discriminate; auto. Qed.

Lemma eqb_isNaN x y : JS.eqb x y = true -> JS.isNaN x = false /\ JS.isNaN y = false.
Proof. unfold JS.eqb, JS.compare. destruct x, y; simpl; try discriminate; auto. Qed.

Lemma leb_refl x : JS.isNaN x = false -> JS.leb x x = true.
Proof.
  intros Hx. unfold JS.leb.
  destruct (compare_Some x x Hx Hx) as (a & b & Ha & Hb & ->).
  rewrite Ha in Hb. injection Hb as <-. now rewrite compareExt_refl.
Qed.

Lemma eqb_refl x : JS.isNaN x = false -> JS.eqb x x = true.
Proof.
  intros Hx. unfold JS.eqb.
  destruct (compare_Some x x Hx Hx) as (a & b & Ha & Hb & ->).
  rewrite Ha in Hb. injection Hb as <-. now rewrite compareExt_refl.
Qed.

Lemma ltb_false_leb x y :
  JS.isNaN x = false -> JS.isNaN y = false ->
  JS.ltb y x = false -> JS.leb x y = true.
Proof.
  intros Hx Hy. unfold JS.ltb, JS.leb.
  destruct (compare_Some x y Hx Hy) as (a & b & Ha & Hb & ->).
  unfold JS.compare. rewrite Ha, Hb, (compareExt_antisym a b).
  destruct (JS.compareExt a b); simpl; congruence.
Qed.

Lemma ltb_leb x y : JS.ltb x y = true -> JS.leb x y = true.
Proof. unfold JS.ltb, JS.leb. now destruct (JS.compare x y) as [[]|]. Qed.

Lemma ltb_not_leb x y : JS.ltb y x = true -> JS.leb x y = false.
Proof.
  unfold JS.ltb, JS.leb, JS.compare.
  destruct (JS.ext x) as [a|], (JS.ext y) as [b|]; try discriminate.
  rewrite (compareExt_antisym a b).
  destruct (JS.compareExt a b); simpl; congruence.
Qed.

Lemma leb_trans x y z : JS.leb x y = true -> JS.leb y z = true -> JS.leb x z = true.
Proof.
  unfold JS.leb, JS.compare.
  destruct (JS.ext x) as [a|], (JS.ext y) as [b|], (JS.ext z) as [c|];
    try discriminate.
  intros H1 H2. pose proof (compareExt_le_trans a b c) as H.
  destruct (JS.compareExt a b), (JS.compareExt b c), (JS.compareExt a c);
    try discriminate; try reflexivity; exfalso; apply H; congruence.
Qed.

Lemma leb_antisym x y : JS.leb x y = true -> JS.leb y x = true -> JS.eqb x y = true.
Proof.
  unfold JS.leb, JS.eqb, JS.compare.
  destruct (JS.ext x) as [a|], (JS.ext y) as [b|]; try discriminate.
  rewrite (compareExt_antisym a b).
  destruct (JS.compareExt a b); simpl; congruence.
Qed.

Lemma eqb_leb x y : JS.eqb x y = true -> JS.leb x y = true.
Proof. unfold JS.eqb, JS.leb. now destruct (JS.compare x y) as [[]|]. Qed.

Lemma eqb_sym x y : JS.eqb x y = JS.eqb y x.
Proof.
  unfold JS.eqb, JS.compare.
  destruct (JS.ext x) as [a|], (JS.ext y) as [b|]; try reflexivity.
  rewrite (compareExt_antisym a b). now destruct (JS.compareExt a b).
Qed.

(** Equal numbers compare alike with every number. *)
Lemma eqb_compare_l x y p : JS.eqb x y = true -> JS.compare x p = JS.compare y p.
Proof.
  unfold JS.eqb, JS.compare.
  destruct (JS.ext x) as [a|], (JS.ext y) as [b|]; try discriminate.
  destruct (JS.compareExt a b) eqn:E; try discriminate. intros _.
  destruct (JS.ext p) as [c|]; [|reflexivity].
  now rewrite (compareExt_eq_l a b c E).
Qed.

Lemma eqb_compat x y p : JS.eqb x y = true -> JS.eqb x p = JS.eqb y p.
Proof. intros H. unfold JS.eqb. now rewrite (eqb_compare_l x y p H). Qed.

Lemma eqb_ltb x y p : JS.eqb x p = true -> JS.eqb y p = true -> JS.ltb y x = false.
Proof.
  intros Hx Hy. rewrite eqb_sym in Hx.
  unfold JS.ltb. rewrite (eqb_compare_l y p x Hy).
  unfold JS.eqb in Hx. now destruct (JS.compare p x) as [[]|].
Qed.

(** *** Signs *)

Lemma toQ_finite_sign (s : bool) (m : positive) (e : Z) :
  if s then (JS.toQ (S754_finite s m e) < 0)%Q else (0 < JS.toQ (S754_finite s m e))%Q.
Proof.
  unfold JS.toQ.
  assert (Hp : (0 < 2 ^ e)%Q) by (apply Qpower_0_lt; reflexivity).
  assert (Hm : (0 < inject_Z (Z.pos m))%Q) by reflexivity.
  destruct s; cbn [cond_Zopp].
  - change (Z.opp (Z.pos m)) with (- Z.pos m)%Z. rewrite inject_Z_opp. nra.
  - nra.
Qed.

Lemma ltb_zero x :
  JS.ltb (JS.ofZ 0) x
  = match x with
    | S754_infinity s | S754_finite s _ _ => negb s
    | _ => false
    end.
Proof.
  destruct x as [s|s| |s m e]; try reflexivity; [now destruct s|].
  unfold JS.ltb, JS.compare. cbn [JS.ofZ binary_normalize JS.ext JS.compareExt].
  change (JS.toQ (S754_zero false)) with 0%Q.
  pose proof (toQ_finite_sign s m e) as H.
  destruct (0 ?= JS.toQ (S754_finite s m e))%Q eqn:E.
  - apply Qeq_alt in E. destruct s; simpl; lra.
  - apply Qlt_alt in E. destruct s; simpl; [lra | reflexivity].
  - apply Qgt_alt in E. destruct s; simpl; [reflexivity | lra].
Qed.

Lemma toQ_aligned (s : bool) (m : positive) (e ez : Z) :
  (ez <= e)%Z ->
  (JS.toQ (S754_finite s m e)
   == inject_Z (cond_Zopp s (Z.pos (fst (shl_align m e ez)))) * 2 ^ ez)%Q.
Proof.
  intros He. destruct (shl_align_pos m e ez He) as [Hm _]. rewrite Hm.
  unfold JS.toQ.
  assert (Hc : cond_Zopp s (Z.pos m * 2 ^ (e - ez))
               = (cond_Zopp s (Z.pos m) * 2 ^ (e - ez))%Z)
    by (destruct s; cbn [cond_Zopp]; lia).
  rewrite Hc, inject_Z_mult, Zpower_Qpower by lia.
  replace e with ((e - ez) + ez)%Z at 1 by lia.
  rewrite Qpower_plus by discriminate.
  change (inject_Z 2) with 2%Q. ring.
Qed.

(** The sign of a difference is the order of its terms: rounding brings no
    difference of two numbers of the format to zero. *)
Lemma compare_sub x y :
  inRange x -> inRange y -> JS.isNaN (JS.sub x y) = false ->
  JS.compare (JS.ofZ 0) (JS.sub x y) = JS.compare y x.
Proof.
  destruct x as [sx|sx| |sx mx ex], y as [sy|sy| |sy my ey];
    try discriminate; intros Hx Hy Hnan.
  - now destruct sx, sy.
  - now destruct sx, sy.
  - cbn [JS.sub SFsub]. unfold JS.compare.
    cbn [JS.ofZ binary_normalize JS.ext JS.compareExt].
    change (JS.toQ (S754_zero false)) with 0%Q.
    change (JS.toQ (S754_zero sx)) with 0%Q.
    pose proof (toQ_finite_sign sy my ey) as H1.
    pose proof (toQ_finite_sign (negb sy) my ey) as H2.
    f_equal.
    destruct (0 ?= JS.toQ (S754_finite (negb sy) my ey))%Q eqn:E1;
      [apply Qeq_alt in E1 | apply Qlt_alt in E1 | apply Qgt_alt in E1];
      (destruct (JS.toQ (S754_finite sy my ey) ?= 0)%Q eqn:E2;
       [apply Qeq_alt in E2 | apply Qlt_alt in E2 | apply Qgt_alt in E2]);
      destruct sy; cbn [negb] in *; try reflexivity; lra.
  - now destruct sx, sy.
  - destruct sx, sy; try discriminate; reflexivity.
  - now destruct sx.
  - cbn [JS.sub SFsub]. unfold JS.compare.
    cbn [JS.ofZ binary_normalize JS.ext JS.compareExt]. reflexivity.
  - now destruct sy.
  - cbn [inRange] in Hx, Hy.
    unfold JS.sub, SFsub in *.
    set (ez := Z.min ex ey) in *.
    pose proof (toQ_aligned sx mx ex ez ltac:(lia)) as Hqx.
    pose proof (toQ_aligned sy my ey ez ltac:(lia)) as Hqy.
    set (dx := cond_Zopp sx (Z.pos (fst (shl_align mx ex ez)))) in *.
    set (dy := cond_Zopp sy (Z.pos (fst (shl_align my ey ez)))) in *.
    assert (Hp : (0 < 2 ^ ez)%Q) by (apply Qpower_0_lt; reflexivity).
    assert (Hd : (JS.toQ (S754_finite sx mx ex) - JS.toQ (S754_finite sy my ey)
                  == inject_Z (dx - dy) * 2 ^ ez)%Q).
    { rewrite Hqx, Hqy. unfold Z.sub. rewrite inject_Z_plus, inject_Z_opp. ring. }
    unfold JS.compare at 2. cbn [JS.ext JS.compareExt].
    destruct (dx - dy)%Z as [|d|d] eqn:HD; cbn [binary_normalize].
    + assert (E : (JS.toQ (S754_finite sy my ey) == JS.toQ (S754_finite sx mx ex))%Q).
      { change (inject_Z 0) with 0%Q in Hd. lra. }
      apply Qeq_alt in E. refine (eq_trans _ (f_equal Some (eq_sym E))). reflexivity.
    + assert (E : (JS.toQ (S754_finite sy my ey) < JS.toQ (S754_finite sx mx ex))%Q).
      { assert (0 < inject_Z (Z.pos d))%Q by reflexivity. nra. }
      apply Qlt_alt in E. refine (eq_trans _ (f_equal Some (eq_sym E))).
      pose proof (binary_round_shape false d ez) as Hshape.
      pose proof (ltb_zero (binary_round JS.prec JS.emax false d ez)) as Hlt.
      unfold JS.ltb in Hlt.
      destruct (binary_round JS.prec JS.emax false d ez) as [s|s| |s m e].
      * destruct Hshape as [_ Hne]. exfalso. apply Hne. unfold ez. lia.
      * subst s. reflexivity.
      * destruct Hshape.
      * destruct Hshape as [-> _].
        destruct (JS.compare (JS.ofZ 0) (S754_finite false m e)) as [[]|];
          try discriminate Hlt. reflexivity.
    + assert (E : (JS.toQ (S754_finite sx mx ex) < JS.toQ (S754_finite sy my ey))%Q).
      { assert (inject_Z (Z.neg d) < 0)%Q by reflexivity. nra. }
      apply Qgt_alt in E. refine (eq_trans _ (f_equal Some (eq_sym E))).
      pose proof (binary_round_shape true d ez) as Hshape.
      destruct (binary_round JS.prec JS.emax true d ez) as [s|s| |s m e].
      * destruct Hshape as [_ Hne]. exfalso. apply Hne. unfold ez. lia.
      * subst s. reflexivity.
      * destruct Hshape.
      * destruct Hshape as [-> _].
        unfold JS.compare. cbn [JS.ofZ binary_normalize JS.ext JS.compareExt].
        change (JS.toQ (S754_zero false)) with 0%Q.
        pose proof (toQ_finite_sign true m e) as Hneg. cbn in Hneg.
        f_equal. apply Qgt_alt. exact Hneg.
Qed.

Lemma sub_isNaN x y :
  JS.isNaN x = false -> JS.isNaN y = false -> JS.isNaN (JS.sub x y) = true ->
  exists s, x = S754_infinity s /\ y = S754_infinity s.
Proof.
  destruct x as [sx|sx| |sx mx ex], y as [sy|sy| |sy my ey];
    try discriminate; intros _ _.
  - now destruct sx, sy.
  - destruct sx, sy; try discriminate; eauto.
  - cbn [JS.sub SFsub].
    set (z := (_ - _)%Z). destruct z as [|d|d]; cbn [binary_normalize].
    + discriminate.
    + pose proof (binary_round_shape false d (Z.min ex ey)) as H.
      now destruct (binary_round JS.prec JS.emax false d (Z.min ex ey)).
    + pose proof (binary_round_shape true d (Z.min ex ey)) as H.
      now destruct (binary_round JS.prec JS.emax true d (Z.min ex ey)).
Qed.

(** A difference is positive exactly when the term subtracted is the smaller. *)
Lemma ltb_sub x y :
  JS.isNaN x = false -> JS.isNaN y = false -> inRange x -> inRange y ->
  JS.ltb (JS.ofZ 0) (JS.sub x y) = JS.ltb y x.
Proof.
  intros Hx Hy Rx Ry.
  destruct (JS.isNaN (JS.sub x y)) eqn:Hnan.
  - destruct (sub_isNaN x y Hx Hy Hnan) as (s & -> & ->). now destruct s.
  - unfold JS.ltb. now rewrite (compare_sub x y Rx Ry Hnan).
Qed.

End OrderFacts.

(** ** Texts *)

Section StringFacts.

Implicit Types (a b c s t : string).

Lemma append_cons (x : ascii) a b : String x a +:+ b = String x (a +:+ b).
Proof. reflexivity. Qed.

Lemma append_empty_l a : "" +:+ a = a.
Proof. reflexivity. Qed.

Lemma append_assoc a b c : (a +:+ b) +:+ c = a +:+ (b +:+ c).
Proof.
  induction a as [|x a IH]; [reflexivity|].
  rewrite !append_cons. f_equal. exact IH.
Qed.

Lemma append_empty_r a : a +:+ "" = a.
Proof.
  induction a as [|x a IH]; [reflexivity|].
  rewrite append_cons. f_equal. exact IH.
Qed.

Lemma length_append a b :
  String.length (a +:+ b) = (String.length a + String.length b)%nat.
Proof.
  induction a as [|x a IH]; [reflexivity|].
  rewrite append_cons. simpl. f_equal. exact IH.
Qed.

Lemma allChars_app p a b : allChars p (a +:+ b) = allChars p a && allChars p b.
Proof.
  induction a as [|x a IH]; [reflexivity|].
  rewrite append_cons. simpl. now rewrite IH, andb_assoc.
Qed.

Lemma allChars_impl (p q : ascii -> bool) s :
  (forall x, p x = true -> q x = true) ->
  allChars p s = true -> allChars q s = true.
Proof.
  intros Hpq. induction s as [|x s IH]; simpl; [reflexivity|].
  intros H. apply andb_prop in H as [Hx Hs].
  now rewrite (Hpq x Hx), IH.
Qed.

Lemma span_all (p : ascii -> bool) s :
  allChars p s = true -> JS.span p s = (s, "").
Proof.
  induction s as [|x s IH]; [reflexivity|].
  cbn [allChars JS.span]. intros H. apply andb_prop in H as [Hx Hs].
  now rewrite Hx, (IH Hs).
Qed.

Lemma span_fst_all (p : ascii -> bool) s : allChars p (fst (JS.span p s)) = true.
Proof.
  induction s as [|x s IH]; [reflexivity|].
  cbn [JS.span]. destruct (p x) eqn:Hx; [|reflexivity].
  destruct (JS.span p s) as [u v]. cbn [fst allChars] in *. now rewrite Hx, IH.
Qed.

Lemma mapChars_empty f s : JS.mapChars f s = "" <-> s = "".
Proof. destruct s; simpl; split; congruence. Qed.

Lemma mapChars_mapChars f g s :
  JS.mapChars f (JS.mapChars g s) = JS.mapChars (fun x => f (g x)) s.
Proof. induction s as [|x s IH]; simpl; [reflexivity | now rewrite IH]. Qed.

Lemma lowerChar_idempotent (x : ascii) : JS.lowerChar (JS.lowerChar x) = JS.lowerChar x.
Proof. destruct x as [[] [] [] [] [] [] [] []]; reflexivity. Qed.

Lemma lowerChar_isAscii (x : ascii) : JS.isAscii x = true -> JS.isAscii (JS.lowerChar x) = true.
Proof. destruct x as [[] [] [] [] [] [] [] []]; vm_compute; congruence. Qed.

Lemma asciiLower_idempotent s : JS.asciiLower (JS.asciiLower s) = JS.asciiLower s.
Proof.
  unfold JS.asciiLower. induction s as [|x s IH]; simpl; [reflexivity|].
  now rewrite lowerChar_idempotent, IH.
Qed.

Lemma asciiLower_isAscii s :
  allChars JS.isAscii s = true -> allChars JS.isAscii (JS.asciiLower s) = true.
Proof.
  unfold JS.asciiLower. induction s as [|x s IH]; simpl; [reflexivity|].
  intros H. apply andb_prop in H as [Hx Hs].
  now rewrite (lowerChar_isAscii x Hx), (IH Hs).
Qed.

Lemma splitSpaceHead_allChars p s :
  allChars p s = true -> allChars p (JS.splitSpaceHead s) = true.
Proof.
  induction s as [|x s IH]; simpl; [reflexivity|].
  intros H. apply andb_prop in H as [Hx Hs].
  destruct (Ascii.eqb x " "); [reflexivity|]. simpl. now rewrite Hx, (IH Hs).
Qed.

Lemma isLetter_isAscii (x : ascii) : JS.isLetter x = true -> JS.isAscii x = true.
Proof. destruct x as [[] [] [] [] [] [] [] []]; vm_compute; congruence. Qed.

(** *** White space *)

Lemma trimStart_visible s :
  JS.startsWithWhiteSpace s = false -> JS.trimStart s = s.
Proof.
  unfold JS.startsWithWhiteSpace.
  destruct s as [|x1 [|x2 [|x3 s3]]]; cbn [JS.afterWhiteSpace JS.trimStart];
    try reflexivity.
  - now destruct (JS.isWhiteSpace1 x1).
  - destruct (JS.isWhiteSpace1 x1); [discriminate|].
    now destruct (JS.isWhiteSpace2 x1 x2).
  - destruct (JS.isWhiteSpace1 x1); [discriminate|].
    destruct (JS.isWhiteSpace2 x1 x2); [discriminate|].
    now destruct (JS.isWhiteSpace3 x1 x2 x3).
Qed.

Lemma isBlank_visible (x : ascii) s :
  JS.startsWithWhiteSpace (String x s) = false -> JS.isBlank (String x s) = false.
Proof. intros H. unfold JS.isBlank. now rewrite (trimStart_visible _ H). Qed.

Lemma startsWithWhiteSpace_app s r :
  JS.startsWithWhiteSpace s = true -> JS.startsWithWhiteSpace (s +:+ r) = true.
Proof.
  unfold JS.startsWithWhiteSpace.
  destruct s as [|x1 [|x2 [|x3 s3]]]; cbn [JS.afterWhiteSpace]; try discriminate.
  - rewrite append_cons, append_empty_l. cbn [JS.afterWhiteSpace].
    destruct (JS.isWhiteSpace1 x1); [reflexivity | discriminate].
  - rewrite !append_cons, append_empty_l. cbn [JS.afterWhiteSpace].
    destruct (JS.isWhiteSpace1 x1); [reflexivity|].
    destruct (JS.isWhiteSpace2 x1 x2); [reflexivity | discriminate].
  - rewrite !append_cons. cbn [JS.afterWhiteSpace].
    destruct (JS.isWhiteSpace1 x1); [reflexivity|].
    destruct (JS.isWhiteSpace2 x1 x2); [reflexivity|].
    destruct (JS.isWhiteSpace3 x1 x2 x3); [reflexivity | discriminate].
Qed.

Lemma trimEnd_prefix s : exists r, s = JS.trimEnd s +:+ r.
Proof.
  induction s as [|x s [r IH]]; [now exists ""|].
  cbn [JS.trimEnd]. destruct (JS.isBlank (String x s)).
  - now exists (String x s).
  - exists r. rewrite append_cons. now f_equal.
Qed.

Lemma space_isWhiteSpace s : JS.startsWithWhiteSpace (String " " s) = true.
Proof. reflexivity. Qed.

(** Trimming the end of a name does not change what precedes its first
    white space when the name has no white space other than spaces. *)
Lemma untilWhiteSpace_trimEnd s :
  spacesOnly s = true -> untilWhiteSpace (JS.trimEnd s) = JS.splitSpaceHead s.
Proof.
  induction s as [|x s IH]; [reflexivity|].
  cbn [spacesOnly]. intros H. apply andb_prop in H as [Hx Hs].
  specialize (IH Hs). cbn [JS.trimEnd JS.splitSpaceHead].
  destruct (Ascii.eqb_spec x " ") as [->|Hne].
  - destruct (JS.isBlank (String " " s)); reflexivity.
  - rewrite orb_false_r in Hx. apply negb_true_iff in Hx.
    rewrite (isBlank_visible x s Hx). cbn [untilWhiteSpace].
    destruct (JS.startsWithWhiteSpace (String x (JS.trimEnd s))) eqn:Hw.
    + destruct (trimEnd_prefix s) as [r Hr].
      pose proof (startsWithWhiteSpace_app _ r Hw) as H.
      rewrite append_cons, <- Hr in H. congruence.
    + now rewrite IH.
Qed.

Lemma plainName_firstWord name :
  plainName name = true ->
  JS.splitSpaceHead name = firstWord name /\ firstWord name <> "".
Proof.
  unfold plainName, firstWord, JS.trim. intros Hplain.
  apply andb_prop in Hplain as [Hfirst Hall].
  destruct name as [|x name]; [discriminate|].
  apply negb_true_iff in Hfirst.
  rewrite (trimStart_visible _ Hfirst), (untilWhiteSpace_trimEnd _ Hall).
  split; [reflexivity|].
  cbn [JS.splitSpaceHead].
  destruct (Ascii.eqb_spec x " ") as [->|_]; [discriminate Hfirst | discriminate].
Qed.

Lemma trim_visible_first (x : ascii) s :
  JS.startsWithWhiteSpace (String x s) = false -> JS.trim (String x s) <> "".
Proof.
  intros Hx. unfold JS.trim. rewrite (trimStart_visible _ Hx).
  cbn [JS.trimEnd]. now rewrite (isBlank_visible x s Hx).
Qed.

(** *** The size pattern *)

Lemma matchSizeHere_unit s num unit :
  JS.matchSizeHere s = Some (num, unit) ->
  unit <> "" /\ allChars JS.isLetter unit = true.
Proof.
  unfold JS.matchSizeHere.
  destruct (JS.span JS.isDigit s) as [int r].
  destruct int as [|d int]; [discriminate|].
  destruct (match r with
            | String "." r' =>
                let '(frac, r'') := JS.span JS.isDigit r' in
                match frac with
                | "" => (String d int, r)
                | String _ _ => (String d int +:+ String "." frac, r'')
                end
            | _ => (String d int, r)
            end) as [num' r1].
  pose proof (span_fst_all JS.isLetter (JS.trimStart r1)) as Hletters.
  destruct (JS.span JS.isLetter (JS.trimStart r1)) as [letters r3].
  destruct letters; [discriminate|]. intros [= _ <-].
  split; [discriminate | exact Hletters].
Qed.

Lemma matchSize_unit s num unit :
  JS.matchSize s = Some (num, unit) ->
  unit <> "" /\ allChars JS.isLetter unit = true.
Proof.
  induction s as [|x s IH]; cbn [JS.matchSize].
  - destruct (JS.matchSizeHere "") as [[n u]|] eqn:Hhere; [|discriminate].
    intros [= <- <-]. exact (matchSizeHere_unit _ _ _ Hhere).
  - destruct (JS.matchSizeHere (String x s)) as [[n u]|] eqn:Hhere; [|exact IH].
    intros [= <- <-]. exact (matchSizeHere_unit _ _ _ Hhere).
Qed.

End StringFacts.

(** *** Reading numbers *)

Section ParseFacts.

Implicit Types (s t : string).

Lemma digitValue_digit (x : ascii) :
  JS.isDigit x = true -> (0 <= JS.digitValue x <= 9)%Z.
Proof. destruct x as [[] [] [] [] [] [] [] []]; vm_compute; intuition congruence. Qed.

Lemma digitsValueFrom_nonneg s : forall acc : Z,
  allChars JS.isDigit s = true -> (0 <= acc)%Z -> (0 <= JS.digitsValueFrom acc s)%Z.
Proof.
  induction s as [|x s IH]; intros acc Hs Hacc; [exact Hacc|].
  cbn [allChars] in Hs. apply andb_prop in Hs as [Hx Hs].
  cbn [JS.digitsValueFrom]. apply IH; [exact Hs|].
  pose proof (digitValue_digit x Hx). lia.
Qed.

Lemma digitsValue_nonneg s : allChars JS.isDigit s = true -> (0 <= JS.digitsValue s)%Z.
Proof. intros Hs. apply digitsValueFrom_nonneg; [exact Hs | lia]. Qed.

(** The value of a decimal literal is a number of the format. *)
Lemma ofDecimal_number (negative : bool) (digits e10 : Z) :
  (0 <= digits)%Z ->
  JS.isNaN (JS.ofDecimal negative digits e10) = false
  /\ inRange (JS.ofDecimal negative digits e10).
Proof.
  intros Hd. unfold JS.ofDecimal.
  destruct digits as [|d|d]; [now split| |lia].
  destruct (0 <=? e10)%Z eqn:He10.
  - split; [apply binary_normalize_number | apply binary_normalize_inRange].
  - apply Z.leb_gt in He10.
    assert (Hpow : (0 < 10 ^ (- e10))%Z) by (apply Z.pow_pos_nonneg; lia).
    pose proof (div_core_nonneg (Z.pos d) 0 (10 ^ (- e10)) 0 ltac:(lia) Hpow) as Hq.
    destruct (SFdiv_core_binary JS.prec JS.emax (Z.pos d) 0 (10 ^ (- e10)) 0)
      as [[q e] l]. cbn [fst] in Hq.
    pose proof (binary_round_aux_shape negative q e l Hq) as H.
    destruct (binary_round_aux JS.prec JS.emax negative q e l);
      try (split; [reflexivity | exact I]); [destruct H|].
    split; [reflexivity | apply H].
Qed.

Lemma isDigit_visible (x : ascii) s :
  JS.isDigit x = true -> JS.startsWithWhiteSpace (String x s) = false.
Proof.
  intros Hx. unfold JS.startsWithWhiteSpace.
  destruct s as [|x2 [|x3 s3]]; cbn [JS.afterWhiteSpace];
    destruct x as [[] [] [] [] [] [] [] []]; try discriminate Hx; reflexivity.
Qed.

Lemma minus_visible s : JS.startsWithWhiteSpace (String "-" s) = false.
Proof. now destruct s as [|x2 [|x3 s3]]. Qed.

Lemma signOf_digit (x : ascii) s :
  JS.isDigit x = true -> JS.signOf (String x s) = (false, String x s).
Proof.
  intros Hx. destruct x as [[] [] [] [] [] [] [] []];
    try discriminate Hx; reflexivity.
Qed.

Lemma startsWith_digit (x : ascii) s t :
  JS.isDigit x = true -> startsWith (String x s) (String "I" t) = false.
Proof.
  intros Hx. destruct x as [[] [] [] [] [] [] [] []];
    try discriminate Hx; reflexivity.
Qed.

Lemma span_digits t (x : ascii) s :
  allChars JS.isDigit t = true -> JS.isDigit x = false ->
  JS.span JS.isDigit (t +:+ String x s) = (t, String x s).
Proof.
  intros Ht Hx. induction t as [|d t IH].
  - rewrite append_empty_l. simpl. now rewrite Hx.
  - rewrite append_cons. simpl in *. apply andb_prop in Ht as [Hd Ht].
    now rewrite Hd, (IH Ht).
Qed.

Lemma parseFloat_digits (x : ascii) t :
  allChars JS.isDigit (String x t) = true ->
  JS.parseFloat (String x t) = JS.ofDecimal false (JS.digitsValue (String x t)) 0 /\
  JS.parseFloat (String "-" (String x t))
  = JS.ofDecimal true (JS.digitsValue (String x t)) 0.
Proof.
  intros Hdigits. pose proof Hdigits as Hall.
  cbn [allChars] in Hdigits. apply andb_prop in Hdigits as [Hx _].
  split.
  - unfold JS.parseFloat.
    rewrite (trimStart_visible _ (isDigit_visible x t Hx)), (signOf_digit x t Hx).
    cbv beta iota. rewrite (startsWith_digit x t _ Hx).
    now rewrite (span_all _ _ Hall).
  - unfold JS.parseFloat.
    rewrite (trimStart_visible _ (minus_visible (String x t))).
    change (JS.signOf (String "-" (String x t))) with (true, String x t).
    cbv beta iota. rewrite (startsWith_digit x t _ Hx).
    now rewrite (span_all _ _ Hall).
Qed.

Lemma parseFloat_fraction (x : ascii) t frac :
  allChars JS.isDigit (String x t) = true ->
  allChars JS.isDigit frac = true -> frac <> "" ->
  JS.parseFloat (String x t +:+ String "." frac)
  = JS.ofDecimal false (JS.digitsValue (String x t +:+ frac))
                 (0 - Z.of_nat (String.length frac)).
Proof.
  intros Hint Hfrac Hne. pose proof Hint as Hall.
  cbn [allChars] in Hint. apply andb_prop in Hint as [Hx _].
  unfold JS.parseFloat. rewrite append_cons.
  rewrite (trimStart_visible _ (isDigit_visible x _ Hx)), (signOf_digit x _ Hx).
  cbv beta iota. rewrite (startsWith_digit x _ _ Hx).
  rewrite <- append_cons, (span_digits _ "." frac Hall eq_refl).
  cbv beta iota. rewrite (span_all _ _ Hfrac).
  destruct frac; [congruence | reflexivity].
Qed.

(** A numeral is read as a number. *)
Lemma parseFloat_numeral s :
  numeral s ->
  JS.isNaN (JS.parseFloat s) = false /\ inRange (JS.parseFloat s).
Proof.
  intros (int & frac & Hne & Hint & Hfrac & [->|[Hf ->]]);
    destruct int as [|x t]; try congruence.
  - rewrite (proj1 (parseFloat_digits x t Hint)).
    apply ofDecimal_number, digitsValue_nonneg, Hint.
  - rewrite (parseFloat_fraction x t frac Hint Hfrac Hf).
    apply ofDecimal_number, digitsValue_nonneg.
    now rewrite allChars_app, Hint, Hfrac.
Qed.

Lemma matchSizeHere_numeral s num unit :
  JS.matchSizeHere s = Some (num, unit) -> numeral num.
Proof.
  unfold JS.matchSizeHere.
  pose proof (span_fst_all JS.isDigit s) as Hint.
  destruct (JS.span JS.isDigit s) as [int r]. cbn [fst] in Hint.
  destruct int as [|d int]; [discriminate|].
  assert (Hplain : numeral (String d int))
    by (exists (String d int), ""; repeat split; [discriminate | exact Hint | now left]).
  destruct r as [|x r'].
  { destruct (JS.span JS.isLetter (JS.trimStart "")) as [[|u unit'] r3];
      [discriminate | now intros [= <- _]]. }
  destruct (Ascii.eqb_spec x ".") as [->|Hx].
  - pose proof (span_fst_all JS.isDigit r') as Hfrac.
    destruct (JS.span JS.isDigit r') as [frac r'']. cbn [fst] in Hfrac.
    destruct frac as [|f frac].
    + destruct (JS.span JS.isLetter (JS.trimStart (String "." r'))) as [[|u unit'] r3];
        [discriminate | now intros [= <- _]].
    + destruct (JS.span JS.isLetter (JS.trimStart r'')) as [[|u unit'] r3];
        [discriminate|]. intros [= <- _].
      exists (String d int), (String f frac).
      repeat split; [discriminate | exact Hint | exact Hfrac|].
      right. split; [discriminate | reflexivity].
  - assert (Hnum : (match String x r' with
                    | String "." r'0 =>
                        let '(frac, r'') := JS.span JS.isDigit r'0 in
                        match frac with
                        | "" => (String d int, String x r')
                        | String _ _ => (String d int +:+ String "." frac, r'')
                        end
                    | _ => (String d int, String x r')
                    end) = (String d int, String x r')).
    { destruct x as [[] [] [] [] [] [] [] []]; try reflexivity. congruence. }
    rewrite Hnum.
    destruct (JS.span JS.isLetter (JS.trimStart (String x r'))) as [[|u unit'] r3];
      [discriminate | now intros [= <- _]].
Qed.

Lemma matchSize_numeral s num unit :
  JS.matchSize s = Some (num, unit) -> numeral num.
Proof.
  induction s as [|x s IH]; cbn [JS.matchSize].
  - destruct (JS.matchSizeHere "") as [[n u]|] eqn:Hhere; [|discriminate].
    intros [= <- <-]. exact (matchSizeHere_numeral _ _ _ Hhere).
  - destruct (JS.matchSizeHere (String x s)) as [[n u]|] eqn:Hhere; [|exact IH].
    intros [= <- <-]. exact (matchSizeHere_numeral _ _ _ Hhere).
Qed.

(** Whatever is read is of the format. *)
Lemma parseFloat_inRange s : inRange (JS.parseFloat s).
Proof.
  unfold JS.parseFloat.
  destruct (JS.signOf (JS.trimStart s)) as [negative s1].
  destruct (startsWith s1 "Infinity"); [exact I|].
  pose proof (span_fst_all JS.isDigit s1) as Hint.
  destruct (JS.span JS.isDigit s1) as [int r]. cbn [fst] in Hint.
  assert (Hplain : inRange match int with
                           | "" => JS.NaN
                           | String _ _ =>
                               JS.ofDecimal negative (JS.digitsValue int) (JS.exponentOf r)
                           end).
  { destruct int; [exact I|]. apply ofDecimal_number, digitsValue_nonneg, Hint. }
  destruct r as [|x r']; [exact Hplain|].
  destruct (Ascii.eqb_spec x ".") as [->|Hx].
  - pose proof (span_fst_all JS.isDigit r') as Hfrac.
    destruct (JS.span JS.isDigit r') as [frac r'']. cbn [fst] in Hfrac.
    assert (Hd : inRange (JS.ofDecimal negative (JS.digitsValue (int +:+ frac))
                            (JS.exponentOf r'' - Z.of_nat (String.length frac)))).
    { apply ofDecimal_number, digitsValue_nonneg.
      now rewrite allChars_app, Hint, Hfrac. }
    destruct int, frac; first [exact Hd | exact I].
  - destruct x as [[] [] [] [] [] [] [] []]; try exact Hplain. congruence.
Qed.

(** What is printed for an integer is read back as the number nearest to
    that integer. *)
Lemma ofDecimal_integer (n : Z) :
  (0 <= n)%Z ->
  JS.ofDecimal false n 0 = JS.ofZ n /\ (0 < n -> JS.ofDecimal true n 0 = JS.ofZ (- n))%Z.
Proof.
  intros Hn. unfold JS.ofDecimal, JS.ofZ.
  destruct n as [|p|p]; [split; [reflexivity | lia] | | lia].
  cbn [Z.leb Z.compare cond_Zopp]. rewrite Z.pow_0_r, Z.mul_1_r.
  split; reflexivity.
Qed.

End ParseFacts.

(** ** Cart store *)

Section StoreFacts.

Implicit Types (item x : CartItem) (prev pre post : list CartItem).

Lemma handleUpdateItem_app target updates pre post :
  handleUpdateItem target updates (pre ++ post)
  = handleUpdateItem target updates pre ++ handleUpdateItem target updates post.
Proof. unfold handleUpdateItem. apply map_app. Qed.

Lemma handleUpdateItem_others target updates prev :
  (forall x, In x prev -> id x <> target) ->
  handleUpdateItem target updates prev = prev.
Proof.
  intros Hne. unfold handleUpdateItem.
  induction prev as [|y prev IH]; simpl; [reflexivity|].
  destruct (String.eqb_spec (id y) target) as [Heq|_].
  - exfalso. apply (Hne y); [now left | exact Heq].
  - f_equal. apply IH. intros x Hx. apply Hne. now right.
Qed.

Lemma handleRemoveItem_app target pre post :
  handleRemoveItem target (pre ++ post)
  = handleRemoveItem target pre ++ handleRemoveItem target post.
Proof. unfold handleRemoveItem. apply List.filter_app. Qed.

Lemma handleRemoveItem_others target prev :
  (forall x, In x prev -> id x <> target) ->
  handleRemoveItem target prev = prev.
Proof.
  intros Hne. unfold handleRemoveItem.
  induction prev as [|y prev IH]; simpl; [reflexivity|].
  destruct (String.eqb_spec (id y) target) as [Heq|_]; simpl.
  - exfalso. apply (Hne y); [now left | exact Heq].
  - f_equal. apply IH. intros x Hx. apply Hne. now right.
Qed.

Lemma handleRemoveItem_absent target prev x :
  In x (handleRemoveItem target prev) -> id x <> target.
Proof.
  unfold handleRemoveItem. rewrite List.filter_In. intros [_ Hx].
  destruct (String.eqb_spec (id x) target); [discriminate | assumption].
Qed.

End StoreFacts.

(** C5. Decrementing the row of an entry whose identifier no other entry
    carries: at quantity 1 the entry disappears and the rest of the cart is
    untouched; at a quantity above 1 the entry stays in place with its
    quantity lowered by exactly 1 and every other field, and every other
    entry, unchanged.  Adding "Milk" at 4.5 by hand to the empty cart and
    decrementing that entry leaves the cart empty. *)
Theorem C5_decrement_removes_or_lowers {E : JS.Engine} :
  (forall (pre post : list CartItem) (item : CartItem),
      (forall x, In x (pre ++ post) -> id x <> id item) ->
      (quantity item = 1%Z ->
       handleDecrement item (pre ++ item :: post) = pre ++ post) /\
      ((1 < quantity item)%Z ->
       handleDecrement item (pre ++ item :: post)
       = pre ++ {| id := id item; productName := productName item;
                   price := price item; quantity := quantity item - 1;
                   category := category item;
                   measureValue := measureValue item;
                   measureUnit := measureUnit item |} :: post)) /\
  (forall newId : string,
      exists milk,
        handleAddManualItem newId "Milk" "4.5" "" [] = [milk] /\
        productName milk = "Milk" /\ (JS.toQ (price milk) == 4.5)%Q /\
        handleDecrement milk [milk] = []).
Proof.
  split.
  - intros pre post item Hothers.
    assert (Hpre : forall x, In x pre -> id x <> id item)
      by (intros x Hx; apply Hothers, in_or_app; now left).
    assert (Hpost : forall x, In x post -> id x <> id item)
      by (intros x Hx; apply Hothers, in_or_app; now right).
    split; intros Hq; unfold handleDecrement.
    + rewrite Hq. simpl.
      rewrite handleRemoveItem_app, (handleRemoveItem_others _ pre Hpre).
      f_equal. unfold handleRemoveItem. simpl. rewrite String.eqb_refl. simpl.
      apply (handleRemoveItem_others _ post Hpost).
    + apply Z.ltb_lt in Hq. rewrite Hq.
      rewrite handleUpdateItem_app, (handleUpdateItem_others _ _ pre Hpre).
      f_equal. unfold handleUpdateItem at 1. simpl. rewrite String.eqb_refl.
      f_equal. apply (handleUpdateItem_others _ _ post Hpost).
  - intros newId. eexists. split; [reflexivity|].
    split; [reflexivity|]. split; [vm_compute; reflexivity|].
    unfold handleDecrement, handleRemoveItem. simpl. now rewrite String.eqb_refl.
Qed.

Lemma C5_decrement_witness :
  handleDecrement (mkItem "b" "Leite" (Sample.num "4.5") 1 None None None)
    ([mkItem "a" "Arroz" (Sample.num "20") 2 None None None]
       ++ mkItem "b" "Leite" (Sample.num "4.5") 1 None None None
       :: [mkItem "c" "Feijao" (Sample.num "8") 1 None None None])
  = [mkItem "a" "Arroz" (Sample.num "20") 2 None None None]
      ++ [mkItem "c" "Feijao" (Sample.num "8") 1 None None None].
Proof.
  apply (proj1 (C5_decrement_removes_or_lowers (E := Sample.engine))
           [mkItem "a" "Arroz" (Sample.num "20") 2 None None None]
           [mkItem "c" "Feijao" (Sample.num "8") 1 None None None]
           (mkItem "b" "Leite" (Sample.num "4.5") 1 None None None)).
  - intros x [<-|[<-|[]]]; simpl; discriminate.
  - reflexivity.
Defined.

(** ** Quantities stay positive *)


Section QuantityInvariant.

Context {E : JS.Engine}.
Implicit Types (item x : CartItem) (prev : list CartItem).

Lemma handleUpdateItem_positive target updates prev :
  (forall x, In x prev -> positiveQuantity x ->
             positiveQuantity (applyUpdates x updates)) ->
  Forall positiveQuantity prev ->
  Forall positiveQuantity (handleUpdateItem target updates prev).
Proof.
  intros Hupd Hprev. unfold handleUpdateItem.
  induction Hprev as [|y prev Hy Hprev IH]; simpl; constructor.
  - destruct (String.eqb (id y) target); [|exact Hy].
    apply Hupd; [now left | exact Hy].
  - apply IH. intros x Hx. apply Hupd. now right.
Qed.

Lemma handleRemoveItem_positive target prev :
  Forall positiveQuantity prev ->
  Forall positiveQuantity (handleRemoveItem target prev).
Proof.
  unfold handleRemoveItem. rewrite !List.Forall_forall.
  intros Hprev x Hx. apply List.filter_In in Hx. now apply Hprev.
Qed.

Lemma handleIncrement_positive item prev :
  positiveQuantity item ->
  Forall positiveQuantity prev ->
  Forall positiveQuantity (handleIncrement item prev).
Proof.
  intros Hitem. apply handleUpdateItem_positive.
  intros x _ _. unfold positiveQuantity in *. simpl. lia.
Qed.

Lemma handleDecrement_positive item prev :
  Forall positiveQuantity prev ->
  Forall positiveQuantity (handleDecrement item prev).
Proof.
  unfold handleDecrement.
  destruct (Z.ltb_spec 1 (quantity item)) as [Hq|_].
  - apply handleUpdateItem_positive.
    intros x _ _. unfold positiveQuantity. simpl. lia.
  - apply handleRemoveItem_positive.
Qed.

Lemma handleNameBlur_positive item tempName prev :
  Forall positiveQuantity prev ->
  Forall positiveQuantity (handleNameBlur item tempName prev).
Proof.
  unfold handleNameBlur.
  destruct (String.eqb _ _); [trivial|].
  apply handleUpdateItem_positive. intros x _ Hx. exact Hx.
Qed.

Lemma manualItem_quantity newId manualName manualPrice manualSize m :
  manualItem newId manualName manualPrice manualSize = Some m ->
  quantity m = 1%Z.
Proof.
  unfold manualItem.
  destruct (_ || _); [discriminate|].
  destruct (JS.isNaN _); [discriminate|].
  destruct (if String.eqb _ _ then _ else _) as [mValue mUnit].
  intros [= <-]. reflexivity.
Qed.

Lemma handleAddManualItem_positive newId manualName manualPrice manualSize prev :
  Forall positiveQuantity prev ->
  Forall positiveQuantity
    (handleAddManualItem newId manualName manualPrice manualSize prev).
Proof.
  intros Hprev. unfold handleAddManualItem.
  destruct (manualItem _ _ _ _) as [m|] eqn:Hm; [|exact Hprev].
  constructor; [|exact Hprev].
  unfold positiveQuantity. rewrite (manualItem_quantity _ _ _ _ _ Hm). lia.
Qed.

End QuantityInvariant.

(** ** Effect of a handler's setter calls on the cart *)


Lemma prepended_app l1 l2 : prepended (l1 ++ l2) = prepended l2 ++ prepended l1.
Proof.
  induction l1 as [|a l1 IH]; simpl.
  - now rewrite app_nil_r.
  - destruct a; rewrite IH; try reflexivity. now rewrite app_assoc.
Qed.

Lemma applyActions_items st l :
  items (applyActions st l) = prepended l ++ items st.
Proof.
  unfold applyActions. revert st.
  induction l as [|a l IH]; intros st; simpl; [reflexivity|].
  rewrite IH. destruct a; simpl; try reflexivity. now rewrite app_assoc.
Qed.

Lemma applyActions_budget st l : budget (applyActions st l) = budget st.
Proof.
  unfold applyActions. revert st.
  induction l as [|a l IH]; intros st; simpl; [reflexivity|].
  rewrite IH. now destruct a.
Qed.

Section UploadFacts.

Context {E : JS.Engine} {File World : Type}.
Variable analyze : File -> World -> JS.Completion ScannedItem * World.
Variable uuidv4 : World -> string * World.

Local Abbreviation loop := (loop analyze uuidv4).
Local Abbreviation iteration := (iteration analyze uuidv4).

Lemma iteration_prepended total st i file :
  prepended (emitted (iteration total st i file)) = prepended (emitted st).
Proof.
  unfold iteration.
  destruct (analyze file (world st)) as [[result|e] w1].
  - destruct (uuidv4 w1) as [newId w2]. simpl.
    now rewrite prepended_app.
  - simpl. now rewrite prepended_app.
Qed.

Lemma loop_prepended total files : forall st i,
  prepended (emitted (loop total st i files)) = prepended (emitted st).
Proof.
  induction files as [|file rest IH]; intros st i; simpl; [reflexivity|].
  now rewrite IH, iteration_prepended.
Qed.

Lemma loop_newItems_Forall (P : CartItem -> Prop) total files :
  (forall newId result, P (newCartItem newId result)) ->
  forall st i, Forall P (newItems st) ->
               Forall P (newItems (loop total st i files)).
Proof.
  intros HP.
  induction files as [|file rest IH]; intros st i Hst; simpl; [exact Hst|].
  apply IH. unfold iteration.
  destruct (analyze file (world st)) as [[result|e] w1].
  - destruct (uuidv4 w1) as [newId w2]. simpl.
    apply Forall_app. split; [exact Hst|]. constructor; [apply HP | constructor].
  - exact Hst.
Qed.

(** The cart after a batch: the entries built by the loop, then the cart
    as it was. *)
Lemma handleFileChange_items files w st :
  items (applyActions st (fst (handleFileChange analyze uuidv4 files w)))
  = match files with
    | [] => items st
    | _ =>
        newItems
          (loop (length files)
             {| newItems := []; errorMsg := None;
                emitted := [SetStatus (mkStatus true None);
                            SetAnalyzingProgress (Some (0, length files)%nat)];
                world := w |} 0 files) ++ items st
    end.
Proof.
  rewrite applyActions_items. destruct files as [|file rest]; [reflexivity|].
  unfold handleFileChange. cbn [fst]. rewrite prepended_app, loop_prepended.
  simpl. now rewrite app_nil_r.
Qed.

Lemma handleFileChange_positive files w st :
  Forall positiveQuantity (items st) ->
  Forall positiveQuantity
    (items (applyActions st (fst (handleFileChange analyze uuidv4 files w)))).
Proof.
  intros Hst. rewrite handleFileChange_items.
  destruct files as [|file rest]; [exact Hst|].
  apply Forall_app. split; [|exact Hst].
  apply loop_newItems_Forall; [|constructor].
  intros newId result. unfold positiveQuantity. simpl. lia.
Qed.

Lemma step_positive (st : AppState) (w : World) (e : Event File) :
  writesQuantity e = false ->
  Forall positiveQuantity (items st) ->
  Forall positiveQuantity (items (fst (step analyze uuidv4 (st, w) e))).
Proof.
  intros He Hst. destruct e; simpl.
  - destruct (uuidv4 w) as [newId w']. simpl.
    now apply handleAddManualItem_positive.
  - pose proof (handleFileChange_positive files w st Hst) as H.
    destruct (handleFileChange analyze uuidv4 files w) as [actions w'].
    exact H.
  - unfold onRow. destruct (nth_error (items st) row) as [item|] eqn:Hrow;
      [|exact Hst].
    simpl. apply handleIncrement_positive; [|exact Hst].
    apply nth_error_In in Hrow.
    rewrite List.Forall_forall in Hst. now apply Hst.
  - unfold onRow. destruct (nth_error (items st) row) as [item|]; [|exact Hst].
    simpl. now apply handleDecrement_positive.
  - unfold onRow. destruct (nth_error (items st) row) as [item|]; [|exact Hst].
    simpl. now apply handleNameBlur_positive.
  - apply handleUpdateItem_positive; [|exact Hst].
    intros x _ Hx. unfold writesQuantity in He.
    apply bool_decide_eq_false in He.
    destruct (u_quantity updates) as [q|] eqn:Hq.
    + exfalso. apply He. now exists q.
    + unfold positiveQuantity in *. simpl. now rewrite Hq.
  - now apply handleRemoveItem_positive.
  - constructor.
  - exact Hst.
  - exact Hst.
Qed.

Lemma run_positive (events : list (Event File)) :
  forallb (fun e => negb (writesQuantity e)) events = true ->
  forall (st : AppState) (w : World),
    Forall positiveQuantity (items st) ->
    Forall positiveQuantity (items (fst (run analyze uuidv4 events (st, w)))).
Proof.
  unfold run.
  induction events as [|e events IH]; intros Hev st w Hst; [exact Hst|].
  cbn [fold_left]. simpl in Hev. apply andb_prop in Hev as [He Hev].
  apply negb_true_iff in He.
  pose proof (step_positive st w e He Hst) as Hstep.
  destruct (step analyze uuidv4 (st, w) e) as [st' w'].
  now apply IH.
Qed.

End UploadFacts.

(** C6. Starting from the empty cart, whatever sequence of manual additions,
    file batches, increments, decrements, renames, removals and clearings is
    performed (any event that does not write a quantity directly), every
    entry of the cart reached has quantity at least 1. *)
Theorem C6_quantity_at_least_one {E : JS.Engine} {File World : Type}
    (analyze : File -> World -> JS.Completion ScannedItem * World)
    (uuidv4 : World -> string * World)
    (events : list (Event File)) (w : World) :
  forallb (fun e => negb (writesQuantity e)) events = true ->
  Forall positiveQuantity
    (items (fst (run analyze uuidv4 events (initialState, w)))).
Proof.
  intros Hev. apply run_positive; [exact Hev | constructor].
Qed.

Lemma C6_quantity_witness :
  Forall positiveQuantity
    (items (fst (run (E := Sample.engine) Sample.analyze Sample.uuidv4
                   Sample.session (initialState, 0%nat)))).
Proof.
  apply (C6_quantity_at_least_one (E := Sample.engine) Sample.analyze Sample.uuidv4
           Sample.session 0%nat).
  reflexivity.
Defined.


(** ** Totals *)

Section Totals.

Implicit Types (items : list CartItem) (b : JS.number).

Lemma fold_left_totalCost items : forall acc : JS.number,
  fold_left (fun sum item => JS.add sum (JS.mul (price item) (JS.ofZ (quantity item))))
            items acc
  = fold_left JS.add (map lineTotal items) acc.
Proof.
  induction items as [|item items IH]; intros acc; simpl; [reflexivity|].
  now rewrite IH.
Qed.

Lemma totalCost_sum items : totalCost items = sumNumbers (map lineTotal items).
Proof. unfold totalCost, sumNumbers. apply fold_left_totalCost. Qed.

Lemma fold_left_itemCount items : forall acc : Z,
  fold_left (fun sum item => (sum + quantity item)%Z) items acc
  = (acc + sumZ (map quantity items))%Z.
Proof.
  induction items as [|item items IH]; intros acc; simpl.
  - lia.
  - rewrite IH. lia.
Qed.

Lemma itemCount_sum items : itemCount items = sumZ (map quantity items).
Proof. unfold itemCount. now rewrite fold_left_itemCount. Qed.

Lemma truthy_spec b : JS.truthy b = true <-> JS.isNaN b = false /\ JS.isZero b = false.
Proof. unfold JS.truthy. rewrite negb_true_iff, orb_false_iff. tauto. Qed.

Lemma isOverBudget_spec (budget : option JS.number) items :
  isOverBudget budget items = true
  <-> exists b, budget = Some b /\ JS.ltb b (totalCost items) = true.
Proof.
  unfold isOverBudget. destruct budget as [b|].
  - split; [intros H; now exists b | now intros (b' & [= <-] & H)].
  - split; [discriminate | now intros (b & [=] & _)].
Qed.

Lemma withId_handleRemoveItem target prev :
  withId target (handleRemoveItem target prev) = [].
Proof.
  unfold withId, handleRemoveItem.
  induction prev as [|x prev IH]; simpl; [reflexivity|].
  destruct (String.eqb (id x) target) eqn:Hx; simpl; [exact IH|].
  now rewrite Hx.
Qed.

(** The budget field stores what [parseFloat] read only if it is a number. *)
Lemma handleSetBudget_number tempBudget (budget : option JS.number) b :
  (forall b0, budget = Some b0 -> JS.isNaN b0 = false) ->
  handleSetBudget tempBudget budget = Some b -> JS.isNaN b = false.
Proof.
  intros Hold. unfold handleSetBudget.
  destruct (String.eqb tempBudget ""); [discriminate|].
  destruct (JS.isNaN (JS.parseFloat (JS.replaceFirstComma tempBudget))) eqn:Hnan.
  - apply Hold.
  - now intros [= <-].
Qed.

End Totals.

Section BudgetInvariant.

Context {E : JS.Engine} {File World : Type}.
Variable analyze : File -> World -> JS.Completion ScannedItem * World.
Variable uuidv4 : World -> string * World.

Lemma step_budget (st : AppState) (w : World) (e : Event File) :
  budget (fst (step analyze uuidv4 (st, w) e))
  = match e with
    | SetBudget tempBudget => handleSetBudget tempBudget (budget st)
    | RemoveBudget => None
    | _ => budget st
    end.
Proof.
  destruct e; simpl; try reflexivity.
  - now destruct (uuidv4 w).
  - pose proof (applyActions_budget st (fst (handleFileChange analyze uuidv4 files w))) as H.
    now destruct (handleFileChange analyze uuidv4 files w).
  - unfold onRow. now destruct (nth_error (items st) row).
  - unfold onRow. now destruct (nth_error (items st) row).
  - unfold onRow. now destruct (nth_error (items st) row).
Qed.

(** No sequence of events stores a budget that is not a number. *)
Lemma run_budget_number (events : list (Event File)) :
  forall (st : AppState) (w : World),
    (forall b, budget st = Some b -> JS.isNaN b = false) ->
    forall b, budget (fst (run analyze uuidv4 events (st, w))) = Some b ->
              JS.isNaN b = false.
Proof.
  unfold run.
  induction events as [|e events IH]; intros st w Hst; [exact Hst|].
  cbn [fold_left].
  pose proof (step_budget st w e) as Hstep.
  destruct (step analyze uuidv4 (st, w) e) as [st' w']. cbn [fst] in Hstep.
  apply IH. intros b Hb. rewrite Hstep in Hb.
  destruct e; try (now apply Hst).
  exact (handleSetBudget_number _ _ _ Hst Hb).
Qed.

Lemma run_app (events1 events2 : list (Event File)) (sw : AppState * World) :
  run analyze uuidv4 (events1 ++ events2) sw
  = run analyze uuidv4 events2 (run analyze uuidv4 events1 sw).
Proof. unfold run. apply fold_left_app. Qed.

Lemma run_Remove (events : list (Event File)) (target : string) (sw : AppState * World) :
  items (fst (run analyze uuidv4 (events ++ [Remove target]) sw))
  = handleRemoveItem target (items (fst (run analyze uuidv4 events sw))).
Proof.
  rewrite run_app. unfold run at 1. cbn [fold_left].
  now destruct (run analyze uuidv4 events sw).
Qed.

Lemma run_ManualAdd (events : list (Event File)) (manualName manualPrice manualSize : string)
    (sw : AppState * World) :
  items (fst (run analyze uuidv4
                (events ++ [ManualAdd manualName manualPrice manualSize]) sw))
  = handleAddManualItem
      (fst (uuidv4 (snd (run analyze uuidv4 events sw))))
      manualName manualPrice manualSize
      (items (fst (run analyze uuidv4 events sw))).
Proof.
  rewrite run_app. unfold run at 1. cbn [fold_left].
  destruct (run analyze uuidv4 events sw) as [st w']. cbn [step fst snd].
  now destruct (uuidv4 w').
Qed.

End BudgetInvariant.

(** C4 (as amended). After every sequence of events the total cost is the
    sum, taken in binary64 in the order of the cart, of the products
    price x quantity of the entries now in the cart, and the item count is
    the sum of their quantities; the over-budget flag is set exactly when a
    budget is stored and the total exceeds it; a stored budget is a number,
    and when it is not zero the usage is total / budget x 100 capped at 100
    and the remaining budget is budget - total; with no budget the usage is
    0.  An entry added by hand comes first in the cart and in the sum, and
    adds 1 to the item count; a removal leaves no entry of the removed
    identifier, and the total it leaves is the sum over the entries that are
    kept. *)
Theorem C4_totals_after_operations {E : JS.Engine} {File World : Type}
    (analyze : File -> World -> JS.Completion ScannedItem * World)
    (uuidv4 : World -> string * World)
    (events : list (Event File)) (w : World) :
  let st := fst (run analyze uuidv4 events (initialState, w)) in
  let total := totalCost (items st) in
  total = sumNumbers (map lineTotal (items st)) /\
  itemCount (items st) = sumZ (map quantity (items st)) /\
  (isOverBudget (budget st) (items st) = true
   <-> exists b, budget st = Some b /\ JS.ltb b total = true) /\
  (forall b, budget st = Some b ->
     JS.isNaN b = false /\
     (JS.isZero b = false ->
      budgetPercentage (budget st) (items st)
      = JS.min (JS.mul (JS.div total b) (JS.ofZ 100)) (JS.ofZ 100) /\
      remainingBudget (budget st) (items st) = JS.sub b total)) /\
  (budget st = None -> budgetPercentage (budget st) (items st) = JS.ofZ 0) /\
  (forall (manualName manualPrice manualSize : string) (m : CartItem),
     let sw := run analyze uuidv4 events (initialState, w) in
     let st' := fst (run analyze uuidv4
                       (events ++ [ManualAdd manualName manualPrice manualSize])
                       (initialState, w)) in
     manualItem (fst (uuidv4 (snd sw))) manualName manualPrice manualSize = Some m ->
     items st' = m :: items st /\
     totalCost (items st') = sumNumbers (lineTotal m :: map lineTotal (items st)) /\
     itemCount (items st') = (1 + itemCount (items st))%Z) /\
  (forall target : string,
     let st' := fst (run analyze uuidv4 (events ++ [Remove target])
                       (initialState, w)) in
     withId target (items st') = [] /\
     totalCost (items st')
     = sumNumbers
         (map lineTotal
            (List.filter (fun item => negb (String.eqb (id item) target))
                         (items st)))).
Proof.
  intros st total. subst total.
  split; [apply totalCost_sum|].
  split; [apply itemCount_sum|].
  split; [apply isOverBudget_spec|].
  split; [|split; [|split]].
  - intros b Hb.
    assert (Hnan : JS.isNaN b = false).
    { apply (run_budget_number analyze uuidv4 events initialState w);
        [discriminate | exact Hb]. }
    split; [exact Hnan|]. intros Hzero.
    unfold budgetPercentage, remainingBudget. rewrite Hb.
    rewrite (proj2 (truthy_spec b) (conj Hnan Hzero)). split; reflexivity.
  - intros Hb. unfold budgetPercentage. now rewrite Hb.
  - intros manualName manualPrice manualSize m sw st' Hm. subst st' sw.
    rewrite run_ManualAdd. unfold handleAddManualItem. rewrite Hm.
    split; [reflexivity|]. split; [apply totalCost_sum|].
    rewrite !itemCount_sum. cbn [map sumZ fold_right].
    now rewrite (manualItem_quantity _ _ _ _ _ Hm).
  - intros target st'. subst st'. rewrite run_Remove.
    split; [apply withId_handleRemoveItem | apply totalCost_sum].
Qed.

(** The example of the specification: budget 50, one entry of 60. *)
Lemma C4_budget_example_witness :
  let st := fst (run (E := Sample.engine) Sample.analyze Sample.uuidv4
                   Sample.budgetSession (initialState, 0%nat)) in
  totalCost (items st) = JS.ofZ 60 /\
  isOverBudget (budget st) (items st) = true /\
  budgetPercentage (budget st) (items st) = JS.ofZ 100 /\
  remainingBudget (budget st) (items st) = JS.ofZ (-10).
Proof.
  destruct (C4_totals_after_operations (E := Sample.engine)
              Sample.analyze Sample.uuidv4
              Sample.budgetSession 0%nat) as (Htotal & _ & Hover & Hset & _).
  cbv zeta in *.
  set (st := fst (run Sample.analyze Sample.uuidv4 Sample.budgetSession
                    (initialState, 0%nat))) in *.
  assert (H60 : totalCost (items st) = JS.ofZ 60)
    by (rewrite Htotal; vm_compute; reflexivity).
  split; [exact H60|].
  split.
  - apply Hover. exists (JS.ofZ 50). split; [vm_compute; reflexivity|].
    rewrite H60. vm_compute. reflexivity.
  - assert (Hb : budget st = Some (JS.ofZ 50)) by (vm_compute; reflexivity).
    destruct (Hset (JS.ofZ 50) Hb) as [_ Hnz].
    destruct (Hnz eq_refl) as [Hpct Hrem].
    split.
    + rewrite Hpct, H60. vm_compute. reflexivity.
    + rewrite Hrem, H60. vm_compute. reflexivity.
Defined.

(** C4 as stated fails for a budget of zero, which [handleSetBudget] stores:
    the flag reports over budget, yet the remaining budget is 0 instead of
    budget - total, and the usage is 0. *)
Lemma C4_zero_budget_counterexample :
  let st := fst (run (E := Sample.engine) Sample.analyze Sample.uuidv4
                   [ManualAdd "Carne" "60" ""; SetBudget "0"]
                   (initialState, 0%nat)) in
  exists b,
    budget st = Some b /\
    totalCost (items st) = JS.ofZ 60 /\
    isOverBudget (budget st) (items st) = true /\
    remainingBudget (budget st) (items st) <> JS.sub b (totalCost (items st)) /\
    remainingBudget (budget st) (items st) = JS.ofZ 0 /\
    JS.sub b (totalCost (items st)) = JS.ofZ (-60) /\
    budgetPercentage (budget st) (items st) = JS.ofZ 0.
Proof.
  eexists. split; [vm_compute; reflexivity|].
  split; [vm_compute; reflexivity|].
  split; [vm_compute; reflexivity|].
  split; [vm_compute; discriminate|].
  repeat split; vm_compute; reflexivity.
Qed.

(** The sums are those of binary64.  Three units at 1.10 come to
    3.3000000000000003, which exceeds a budget typed as 3.30 by the last
    place; the total of 0.1, 0.2 and 0.3 depends on the order of the
    entries, and in cart order it is not the exact sum of the stored
    prices. *)
Lemma totals_are_rounded :
  (let st := fst (run (E := Sample.engine) Sample.analyze Sample.uuidv4
                    Sample.centsSession (initialState, 0%nat)) in
   totalCost (items st) = Sample.num "3.3000000000000003" /\
   budget st = Some (Sample.num "3.30") /\
   isOverBudget (budget st) (items st) = true /\
   remainingBudget (budget st) (items st) = Sample.num "-4.440892098500626e-16") /\
  (let a := mkItem "a" "A" (Sample.num "0.1") 1 None None None in
   let b := mkItem "b" "B" (Sample.num "0.2") 1 None None None in
   let c := mkItem "c" "C" (Sample.num "0.3") 1 None None None in
   totalCost [a; b; c] = Sample.num "0.6000000000000001" /\
   totalCost [c; b; a] = Sample.num "0.6" /\
   ~ (JS.toQ (totalCost [a; b; c]) == exactTotal [a; b; c])%Q).
Proof.
  split.
  - repeat split; vm_compute; reflexivity.
  - split; [vm_compute; reflexivity|]. split; [vm_compute; reflexivity|].
    vm_compute. discriminate.
Qed.

(** ** The sort *)

Section SortFacts.

Context {A : Type}.
Variable key : A -> JS.number.

Local Abbreviation cmp := (fun a b : A => JS.sub (key a) (key b)).
Local Abbreviation byKey := (fun a b : A => JS.leb (key a) (key b) = true).
Local Abbreviation keyed := (fun a : A => JS.isNaN (key a) = false /\ inRange (key a)).
Local Abbreviation keyClass := (fun (q : JS.number) (a : A) => JS.eqb (key a) q).

Lemma cmp_positive a b :
  keyed a -> keyed b -> JS.ltb (JS.ofZ 0) (cmp a b) = JS.ltb (key b) (key a).
Proof. intros [Ha Ra] [Hb Rb]. now apply ltb_sub. Qed.

Lemma insertSorted_perm x l : Permutation (JS.insertSorted cmp x l) (x :: l).
Proof.
  induction l as [|y l IH]; cbn [JS.insertSorted]; [reflexivity|].
  destruct (JS.ltb (JS.ofZ 0) (JS.sub (key x) (key y))); [|reflexivity].
  rewrite IH. apply perm_swap.
Qed.

Lemma sort_perm l : Permutation (JS.sort cmp l) l.
Proof.
  induction l as [|x l IH]; cbn [JS.sort fold_right]; [reflexivity|].
  rewrite insertSorted_perm. now constructor.
Qed.

Lemma insertSorted_sorted x l :
  keyed x -> Forall keyed l ->
  StronglySorted byKey l -> StronglySorted byKey (JS.insertSorted cmp x l).
Proof.
  intros Hx Hl Hs. induction Hs as [|y l Hs IH Hy]; cbn [JS.insertSorted].
  - repeat constructor.
  - apply Forall_cons_iff in Hl as [Hky Hl].
    rewrite (cmp_positive x y Hx Hky).
    destruct (JS.ltb (key y) (key x)) eqn:E.
    + constructor; [exact (IH Hl)|].
      apply (Permutation_Forall (Permutation_sym (insertSorted_perm x l))).
      constructor; [now apply ltb_leb | exact Hy].
    + assert (Hxy : JS.leb (key x) (key y) = true)
        by (apply ltb_false_leb; [apply Hx | apply Hky | exact E]).
      constructor; [now constructor|].
      constructor; [exact Hxy|].
      eapply List.Forall_impl; [|exact Hy].
      intros z Hz. exact (leb_trans _ _ _ Hxy Hz).
Qed.

Lemma sort_keyed l : Forall keyed l -> Forall keyed (JS.sort cmp l).
Proof. apply Permutation_Forall. symmetry. apply sort_perm. Qed.

Lemma sort_sorted l : Forall keyed l -> StronglySorted byKey (JS.sort cmp l).
Proof.
  induction l as [|x l IH]; cbn [JS.sort fold_right]; [constructor|].
  intros Hl. apply Forall_cons_iff in Hl as [Hx Hl].
  apply insertSorted_sorted; [exact Hx | now apply sort_keyed | now apply IH].
Qed.

(** An element moves only past elements of a strictly smaller key, so the
    elements of one key keep their order. *)
Lemma insertSorted_keyClass q x l :
  keyed x -> Forall keyed l ->
  List.filter (keyClass q) (JS.insertSorted cmp x l)
  = List.filter (keyClass q) (x :: l).
Proof.
  intros Hx Hl. induction l as [|y l IH]; [reflexivity|].
  apply Forall_cons_iff in Hl as [Hy Hl]. specialize (IH Hl).
  cbn [JS.insertSorted]. rewrite (cmp_positive x y Hx Hy).
  destruct (JS.ltb (key y) (key x)) eqn:E; [|reflexivity].
  cbn [List.filter] in *. rewrite IH.
  destruct (JS.eqb (key x) q) eqn:Ex; [|reflexivity].
  destruct (JS.eqb (key y) q) eqn:Ey; [|reflexivity].
  rewrite (eqb_ltb _ _ _ Ex Ey) in E. discriminate.
Qed.

Lemma sort_keyClass q l :
  Forall keyed l ->
  List.filter (keyClass q) (JS.sort cmp l) = List.filter (keyClass q) l.
Proof.
  induction l as [|x l IH]; [reflexivity|].
  intros Hl. apply Forall_cons_iff in Hl as [Hx Hl].
  cbn [JS.sort fold_right].
  rewrite insertSorted_keyClass; [|exact Hx | now apply sort_keyed].
  cbn [List.filter]. fold (JS.sort cmp l). now rewrite (IH Hl).
Qed.

(** The result does not depend on the sorting algorithm: a sorted list whose
    elements of each key are those of [l], in the order of [l], is the
    result of the sort. *)
Lemma keyClass_head q x l :
  JS.eqb (key x) q = true ->
  List.filter (keyClass q) (x :: l) = x :: List.filter (keyClass q) l.
Proof. intros H. cbn [List.filter]. now rewrite H. Qed.

Lemma keyClass_In q x l : In x (List.filter (keyClass q) l) -> In x l.
Proof. intros H. now apply List.filter_In in H. Qed.

Lemma sorted_stable_unique l1 : forall l2,
  Forall keyed l1 -> Forall keyed l2 ->
  StronglySorted byKey l1 -> StronglySorted byKey l2 ->
  (forall q, List.filter (keyClass q) l1 = List.filter (keyClass q) l2) ->
  l1 = l2.
Proof.
  induction l1 as [|x r1 IH]; intros l2 Hk1 Hk2 Hs1 Hs2 Hclass.
  - destruct l2 as [|y r2]; [reflexivity|].
    apply Forall_cons_iff in Hk2 as [[Hy _] _].
    specialize (Hclass (key y)).
    rewrite (keyClass_head _ y r2 (eqb_refl _ Hy)) in Hclass. discriminate.
  - apply Forall_cons_iff in Hk1 as [[Hx Rx] Hk1].
    destruct l2 as [|y r2].
    { specialize (Hclass (key x)).
      rewrite (keyClass_head _ x r1 (eqb_refl _ Hx)) in Hclass. discriminate. }
    apply Forall_cons_iff in Hk2 as [[Hy Ry] Hk2].
    apply StronglySorted_inv in Hs1 as [Hr1 Hlx].
    apply StronglySorted_inv in Hs2 as [Hr2 Hly].
    rewrite List.Forall_forall in Hlx, Hly.
    assert (Hxy : JS.leb (key x) (key y) = true).
    { pose proof (Hclass (key y)) as H.
      rewrite (keyClass_head _ y r2 (eqb_refl _ Hy)) in H.
      assert (Hin : In y (x :: r1))
        by (apply (keyClass_In (key y)); rewrite H; now left).
      destruct Hin as [->|Hin]; [now apply leb_refl | now apply Hlx]. }
    assert (Hyx : JS.leb (key y) (key x) = true).
    { pose proof (Hclass (key x)) as H.
      rewrite (keyClass_head _ x r1 (eqb_refl _ Hx)) in H.
      assert (Hin : In x (y :: r2))
        by (apply (keyClass_In (key x)); rewrite <- H; now left).
      destruct Hin as [->|Hin]; [now apply leb_refl | now apply Hly]. }
    assert (Heq : JS.eqb (key y) (key x) = true) by now apply leb_antisym.
    assert (Hhead : x = y).
    { pose proof (Hclass (key x)) as H.
      rewrite (keyClass_head _ x r1 (eqb_refl _ Hx)) in H.
      rewrite (keyClass_head _ y r2 Heq) in H.
      now injection H. }
    subst y. f_equal. apply IH; [assumption..|].
    intros q. specialize (Hclass q). cbn [List.filter] in Hclass.
    destruct (JS.eqb (key x) q); [now injection Hclass | exact Hclass].
Qed.

Lemma sort_characterised l l' :
  Forall keyed l -> Permutation l' l ->
  StronglySorted byKey l' ->
  (forall q, List.filter (keyClass q) l' = List.filter (keyClass q) l) ->
  l' = JS.sort cmp l.
Proof.
  intros Hl Hperm Hsorted Hclass. apply sorted_stable_unique.
  - exact (Permutation_Forall (Permutation_sym Hperm) Hl).
  - now apply sort_keyed.
  - exact Hsorted.
  - now apply sort_sorted.
  - intros q. now rewrite sort_keyClass.
Qed.

End SortFacts.

(** ** Case *)

Section EngineFacts.

Lemma lowerChar_keyChar (c : ascii) :
  negb (JS.isCapital c) = true ->
  keyChar (if Ascii.eqb c "_" then " "%char else c) = true.
Proof. destruct c as [[] [] [] [] [] [] [] []]; vm_compute; congruence. Qed.

Lemma replaceUnderscores_keyChars (s : string) :
  allChars (fun c => negb (JS.isCapital c)) s = true ->
  allChars keyChar (JS.replaceUnderscores s) = true.
Proof.
  unfold JS.replaceUnderscores.
  induction s as [|c s IH]; [reflexivity|].
  cbn [allChars JS.mapChars]. intros H. apply andb_prop in H as [Hc Hs].
  now rewrite (lowerChar_keyChar c Hc), (IH Hs).
Qed.

Lemma lower_other (c1 : ascii) (s1 : string) :
  (nat_of_ascii c1 =? 195)%nat = false ->
  Sample.lower (String c1 s1) = String (JS.lowerChar c1) (Sample.lower s1).
Proof. intros Hc. cbn [Sample.lower]. rewrite Hc. now destruct s1. Qed.

Lemma isAscii_not_lead (c : ascii) :
  JS.isAscii c = true -> (nat_of_ascii c =? 195)%nat = false.
Proof. destruct c as [[] [] [] [] [] [] [] []]; vm_compute; congruence. Qed.

Lemma lowerChar_not_capital (c : ascii) : negb (JS.isCapital (JS.lowerChar c)) = true.
Proof. destruct c as [[] [] [] [] [] [] [] []]; reflexivity. Qed.

Lemma lead_not_capital (c : ascii) :
  (nat_of_ascii c =? 195)%nat = true -> negb (JS.isCapital c) = true.
Proof. destruct c as [[] [] [] [] [] [] [] []]; vm_compute; congruence. Qed.

Lemma lowerLatin1_not_capital (c : ascii) :
  Sample.isContinuation c = true ->
  negb (JS.isCapital (Sample.lowerLatin1 c)) = true.
Proof. destruct c as [[] [] [] [] [] [] [] []]; vm_compute; congruence. Qed.

Lemma lower_no_capital_aux (s : string) :
  allChars (fun c => negb (JS.isCapital c)) (Sample.lower s) = true
  /\ forall c, allChars (fun c => negb (JS.isCapital c)) (Sample.lower (String c s)) = true.
Proof.
  induction s as [|d s [IH1 IH2]].
  - split; [reflexivity|]. intros c. cbn [Sample.lower allChars].
    now rewrite lowerChar_not_capital.
  - split; [apply IH2|]. intros c. cbn [Sample.lower].
    destruct ((nat_of_ascii c =? 195)%nat && Sample.isContinuation d) eqn:Hc.
    + apply andb_prop in Hc as [Hlead Hcont]. cbn [allChars].
      now rewrite (lead_not_capital c Hlead), (lowerLatin1_not_capital d Hcont), IH1.
    + change (allChars (fun c0 => negb (JS.isCapital c0))
                (String (JS.lowerChar c) (Sample.lower (String d s))) = true).
      cbn [allChars]. now rewrite lowerChar_not_capital, IH2.
Qed.

(** The sample engine is an engine. *)
Lemma engine_laws : JS.EngineLaws Sample.engine.
Proof.
  split.
  - intros s. cbn [JS.toLowerCase Sample.engine]. unfold JS.asciiLower.
    induction s as [|c s IH]; [reflexivity|].
    cbn [allChars]. intros H. apply andb_prop in H as [Hc Hs].
    rewrite (lower_other c s (isAscii_not_lead c Hc)).
    cbn [JS.mapChars]. now rewrite (IH Hs).
  - intros s. apply lower_no_capital_aux.
Qed.

End EngineFacts.

(** ** Grouping *)

Section GroupingFacts.

Context {E : JS.Engine}.
Implicit Types (item : CartItem) (items : list CartItem) (g G : Groups) (k : string).

Lemma extend_app slot new1 new2 :
  extend (extend slot new1) new2 = extend slot (new1 ++ new2).
Proof.
  destruct slot as [arr|]; simpl.
  - now rewrite app_assoc.
  - destruct new1; simpl; [now destruct new2 | reflexivity].
Qed.

(** The key, spelled out. *)
Lemma groupKey_spelled item :
  groupKey item
  = match category item with
    | Some (String c s) => JS.replaceUnderscores (JS.toLowerCase (String c s))
    | _ => "outros"
    end.
Proof. unfold groupKey. now destruct (category item) as [[|c s]|]. Qed.

Lemma members_cons k item items :
  members k (item :: items) = members k [item] ++ members k items.
Proof.
  unfold members. simpl.
  now destruct (hasMeasure item && String.eqb (groupKey item) k).
Qed.

Lemma members_In k item items :
  In item (members k items)
  <-> In item items /\ hasMeasure item = true /\ groupKey item = k.
Proof.
  unfold members. rewrite List.filter_In, andb_true_iff, String.eqb_eq.
  tauto.
Qed.

Lemma pushItem_lookup g item G :
  pushItem g item = JS.Normal G ->
  forall k, G !! k = extend (g !! k) (members k [item]).
Proof.
  unfold pushItem, members. simpl.
  destruct (hasMeasure item) eqn:Hm; simpl.
  - destruct (g !! groupKey item) as [arr|] eqn:Hslot.
    + intros [= <-] k. destruct (String.eqb_spec (groupKey item) k) as [<-|Hne].
      * now rewrite lookup_insert_eq, Hslot.
      * rewrite lookup_insert_ne by exact Hne.
        destruct (g !! k); simpl; [now rewrite app_nil_r | reflexivity].
    + destruct (JS.inherited (groupKey item)); [discriminate|].
      intros [= <-] k. destruct (String.eqb_spec (groupKey item) k) as [<-|Hne].
      * now rewrite lookup_insert_eq, Hslot.
      * rewrite lookup_insert_ne by exact Hne.
        destruct (g !! k); simpl; [now rewrite app_nil_r | reflexivity].
  - intros [= <-] k.
    destruct (g !! k); simpl; [now rewrite app_nil_r | reflexivity].
Qed.

Lemma forEach_pushItem_lookup items : forall g G,
  JS.forEach pushItem items g = JS.Normal G ->
  forall k, G !! k = extend (g !! k) (members k items).
Proof.
  induction items as [|item items IH]; intros g G; simpl.
  - intros [= <-] k. destruct (g !! k); simpl; [now rewrite app_nil_r | reflexivity].
  - destruct (pushItem g item) as [g'|e] eqn:Hpush; simpl; [|discriminate].
    intros Hrest k.
    rewrite (IH _ _ Hrest k), (pushItem_lookup _ _ _ Hpush k), extend_app.
    now rewrite <- members_cons.
Qed.

Lemma forEach_pushItem_returns items :
  (forall item, In item items -> hasMeasure item = true ->
                JS.inherited (groupKey item) = false) ->
  forall g, exists G, JS.forEach pushItem items g = JS.Normal G.
Proof.
  induction items as [|item items IH]; intros Hkeys g; simpl.
  - now exists g.
  - assert (exists g', pushItem g item = JS.Normal g') as [g' Hpush].
    { unfold pushItem. destruct (hasMeasure item) eqn:Hm; [|now eexists].
      destruct (g !! groupKey item); [now eexists|].
      rewrite (Hkeys item); [now eexists | now left | exact Hm]. }
    rewrite Hpush. simpl. apply IH.
    intros x Hx. apply Hkeys. now right.
Qed.

(** The groups, when the grouping completes: under each key, the measured
    entries of that key, sorted; no empty group. *)
Lemma comparisonGroups_lookup items G :
  comparisonGroups items = JS.Normal G ->
  forall k, G !! k = match members k items with
                     | [] => None
                     | l => Some (JS.sort comparator l)
                     end.
Proof.
  unfold comparisonGroups.
  destruct (JS.forEach pushItem items ∅) as [g|e] eqn:Hg; simpl; [|discriminate].
  intros [= <-] k.
  rewrite lookup_fmap, (forEach_pushItem_lookup _ _ _ Hg k), lookup_empty.
  simpl. now destruct (members k items).
Qed.

Lemma comparisonGroups_returns items :
  (forall item, In item items -> hasMeasure item = true ->
                JS.inherited (groupKey item) = false) ->
  exists G, comparisonGroups items = JS.Normal G.
Proof.
  intros Hkeys. unfold comparisonGroups.
  destruct (forEach_pushItem_returns items Hkeys ∅) as [g ->].
  simpl. now eexists.
Qed.

(** A measured entry whose key is a property name that objects inherit
    makes the grouping throw, whatever else the cart holds. *)
Lemma forEach_pushItem_throws items k :
  JS.inherited k = true ->
  forall g,
    g !! k = None ->
    (exists item, In item items /\ hasMeasure item = true /\ groupKey item = k) ->
    exists e, JS.forEach pushItem items g = JS.Throw e.
Proof.
  intros Hk.
  induction items as [|x items IH]; intros g Hfree (item & Hin & Hm & Hkey).
  - destruct Hin.
  - cbn [JS.forEach].
    destruct (pushItem g x) as [g'|e] eqn:Hpush; [|now exists e].
    cbn [JS.bind].
    assert (Hx : hasMeasure x && String.eqb (groupKey x) k = false).
    { destruct (hasMeasure x) eqn:Hxm; [|reflexivity]. cbn [andb].
      destruct (String.eqb_spec (groupKey x) k) as [Hxk|_]; [|reflexivity].
      unfold pushItem in Hpush. rewrite Hxm, Hxk, Hfree, Hk in Hpush.
      discriminate Hpush. }
    apply IH.
    + rewrite (pushItem_lookup _ _ _ Hpush k), Hfree.
      unfold members. cbn [List.filter]. now rewrite Hx.
    + destruct Hin as [<-|Hin]; [|eauto].
      rewrite Hm, Hkey, String.eqb_refl in Hx. discriminate.
Qed.

Lemma comparisonGroups_throws_key items k :
  JS.inherited k = true ->
  (exists item, In item items /\ hasMeasure item = true /\ groupKey item = k) ->
  exists e, comparisonGroups items = JS.Throw e.
Proof.
  intros Hk Hkey. unfold comparisonGroups.
  destruct (forEach_pushItem_throws items k Hk ∅) as [e ->];
    [apply lookup_empty | exact Hkey | now exists e].
Qed.

Lemma comparisonGroups_throws items :
  (exists item, In item items /\ hasMeasure item = true
                /\ groupKey item = "constructor") ->
  exists e, comparisonGroups items = JS.Throw e.
Proof. now apply comparisonGroups_throws_key. Qed.

(** When the grouping completes, no measured entry has such a key. *)
Lemma completed_not_inherited items G :
  comparisonGroups items = JS.Normal G ->
  forall item, In item items -> hasMeasure item = true ->
               JS.inherited (groupKey item) = false.
Proof.
  intros HG item Hin Hm.
  destruct (JS.inherited (groupKey item)) eqn:Hk; [|reflexivity].
  destruct (comparisonGroups_throws_key items (groupKey item) Hk) as [e He];
    [now exists item|].
  rewrite HG in He. discriminate.
Qed.

Lemma comparisonGroups_group items G k group :
  comparisonGroups items = JS.Normal G ->
  G !! k = Some group ->
  group = JS.sort comparator (members k items) /\ members k items <> [].
Proof.
  intros HG Hk. rewrite (comparisonGroups_lookup _ _ HG k) in Hk.
  destruct (members k items); [discriminate|].
  injection Hk as <-. split; [reflexivity | discriminate].
Qed.

Lemma group_Permutation items G k group :
  comparisonGroups items = JS.Normal G ->
  G !! k = Some group ->
  Permutation group (members k items).
Proof.
  intros HG Hk. destruct (comparisonGroups_group _ _ _ _ HG Hk) as [-> _].
  apply (sort_perm getBasePrice).
Qed.

Lemma group_In items G k group item :
  comparisonGroups items = JS.Normal G ->
  G !! k = Some group ->
  In item group <-> In item items /\ hasMeasure item = true /\ groupKey item = k.
Proof.
  intros HG Hk. rewrite <- members_In.
  pose proof (group_Permutation _ _ _ _ HG Hk) as Hperm.
  split; intros H.
  - eapply Permutation_in; [exact Hperm | exact H].
  - eapply Permutation_in; [symmetry; exact Hperm | exact H].
Qed.

Section WithLaws.

Hypothesis laws : JS.EngineLaws E.

(** Among the property names an object inherits, ["constructor"] is the only
    one a key can spell: the others contain a capital or an underscore. *)
Lemma groupKey_keyChars item : allChars keyChar (groupKey item) = true.
Proof.
  unfold groupKey. destruct (category item) as [c|]; [|reflexivity].
  destruct (JS.truthyStr (Some c)); [|reflexivity].
  apply replaceUnderscores_keyChars, (JS.lower_no_capital _ laws).
Qed.

Lemma inherited_groupKey item :
  JS.inherited (groupKey item) = true <-> groupKey item = "constructor".
Proof.
  pose proof (groupKey_keyChars item) as Hchars.
  unfold JS.inherited. rewrite bool_decide_eq_true. split.
  - unfold JS.objectPrototypeKeys. rewrite !elem_of_cons, elem_of_nil.
    intros [H|H]; [exact H|]. exfalso.
    repeat (destruct H as [H|H]; [rewrite H in Hchars; discriminate Hchars|]).
    exact H.
  - intros ->. unfold JS.objectPrototypeKeys. apply elem_of_cons. now left.
Qed.

Lemma comparisonGroups_completes items :
  (forall item, In item items -> hasMeasure item = true ->
                groupKey item <> "constructor") ->
  exists G, comparisonGroups items = JS.Normal G.
Proof.
  intros Hkeys. apply comparisonGroups_returns. intros item Hitem Hm.
  destruct (JS.inherited (groupKey item)) eqn:Hin; [|reflexivity].
  apply inherited_groupKey in Hin. now destruct (Hkeys item Hitem Hm).
Qed.

(** On categories of the ASCII range every engine computes the same keys. *)
Lemma groupKey_ascii item :
  (forall c, category item = Some c -> allChars JS.isAscii c = true) ->
  groupKey item
  = match category item with
    | Some (String a s) => JS.replaceUnderscores (JS.asciiLower (String a s))
    | _ => "outros"
    end.
Proof.
  intros Hascii. unfold groupKey.
  destruct (category item) as [[|a s]|]; try reflexivity.
  cbn [JS.truthyStr]. now rewrite (JS.lower_ascii _ laws) by now apply Hascii.
Qed.

End WithLaws.

End GroupingFacts.

Lemma forEach_pushItem_ext {E1 E2 : JS.Engine} (items : list CartItem) :
  (forall item, In item items -> groupKey (E := E1) item = groupKey (E := E2) item) ->
  forall g, JS.forEach (pushItem (E := E1)) items g
            = JS.forEach (pushItem (E := E2)) items g.
Proof.
  induction items as [|item items IH]; intros Hkeys g; [reflexivity|].
  cbn [JS.forEach].
  assert (Hpush : pushItem (E := E1) g item = pushItem (E := E2) g item).
  { unfold pushItem. now rewrite (Hkeys item) by now left. }
  rewrite Hpush. destruct (pushItem (E := E2) g item) as [g'|e]; [|reflexivity].
  cbn [JS.bind]. apply IH. intros x Hx. apply Hkeys. now right.
Qed.

(** On carts whose categories are of the ASCII range, every engine computes
    the groups the sample engine computes. *)
Lemma comparisonGroups_ascii {E : JS.Engine} (laws : JS.EngineLaws E)
    (items : list CartItem) :
  Forall asciiCategory items ->
  comparisonGroups items = comparisonGroups (E := Sample.engine) items.
Proof.
  intros Hascii. unfold comparisonGroups.
  rewrite (forEach_pushItem_ext (E1 := E) (E2 := Sample.engine)); [reflexivity|].
  intros item Hitem. rewrite List.Forall_forall in Hascii.
  rewrite (groupKey_ascii laws item (Hascii item Hitem)).
  now rewrite (groupKey_ascii engine_laws item (Hascii item Hitem)).
Qed.

(** ** Unit prices *)

Section UnitPriceFacts.

Context {E : JS.Engine}.

Lemma getBasePrice_unitPrice (item : CartItem) :
  measureValue item = None \/ JS.truthyNum (measureValue item) = true ->
  getBasePrice item = unitPrice item.
Proof.
  intros Hv. unfold getBasePrice, unitPrice, normalize.
  assert (Hval : (if JS.truthyNum (measureValue item)
                  then default (JS.ofZ 1) (measureValue item) else JS.ofZ 1)
                 = default (JS.ofZ 1) (measureValue item)).
  { destruct Hv as [-> | ->]; reflexivity. }
  rewrite Hval.
  destruct (decide (measureUnit item = Some "kg")) as [Hkg|Hkg].
  - rewrite Hkg. reflexivity.
  - rewrite (bool_decide_eq_false_2 _ Hkg).
    destruct (decide (measureUnit item = Some "l")) as [Hl|Hl].
    + rewrite Hl. reflexivity.
    + rewrite (bool_decide_eq_false_2 _ Hl).
      rewrite bool_decide_eq_false_2 by tauto. reflexivity.
Qed.

Lemma unitPrice_inRange (item : CartItem) : inRange (unitPrice item).
Proof. apply div_inRange. Qed.

Lemma group_unitPrice items G k group :
  comparisonGroups items = JS.Normal G ->
  G !! k = Some group ->
  Forall (fun item => getBasePrice item = unitPrice item) group.
Proof.
  intros HG Hk. apply List.Forall_forall. intros item Hitem.
  apply (group_In _ _ _ _ item HG Hk) in Hitem as (_ & Hm & _).
  apply getBasePrice_unitPrice. right.
  unfold hasMeasure in Hm. now apply andb_prop in Hm as [Hm _].
Qed.

Lemma filter_ext_Forall {A} (p q : A -> bool) (l : list A) :
  Forall (fun a => p a = q a) l -> List.filter p l = List.filter q l.
Proof.
  induction 1 as [|a l Ha _ IH]; simpl; [reflexivity|].
  now rewrite Ha, IH.
Qed.

Lemma StronglySorted_ext_Forall {A} (R S : A -> A -> Prop) (l : list A) :
  (forall a b, In a l -> In b l -> R a b -> S a b) ->
  StronglySorted R l -> StronglySorted S l.
Proof.
  intros HRS Hl. induction Hl as [|a l Hl IH Ha]; constructor.
  - apply IH. intros x y Hx Hy. apply HRS; now right.
  - rewrite List.Forall_forall in *. intros b Hb.
    apply HRS; [now left | now right | now apply Ha].
Qed.

(** The keys of the sort are numbers when the unit prices are. *)
Lemma group_keyed items G k group :
  comparisonGroups items = JS.Normal G ->
  G !! k = Some group ->
  (forall item, In item group -> JS.isNaN (unitPrice item) = false) ->
  Forall (fun item => JS.isNaN (getBasePrice item) = false
                      /\ inRange (getBasePrice item)) (members k items).
Proof.
  intros HG Hk Hnum.
  pose proof (group_unitPrice _ _ _ _ HG Hk) as Hprice.
  pose proof (group_Permutation _ _ _ _ HG Hk) as Hperm.
  apply (Permutation_Forall Hperm).
  rewrite List.Forall_forall in *. intros item Hitem.
  rewrite (Hprice item Hitem). split; [now apply Hnum | apply unitPrice_inRange].
Qed.

Lemma group_sorted items G k group :
  comparisonGroups items = JS.Normal G ->
  G !! k = Some group ->
  (forall item, In item group -> JS.isNaN (unitPrice item) = false) ->
  StronglySorted (fun a b => JS.leb (unitPrice a) (unitPrice b) = true) group.
Proof.
  intros HG Hk Hnum.
  pose proof (group_unitPrice _ _ _ _ HG Hk) as Hprice.
  pose proof (group_keyed _ _ _ _ HG Hk Hnum) as Hkeyed.
  destruct (comparisonGroups_group _ _ _ _ HG Hk) as [Hgroup _].
  rewrite List.Forall_forall in Hprice.
  apply StronglySorted_ext_Forall
    with (R := fun a b => JS.leb (getBasePrice a) (getBasePrice b) = true).
  - intros a b Ha Hb. now rewrite (Hprice a Ha), (Hprice b Hb).
  - rewrite Hgroup. now apply (sort_sorted getBasePrice).
Qed.

Lemma group_stable items G k group :
  comparisonGroups items = JS.Normal G ->
  G !! k = Some group ->
  (forall item, In item group -> JS.isNaN (unitPrice item) = false) ->
  forall p, pricedAt p group = pricedAt p (members k items).
Proof.
  intros HG Hk Hnum p.
  pose proof (group_unitPrice _ _ _ _ HG Hk) as Hprice.
  pose proof (group_Permutation _ _ _ _ HG Hk) as Hperm.
  pose proof (group_keyed _ _ _ _ HG Hk Hnum) as Hkeyed.
  destruct (comparisonGroups_group _ _ _ _ HG Hk) as [Hgroup _].
  unfold pricedAt.
  transitivity (List.filter (fun item => JS.eqb (getBasePrice item) p) group).
  - apply filter_ext_Forall. eapply List.Forall_impl; [|exact Hprice].
    intros item Hitem. simpl. now rewrite Hitem.
  - rewrite Hgroup, (sort_keyClass getBasePrice) by exact Hkeyed.
    apply filter_ext_Forall.
    apply (Permutation_Forall Hperm) in Hprice.
    eapply List.Forall_impl; [|exact Hprice].
    intros item Hitem. simpl. now rewrite Hitem.
Qed.

End UnitPriceFacts.


(** For the entries of the data model, which have a finite price and, when
    they have a measure value, a positive one, the unit price is a number. *)
Section DataModel.

Local Open Scope Z_scope.

Lemma positive_shape (v : JS.number) :
  JS.ltb (JS.ofZ 0) v = true ->
  v = S754_infinity false \/ exists m e, v = S754_finite false m e.
Proof.
  rewrite ltb_zero. destruct v as [s|[]| |[] m e]; try discriminate; eauto.
Qed.

Lemma mul_1000_positive (v : JS.number) :
  JS.ltb (JS.ofZ 0) v = true -> inRange v ->
  JS.ltb (JS.ofZ 0) (JS.mul v (JS.ofZ 1000)) = true.
Proof.
  intros Hpos Hrange.
  destruct (positive_shape v Hpos) as [->|(m & e & ->)]; [reflexivity|].
  change (JS.ofZ 1000) with (S754_finite false 8796093022208000 (-43)).
  cbn [JS.mul SFmul xorb]. cbn [inRange] in Hrange.
  pose proof (binary_round_aux_shape false (Z.pos (m * 8796093022208000)) (e + -43)
                loc_Exact ltac:(lia)) as H.
  rewrite ltb_zero.
  destruct (binary_round_aux JS.prec JS.emax false (Z.pos (m * 8796093022208000))
              (e + -43) loc_Exact) as [s|s| |s m' e'].
  - exfalso. destruct H as [_ H]. apply H. split; [lia|].
    transitivity (2 ^ 43).
    + destruct (Z_le_gt_dec 0 (SpecFloat.emin JS.prec JS.emax - (e + -43))).
      * apply Z.pow_le_mono_r; lia.
      * rewrite Z.pow_neg_r by lia. lia.
    + change (2 ^ 43) with 8796093022208. lia.
  - now subst s.
  - destruct H.
  - destruct H as [-> _]. reflexivity.
Qed.

Lemma unitPrice_number (item : CartItem) :
  isFinite (price item) = true ->
  (forall v, measureValue item = Some v ->
             JS.ltb (JS.ofZ 0) v = true /\ inRange v) ->
  JS.isNaN (unitPrice item) = false.
Proof.
  intros Hprice Hmeasure. unfold unitPrice.
  set (v := default (JS.ofZ 1) (measureValue item)).
  assert (Hv : JS.ltb (JS.ofZ 0) v = true /\ inRange v).
  { unfold v. destruct (measureValue item) as [v0|]; [now apply Hmeasure|].
    split; [reflexivity | apply ofZ_inRange]. }
  assert (Hn : JS.ltb (JS.ofZ 0) (normalize (measureUnit item) v) = true).
  { unfold normalize. destruct (bool_decide _); [|apply Hv].
    now apply mul_1000_positive. }
  destruct (JS.isNaN (JS.div (price item) (normalize (measureUnit item) v))) eqn:Hnan;
    [|reflexivity].
  exfalso.
  destruct (positive_shape _ Hn) as [Hy|(m & e & Hy)]; rewrite Hy in Hnan;
    destruct (price item) as [s|s| |s mp ep]; try discriminate Hprice;
    try discriminate Hnan.
  apply div_isNaN in Hnan
    as [H|[H|[(sx & sy & H & _)|(sx & sy & H & _)]]]; discriminate H.
Qed.

End DataModel.

(** C1. The unit price of an entry is its price divided by its measure
    value, 1 when the value is absent, multiplied by 1000 exactly for the
    units [kg] and [l]; the numbers are those of binary64, the quotient and
    the product being rounded.  Every comparison group holds the measured
    entries of its key, each ranked by this unit price; when the unit prices
    of the group are numbers (none is [NaN]) the group is in ascending order
    of unit price, and the entries of equal unit price stand in the order
    they have in the cart list, which is the order in which they were pushed
    to the group.  The unit price is a number for every entry of the data
    model: a finite price and, if any, a positive measure value. *)
Theorem C1_groups_sorted_by_unit_price {E : JS.Engine} :
  (forall item : CartItem,
      measureValue item = None ->
      getBasePrice item
      = JS.div (price item) (normalize (measureUnit item) (JS.ofZ 1))) /\
  (forall (unit : option string) (v : JS.number),
      (unit = Some "kg" \/ unit = Some "l" ->
       normalize unit v = JS.mul v (JS.ofZ 1000)) /\
      (unit <> Some "kg" -> unit <> Some "l" -> normalize unit v = v)) /\
  (forall (items : list CartItem) (G : Groups) (k : string) (group : list CartItem),
      comparisonGroups items = JS.Normal G ->
      G !! k = Some group ->
      Forall (fun item => getBasePrice item = unitPrice item) group /\
      Permutation group (members k items) /\
      ((forall item, In item group -> JS.isNaN (unitPrice item) = false) ->
       StronglySorted (fun a b => JS.leb (unitPrice a) (unitPrice b) = true) group /\
       (forall p : JS.number, pricedAt p group = pricedAt p (members k items)))) /\
  (forall item : CartItem,
      isFinite (price item) = true ->
      (forall v, measureValue item = Some v ->
                 JS.ltb (JS.ofZ 0) v = true /\ inRange v) ->
      JS.isNaN (unitPrice item) = false).
Proof.
  split; [|split; [|split; [|exact unitPrice_number]]].
  - intros item Hv. rewrite getBasePrice_unitPrice by now left.
    unfold unitPrice. now rewrite Hv.
  - intros unit v. unfold normalize. split.
    + intros H. now rewrite bool_decide_eq_true_2.
    + intros Hkg Hl. rewrite bool_decide_eq_false_2; [reflexivity | tauto].
  - intros items G k group HG Hk.
    split; [exact (group_unitPrice _ _ _ _ HG Hk)|].
    split; [exact (group_Permutation _ _ _ _ HG Hk)|].
    intros Hnum. split.
    + exact (group_sorted _ _ _ _ HG Hk Hnum).
    + exact (group_stable _ _ _ _ HG Hk Hnum).
Qed.

Lemma C1_rice_witness :
  StronglySorted (fun a b => JS.leb (unitPrice a) (unitPrice b) = true)
                 [Sample.riceA; Sample.riceB].
Proof.
  apply (proj1 (proj2 (proj2 (C1_groups_sorted_by_unit_price (E := Sample.engine))))
           Sample.riceCart Sample.riceGroups "rice" [Sample.riceA; Sample.riceB]).
  - vm_compute. reflexivity.
  - reflexivity.
  - intros item [<-|[<-|[]]]; vm_compute; reflexivity.
Defined.

(** The unit prices are those of binary64.  Typed as 0.21 for 50 g and as
    8.40 for 2 kg, two products cost 0.0042 per gram in exact arithmetic;
    the program computes 0.0042 for the first and 0.004200000000000001 for
    the second, ranks the first before the second although the second is
    the one that comes first in the cart, and flags the first. *)
Lemma unit_prices_are_rounded :
  let st := fst (run (E := Sample.engine) Sample.analyze Sample.uuidv4
                   Sample.tieSession (initialState, 0%nat)) in
  exists a b,
    items st = [b; a] /\
    productName a = "arroz a" /\ productName b = "arroz b" /\
    unitPrice a = Sample.num "0.0042" /\
    unitPrice b = Sample.num "0.004200000000000001" /\
    JS.ltb (unitPrice a) (unitPrice b) = true /\
    comparisonGroups (E := Sample.engine) (items st)
    = JS.Normal {[ "arroz" := [a; b] ]} /\
    isBestValue {[ "arroz" := [a; b] ]} a = true /\
    isBestValue {[ "arroz" := [a; b] ]} b = false.
Proof.
  eexists _, _. split; [vm_compute; reflexivity|].
  repeat split; vm_compute; reflexivity.
Qed.

Lemma positive_truthy (v : JS.number) :
  JS.ltb (JS.ofZ 0) v = true -> JS.truthyNum (Some v) = true.
Proof.
  intros Hv. destruct (positive_shape v Hv) as [->|(m & e & ->)]; reflexivity.
Qed.

Lemma nonempty_truthy (u : string) : u <> "" -> JS.truthyStr (Some u) = true.
Proof. destruct u; [congruence | reflexivity]. Qed.

(** C3 (as amended). On every cart none of whose measured entries has the
    key ["constructor"], the grouping completes;
    an entry without measure value or without measure unit is in no group;
    an entry with a positive measure value and a non-empty unit is in the
    group stored under its category lower-cased with underscores turned into
    spaces (under ["outros"] when it has no category or an empty one) and in
    no group under another key; each group holds exactly the measured
    entries of its key. *)
Theorem C3_measured_entries_grouped_once {E : JS.Engine} (laws : JS.EngineLaws E)
    (items : list CartItem) :
  let key := fun item : CartItem =>
               match category item with
               | Some (String c s) => JS.replaceUnderscores (JS.toLowerCase (String c s))
               | _ => "outros"
               end in
  (forall item, In item items -> hasMeasure item = true -> key item <> "constructor") ->
  exists G,
    comparisonGroups items = JS.Normal G /\
    (forall item k group,
        measureValue item = None \/ measureUnit item = None ->
        G !! k = Some group -> ~ In item group) /\
    (forall item v u,
        In item items ->
        measureValue item = Some v -> JS.ltb (JS.ofZ 0) v = true ->
        measureUnit item = Some u -> u <> "" ->
        exists group,
          G !! key item = Some group /\ In item group /\
          forall k' group', G !! k' = Some group' -> In item group' ->
                            k' = key item) /\
    (forall k group item,
        G !! k = Some group ->
        (In item group
         <-> In item items /\ hasMeasure item = true /\ key item = k)).
Proof.
  intros key Hkeys.
  assert (Hkey : forall item, groupKey item = key item)
    by (intros item; apply groupKey_spelled).
  destruct (comparisonGroups_completes laws items) as [G HG].
  { intros item Hitem Hm. rewrite Hkey. now apply Hkeys. }
  exists G. split; [exact HG|]. split; [|split].
  - intros item k group Hlack Hk Hin.
    apply (group_In _ _ _ _ item HG Hk) in Hin as (_ & Hm & _).
    unfold hasMeasure in Hm. apply andb_prop in Hm as [Hv Hu].
    destruct Hlack as [Hnone|Hnone]; rewrite Hnone in *; discriminate.
  - intros item v u Hitem Hv Hpos Hu Hne.
    assert (Hm : hasMeasure item = true).
    { unfold hasMeasure. rewrite Hv, Hu, (positive_truthy v Hpos).
      now rewrite (nonempty_truthy u Hne). }
    assert (Hmem : In item (members (key item) items))
      by (apply members_In; auto).
    pose proof (comparisonGroups_lookup _ _ HG (key item)) as Hlook.
    destruct (members (key item) items) as [|m ms] eqn:Hms; [destruct Hmem|].
    eexists. split; [exact Hlook|]. split.
    + apply (group_In _ _ _ _ item HG Hlook). auto.
    + intros k' group' Hk' Hin'.
      apply (group_In _ _ _ _ item HG Hk') in Hin' as (_ & _ & Hk0).
      now rewrite <- Hk0, Hkey.
  - intros k group item Hk. rewrite (group_In _ _ _ _ item HG Hk), Hkey.
    reflexivity.
Qed.

Lemma C3_arroz_witness :
  exists G,
    comparisonGroups (E := Sample.engine) Sample.arrozCart = JS.Normal G /\
    exists group,
      G !! "arroz" = Some group /\ In Sample.arrozBom group.
Proof.
  destruct (C3_measured_entries_grouped_once engine_laws Sample.arrozCart)
    as (G & HG & _ & Hin & _).
  - intros item [<-|[<-|[<-|[]]]] _; vm_compute; discriminate.
  - exists G. split; [exact HG|].
    destruct (Hin Sample.arrozBom (Sample.num "1") "kg") as (group & Hk & Hgroup & _).
    + right; left; reflexivity.
    + reflexivity.
    + reflexivity.
    + reflexivity.
    + discriminate.
    + exists group. split; [exact Hk | exact Hgroup].
Defined.

Lemma arrozCart_ascii : Forall asciiCategory Sample.arrozCart.
Proof.
  repeat constructor; intros c [= <-]; reflexivity.
Qed.

(** C3 as stated fails on the key, for every engine: an entry of category
    ["Arroz"] with a measure is in no group stored under ["Arroz"], it is
    stored under ["arroz"]; an entry without category is stored under
    ["outros"]. *)
Lemma C3_key_counterexample :
  (forall E : JS.Engine, JS.EngineLaws E ->
     comparisonGroups Sample.arrozCart = JS.Normal Sample.arrozGroups) /\
  category Sample.arrozBom = Some "Arroz" /\
  measureValue Sample.arrozBom = Some (JS.ofZ 1) /\
  measureUnit Sample.arrozBom = Some "kg" /\
  Sample.arrozGroups !! "Arroz" = None /\
  Sample.arrozGroups !! "arroz" = Some [Sample.arrozTio; Sample.arrozBom] /\
  category Sample.avulso = None /\
  Sample.arrozGroups !! "outros" = Some [Sample.avulso].
Proof.
  split.
  - intros E laws. rewrite (comparisonGroups_ascii laws _ arrozCart_ascii).
    vm_compute. reflexivity.
  - repeat split; vm_compute; reflexivity.
Qed.

(** A measured entry of category ["Constructor"] makes the grouping throw,
    for every engine. *)
Lemma constructor_throws {E : JS.Engine} (laws : JS.EngineLaws E) :
  exists e,
    comparisonGroups
      [mkItem "id-0" "Kit" (JS.ofZ 5) 1 (Some "Constructor") (Some (JS.ofZ 1)) (Some "un")]
    = JS.Throw e.
Proof.
  apply comparisonGroups_throws. eexists. split; [now left|].
  split; [reflexivity|].
  rewrite (groupKey_ascii laws); [reflexivity|].
  intros c [= <-]. reflexivity.
Qed.

(** C7 (as amended). Two entries of the comparison groups are in the same
    group exactly when their categories are identical after lower-casing and
    replacement of underscores by spaces, an absent or empty category
    counting as ["outros"]; for categories of the ASCII range, exactly when
    they are identical once the letters [A] to [Z] are lowered and the
    underscores replaced. *)
Theorem C7_same_group_iff_same_key {E : JS.Engine} (laws : JS.EngineLaws E)
    (items : list CartItem) (G : Groups) :
  let key := fun item : CartItem =>
               match category item with
               | Some (String c s) => JS.replaceUnderscores (JS.toLowerCase (String c s))
               | _ => "outros"
               end in
  comparisonGroups items = JS.Normal G ->
  forall k1 k2 group1 group2 a b,
    G !! k1 = Some group1 -> G !! k2 = Some group2 ->
    In a group1 -> In b group2 ->
    (k1 = k2 <-> key a = key b) /\
    (forall ca cb,
        category a = Some ca -> category b = Some cb ->
        ca <> "" -> cb <> "" ->
        allChars JS.isAscii ca = true -> allChars JS.isAscii cb = true ->
        (k1 = k2
         <-> JS.replaceUnderscores (JS.asciiLower ca)
             = JS.replaceUnderscores (JS.asciiLower cb))).
Proof.
  intros key HG k1 k2 group1 group2 a b H1 H2 Ha Hb.
  assert (Hkey : forall item, groupKey item = key item)
    by (intros item; apply groupKey_spelled).
  apply (group_In _ _ _ _ a HG H1) in Ha as (_ & _ & <-).
  apply (group_In _ _ _ _ b HG H2) in Hb as (_ & _ & <-).
  split; [now rewrite !Hkey|].
  intros ca cb Hca Hcb Hna Hnb Haa Hab.
  rewrite (groupKey_ascii laws a), (groupKey_ascii laws b), Hca, Hcb.
  - destruct ca; [congruence|]. destruct cb; [congruence|]. reflexivity.
  - intros c Hc. congruence.
  - intros c Hc. congruence.
Qed.

Lemma C7_arroz_witness :
  "arroz" = "arroz"
  <-> JS.replaceUnderscores (JS.asciiLower "arroz")
      = JS.replaceUnderscores (JS.asciiLower "Arroz").
Proof.
  apply (proj2 (C7_same_group_iff_same_key engine_laws
                  Sample.arrozCart Sample.arrozGroups
                  ltac:(vm_compute; reflexivity)
                  "arroz" "arroz" [Sample.arrozTio; Sample.arrozBom]
                  [Sample.arrozTio; Sample.arrozBom]
                  Sample.arrozTio Sample.arrozBom
                  eq_refl eq_refl
                  ltac:(now left) ltac:(right; now left))
           "arroz" "Arroz"); try reflexivity; discriminate.
Defined.

(** C7 as stated fails, for every engine: the categories ["arroz"] and
    ["Arroz"] differ as strings and both entries are in the one group
    stored under ["arroz"]. *)
Lemma C7_case_counterexample :
  (forall E : JS.Engine, JS.EngineLaws E ->
     comparisonGroups Sample.arrozCart = JS.Normal Sample.arrozGroups) /\
  category Sample.arrozTio <> category Sample.arrozBom /\
  exists group,
    Sample.arrozGroups !! "arroz" = Some group /\
    In Sample.arrozTio group /\ In Sample.arrozBom group.
Proof.
  split; [intros E laws; rewrite (comparisonGroups_ascii laws _ arrozCart_ascii);
          vm_compute; reflexivity|].
  split; [discriminate|].
  exists [Sample.arrozTio; Sample.arrozBom].
  split; [reflexivity|]. split; [now left | right; now left].
Qed.

(** With an engine that lowers the accented capitals, as the engines of the
    browsers do, the categories ["Água"] and ["água"] merge too. *)
Lemma accented_categories_merge :
  comparisonGroups (E := Sample.engine) [Sample.aguaCoco; Sample.aguaMineral]
  = JS.Normal {[ "água" := [Sample.aguaMineral; Sample.aguaCoco] ]}.
Proof. vm_compute. reflexivity. Qed.

(** ** Best value *)

Lemma elem_of_bestValueIds (G : Groups) (x : string) :
  x ∈ bestValueIds G
  <-> exists k first second rest,
        G !! k = Some (first :: second :: rest) /\ x = id first.
Proof.
  unfold bestValueIds.
  apply (map_fold_weak_ind
           (fun (ids : gset string) (m : Groups) =>
              x ∈ ids <-> exists k first second rest,
                            m !! k = Some (first :: second :: rest) /\ x = id first)).
  - split; [set_solver|]. intros (k & first & second & rest & Hk & _).
    now rewrite lookup_empty in Hk.
  - intros i group m ids Hfresh IH.
    assert (Hold : (exists k first second rest,
                      <[i:=group]> m !! k = Some (first :: second :: rest)
                      /\ x = id first)
                   <-> (exists second rest first,
                          group = first :: second :: rest /\ x = id first)
                       \/ x ∈ ids).
    { rewrite IH. split.
      - intros (k & first & second & rest & Hk & Hx).
        destruct (decide (i = k)) as [<-|Hne].
        + rewrite lookup_insert_eq in Hk. injection Hk as ->. left. eauto.
        + rewrite lookup_insert_ne in Hk by exact Hne. right. eauto 6.
      - intros [(second & rest & first & -> & Hx)|(k & first & second & rest & Hk & Hx)].
        + exists i, first, second, rest. now rewrite lookup_insert_eq.
        + exists k, first, second, rest. split; [|exact Hx].
          rewrite lookup_insert_ne; [exact Hk|]. intros ->. congruence. }
    rewrite Hold. clear Hold IH.
    destruct group as [|first [|second rest]]; simpl.
    + split; [auto|]. intros [(? & ? & ? & [=] & _)|H]; exact H.
    + split; [auto|]. intros [(? & ? & ? & [=] & _)|H]; exact H.
    + rewrite elem_of_union, elem_of_singleton. split.
      * intros [->|H]; [left; eauto | now right].
      * intros [(? & ? & ? & [= <- _ _] & ->)|H]; [now left | now right].
Qed.

Lemma NoDup_map_eq {A B} (f : A -> B) (l : list A) (a b : A) :
  List.NoDup (map f l) -> In a l -> In b l -> f a = f b -> a = b.
Proof.
  induction l as [|x l IH]; simpl; [tauto|].
  intros Hnd Ha Hb Hf. apply List.NoDup_cons_iff in Hnd as [Hx Hnd].
  destruct Ha as [<-|Ha], Hb as [<-|Hb]; auto.
  - exfalso. apply Hx. rewrite Hf. now apply in_map.
  - exfalso. apply Hx. rewrite <- Hf. now apply in_map.
Qed.

Section BestValueFacts.

Context {E : JS.Engine}.
Variables (items : list CartItem) (G : Groups).
Hypothesis Hids : List.NoDup (map id items).
Hypothesis HG : comparisonGroups items = JS.Normal G.

Lemma group_NoDup k group : G !! k = Some group -> List.NoDup group.
Proof.
  intros Hk.
  apply (Permutation_NoDup (Permutation_sym (group_Permutation _ _ _ _ HG Hk))).
  unfold members. apply List.NoDup_filter.
  exact (List.NoDup_map_inv _ _ Hids).
Qed.

(** An entry of a group is flagged exactly when it heads its group and the
    group has a second entry. *)
Lemma isBestValue_head k group x :
  G !! k = Some group -> In x group ->
  isBestValue G x = true <-> exists second rest, group = x :: second :: rest.
Proof.
  intros Hk Hx. unfold isBestValue.
  rewrite bool_decide_eq_true, elem_of_bestValueIds.
  pose proof (proj1 (group_In _ _ _ _ x HG Hk) Hx) as (Hxi & _ & Hxk).
  split.
  - intros (k' & first & second & rest & Hk' & Hid).
    assert (Hfirst : In first (first :: second :: rest)) by now left.
    apply (group_In _ _ _ _ first HG Hk') in Hfirst as (Hfi & _ & Hfk).
    assert (x = first) as <- by (eapply NoDup_map_eq; eauto).
    assert (k' = k) as -> by congruence.
    rewrite Hk in Hk'. injection Hk' as ->. eauto.
  - intros (second & rest & ->). exists k, x, second, rest. auto.
Qed.

End BestValueFacts.

(** C2. In a cart whose entries carry distinct identifiers, every comparison
    group of two or more entries has exactly one flagged entry, the first of
    the sorted group, whose unit price is at most that of every other entry
    of the group when the unit prices of the group are numbers; the entry of
    a group of one is not flagged. *)
Theorem C2_best_value_is_cheapest {E : JS.Engine} (items : list CartItem) (G : Groups) :
  List.NoDup (map id items) ->
  comparisonGroups items = JS.Normal G ->
  forall k group,
    G !! k = Some group ->
    ((2 <= length group)%nat ->
     exists first rest,
       group = first :: rest /\
       isBestValue G first = true /\
       (forall x, In x rest -> isBestValue G x = false) /\
       ((forall x, In x group -> JS.isNaN (unitPrice x) = false) ->
        forall x, In x rest -> JS.leb (unitPrice first) (unitPrice x) = true)) /\
    (length group = 1%nat ->
     forall x, In x group -> isBestValue G x = false).
Proof.
  intros Hids HG k group Hk. split.
  - intros Hlen. destruct group as [|first [|second rest]]; simpl in Hlen; try lia.
    exists first, (second :: rest). split; [reflexivity|]. split; [|split].
    + apply (isBestValue_head items G Hids HG k _ first Hk); [now left | eauto].
    + intros x Hx.
      destruct (isBestValue G x) eqn:Hflag; [|reflexivity]. exfalso.
      apply (isBestValue_head items G Hids HG k _ x Hk) in Hflag as (s & r & Heq);
        [|now right].
      injection Heq as -> _.
      pose proof (group_NoDup items G Hids HG k _ Hk) as Hnd.
      apply List.NoDup_cons_iff in Hnd as [Hnot _]. now apply Hnot.
    + intros Hnum x Hx.
      pose proof (group_sorted _ _ _ _ HG Hk Hnum) as Hsorted.
      apply StronglySorted_inv in Hsorted as [_ Hall].
      rewrite List.Forall_forall in Hall. now apply Hall.
  - intros Hlen x Hx.
    destruct (isBestValue G x) eqn:Hflag; [|reflexivity]. exfalso.
    apply (isBestValue_head items G Hids HG k _ x Hk Hx) in Hflag as (s & r & ->).
    simpl in Hlen. lia.
Qed.

(** The example of the specification: A at 10 for 500 g and B at 22 for 1 kg
    cost 0.02 and 0.022 per gram, and A is the flagged entry. *)
Lemma C2_rice_witness :
  unitPrice Sample.riceA = Sample.num "0.02" /\
  unitPrice Sample.riceB = Sample.num "0.022" /\
  exists first rest,
    [Sample.riceA; Sample.riceB] = first :: rest /\
    isBestValue Sample.riceGroups first = true /\
    (forall x, In x rest -> isBestValue Sample.riceGroups x = false) /\
    forall x, In x rest -> JS.leb (unitPrice first) (unitPrice x) = true.
Proof.
  split; [vm_compute; reflexivity|]. split; [vm_compute; reflexivity|].
  destruct (proj1 (C2_best_value_is_cheapest (E := Sample.engine)
                     Sample.riceCart Sample.riceGroups
                     ltac:(repeat constructor; simpl; intuition discriminate)
                     ltac:(vm_compute; reflexivity)
                     "rice" [Sample.riceA; Sample.riceB] eq_refl)
              ltac:(simpl; lia))
    as (first & rest & Hgroup & Hbest & Hothers & Hprice).
  exists first, rest. split; [exact Hgroup|]. split; [exact Hbest|].
  split; [exact Hothers|]. apply Hprice.
  intros x [<-|[<-|[]]]; vm_compute; reflexivity.
Defined.

(** ** Analysis service *)

Section ServiceFacts.

Context {File World : Type}.
Variable fileType : File -> string.
Variable fileToBase64 : File -> World -> JS.Completion string * World.
Variable generateContent :
  string -> string -> World -> JS.Completion (option string) * World.
Variable parseScannedItem : string -> JS.Completion ScannedItem.

(** Without a key no call leaves the program: every analysis fails at once. *)
Lemma analyzeProductImage_missing_key (file : File) (w : World) :
  analyzeProductImage "" fileType fileToBase64 generateContent parseScannedItem file w
  = (JS.Throw "API Key está faltando.", w).
Proof. reflexivity. Qed.

(** An analysis succeeds only with what the model's answer parses to. *)
Lemma analyzeProductImage_success apiKey (file : File) (w w' : World) data :
  analyzeProductImage apiKey fileType fileToBase64 generateContent parseScannedItem
    file w = (JS.Normal data, w') ->
  exists base64Data w1 text,
    fileToBase64 file w = (JS.Normal base64Data, w1) /\
    generateContent (fileType file) base64Data w1 = (JS.Normal (Some text), w') /\
    text <> "" /\
    parseScannedItem text = JS.Normal data.
Proof.
  unfold analyzeProductImage.
  destruct (negb (JS.truthyStr (Some apiKey))); [discriminate|].
  destruct (fileToBase64 file w) as [[base64Data|e] w1] eqn:Hfile;
    cbv beta iota zeta; [|discriminate].
  destruct (generateContent (fileType file) base64Data w1)
    as [[text|e] w2] eqn:Hanswer; cbv beta iota zeta; [|discriminate].
  destruct text as [[|c text]|]; simpl; [discriminate | | discriminate].
  destruct (parseScannedItem (String c text)) as [d|e] eqn:Hparse; [|discriminate].
  intros [= <- <-]. exists base64Data, w1, (String c text).
  split; [reflexivity|]. split; [exact Hanswer|].
  split; [intros [=] | exact Hparse].
Qed.

End ServiceFacts.

(** ** File batches *)

Section BatchFacts.

Context {File World : Type}.
Variable analyze : File -> World -> JS.Completion ScannedItem * World.
Variable uuidv4 : World -> string * World.

Lemma loop_processed total files : forall (st : LoopState) (i : nat),
  exists log,
    processed analyze uuidv4 (world st) files log
      (world (loop analyze uuidv4 total st i files)) /\
    map fst log = files /\
    newItems (loop analyze uuidv4 total st i files)
    = newItems st ++ omap snd log /\
    errorMsg (loop analyze uuidv4 total st i files)
    = (if allSucceeded log then errorMsg st else Some batchError) /\
    emitted (loop analyze uuidv4 total st i files)
    = emitted st ++ progressUpdates total i (length files).
Proof.
  induction files as [|file rest IH]; intros st i.
  - exists []. simpl. split; [constructor|].
    unfold progressUpdates. simpl. now rewrite !app_nil_r.
  - cbn [loop].
    destruct (IH (iteration analyze uuidv4 total st i file) (S i))
      as (log & Hproc & Hfiles & Hnew & Herr & Hemit).
    unfold iteration in *.
    destruct (analyze file (world st)) as [[result|e] w1] eqn:Hanalyze.
    + destruct (uuidv4 w1) as [newId w2] eqn:Hid. simpl in *.
      exists ((file, Some (newCartItem newId result)) :: log).
      split; [econstructor; eassumption|].
      split; [simpl; now rewrite Hfiles|].
      split; [rewrite Hnew; simpl; now rewrite <- app_assoc|].
      split.
      * rewrite Herr. unfold allSucceeded. cbn [forallb snd].
        rewrite bool_decide_eq_true_2 by (now eexists). reflexivity.
      * rewrite Hemit. unfold progressUpdates. simpl.
        now rewrite <- app_assoc.
    + simpl in *.
      exists ((file, None) :: log).
      split; [econstructor; eassumption|].
      split; [simpl; now rewrite Hfiles|].
      split; [exact Hnew|].
      split.
      * rewrite Herr. unfold allSucceeded. cbn [forallb snd].
        rewrite bool_decide_eq_false_2 by (intros [? [=]]).
        cbn [andb]. now destruct (forallb _ log).
      * rewrite Hemit. unfold progressUpdates. simpl.
        now rewrite <- app_assoc.
Qed.

Lemma progressUpdates_quiet total i n :
  List.filter recordsError (progressUpdates total i n) = []
  /\ prepended (progressUpdates total i n) = [].
Proof.
  unfold progressUpdates. revert i.
  induction n as [|n IH]; intros i; simpl; [now split|].
  destruct (IH (S i)) as [H1 H2]. now split.
Qed.

End BatchFacts.

(** C8. A batch of files is processed one file at a time and in order,
    whatever the outcome of each analysis: there is a log with one line per
    file, a success carrying the new entry and a failure carrying nothing,
    every line obtained in the world left by the line before; the handler
    first clears the status, reports the progress of each file, and after
    the last file puts the entries of all successes in front of the cart and
    sets the status once, with the single aggregate message exactly when
    some file failed.  No other setter call records an error. *)
Theorem C8_batch_continues_after_failure {File World : Type}
    (analyze : File -> World -> JS.Completion ScannedItem * World)
    (uuidv4 : World -> string * World)
    (files : list File) (w : World) :
  exists log,
    processed analyze uuidv4 w files log
      (snd (handleFileChange analyze uuidv4 files w)) /\
    map fst log = files /\
    fst (handleFileChange analyze uuidv4 files w)
    = match files with
      | [] => []
      | _ =>
          [SetStatus (mkStatus true None);
           SetAnalyzingProgress (Some (0, length files)%nat)]
            ++ progressUpdates (length files) 0 (length files)
            ++ [PrependItems (omap snd log);
                SetStatus (mkStatus false
                             (if allSucceeded log then None else Some batchError));
                SetAnalyzingProgress None]
      end /\
    (forall st : AppState,
        items (applyActions st (fst (handleFileChange analyze uuidv4 files w)))
        = omap snd log ++ items st) /\
    (length (List.filter recordsError (fst (handleFileChange analyze uuidv4 files w)))
     <= 1)%nat.
Proof.
  destruct files as [|file rest].
  - exists []. simpl. repeat split; [constructor | lia].
  - set (files := file :: rest).
    set (st0 := {| newItems := []; errorMsg := None;
                   emitted := [SetStatus (mkStatus true None);
                               SetAnalyzingProgress (Some (0, length files)%nat)];
                   world := w |}).
    destruct (loop_processed analyze uuidv4 (length files) files st0 0)
      as (log & Hproc & Hfiles & Hnew & Herr & Hemit).
    assert (Hactions :
      fst (handleFileChange analyze uuidv4 files w)
      = [SetStatus (mkStatus true None);
         SetAnalyzingProgress (Some (0, length files)%nat)]
          ++ progressUpdates (length files) 0 (length files)
          ++ [PrependItems (omap snd log);
              SetStatus (mkStatus false
                           (if allSucceeded log then None else Some batchError));
              SetAnalyzingProgress None]).
    { unfold handleFileChange, files. cbn [fst]. fold files. fold st0.
      rewrite Hemit, Hnew, Herr. rewrite <- app_assoc. reflexivity. }
    exists log. split; [exact Hproc|]. split; [exact Hfiles|].
    split; [exact Hactions|]. split.
    + intros st. rewrite applyActions_items, Hactions.
      rewrite !prepended_app.
      rewrite (proj2 (progressUpdates_quiet _ _ _)). simpl.
      now rewrite !app_nil_r.
    + rewrite Hactions, !List.filter_app.
      rewrite (proj1 (progressUpdates_quiet _ _ _)). simpl.
      destruct (allSucceeded log); simpl; lia.
Qed.

(** ** Manual entry *)

Lemma manualItem_id {E : JS.Engine} newId manualName manualPrice manualSize m :
  manualItem newId manualName manualPrice manualSize = Some m -> id m = newId.
Proof.
  unfold manualItem.
  destruct (_ || _); [discriminate|].
  destruct (JS.isNaN _); [discriminate|].
  destruct (if String.eqb _ _ then _ else _) as [mValue mUnit].
  now intros [= <-].
Qed.

Section ManualEntryFacts.

Context {E : JS.Engine}.
Hypothesis laws : JS.EngineLaws E.

Lemma toLowerCase_letters unit :
  allChars JS.isLetter unit = true -> JS.toLowerCase unit = JS.asciiLower unit.
Proof.
  intros H. apply (JS.lower_ascii _ laws).
  exact (allChars_impl _ _ _ isLetter_isAscii H).
Qed.

(** The fields of a manual entry, read off the handler. *)
Lemma manualItem_fields newId manualName manualPrice manualSize m :
  manualItem newId manualName manualPrice manualSize = Some m ->
  id m = newId /\
  productName m = JS.trim manualName /\
  price m = JS.parseFloat (JS.replaceFirstComma manualPrice) /\
  JS.isNaN (price m) = false /\
  quantity m = 1%Z /\
  category m = Some (JS.toLowerCase (JS.splitSpaceHead manualName)) /\
  (measureValue m = None /\ measureUnit m = None
   \/ exists v unit,
        unit <> "" /\ measureUnit m = Some unit /\
        measureValue m = Some v /\ JS.isNaN v = false /\ inRange v).
Proof.
  unfold manualItem.
  destruct (_ || _); [discriminate|].
  destruct (JS.isNaN (JS.parseFloat (JS.replaceFirstComma manualPrice))) eqn:Hnan;
    [discriminate|].
  destruct (String.eqb (JS.trim manualSize) "").
  - intros [= <-]. simpl. repeat split; try assumption. now left.
  - destruct (JS.matchSize manualSize) as [[m1 m2]|] eqn:Hmatch.
    + intros [= <-]. simpl. repeat split; try assumption. right.
      destruct (matchSize_unit _ _ _ Hmatch) as [Hne Hletters].
      destruct (parseFloat_numeral m1 (matchSize_numeral _ _ _ Hmatch)) as [Hv Rv].
      exists (JS.parseFloat m1), (JS.toLowerCase m2).
      split; [|now repeat split].
      rewrite (toLowerCase_letters m2 Hletters).
      intros H. apply mapChars_empty in H. contradiction.
    + intros [= <-]. simpl. repeat split; try assumption. now left.
Qed.

(** On texts of the ASCII range every engine builds the entry the sample
    engine builds. *)
Lemma manualItem_ascii newId manualName manualPrice manualSize :
  allChars JS.isAscii manualName = true ->
  manualItem newId manualName manualPrice manualSize
  = manualItem (E := Sample.engine) newId manualName manualPrice manualSize.
Proof.
  intros Hname. unfold manualItem.
  destruct (_ || _); [reflexivity|].
  destruct (JS.isNaN _); [reflexivity|].
  pose proof (splitSpaceHead_allChars _ _ Hname) as Hhead.
  rewrite (JS.lower_ascii _ laws _ Hhead), (JS.lower_ascii _ engine_laws _ Hhead).
  destruct (String.eqb (JS.trim manualSize) ""); [reflexivity|].
  destruct (JS.matchSize manualSize) as [[m1 m2]|] eqn:Hmatch; [|reflexivity].
  destruct (matchSize_unit _ _ _ Hmatch) as [_ Hletters].
  pose proof (allChars_impl _ _ _ isLetter_isAscii Hletters) as Hascii.
  now rewrite (JS.lower_ascii _ laws _ Hascii), (JS.lower_ascii _ engine_laws _ Hascii).
Qed.

End ManualEntryFacts.

(** C10 (as amended). A manually entered item is added with quantity 1 and
    with the category made of the text of the name before its first space,
    lower-cased; for a name that starts with a visible character and has no
    white space other than spaces this text is the first word of the trimmed
    name, and it is not empty; for a name of the ASCII range the category
    is that text with the letters [A] to [Z] lowered.  When the size field
    yields a measure value other than zero then, on every cart none of
    whose measured entries has the key ["constructor"], the grouping
    completes and the entry is in the comparison group stored under the key
    of the derived category: the category lower-cased, with underscores
    turned into spaces, or ["outros"] when the derived category is empty. *)
Theorem C10_manual_entry_category_and_group {E : JS.Engine} (laws : JS.EngineLaws E)
    (newId manualName manualPrice manualSize : string) (m : CartItem) :
  manualItem newId manualName manualPrice manualSize = Some m ->
  let derived := JS.toLowerCase (JS.splitSpaceHead manualName) in
  let key := match derived with
             | EmptyString => "outros"
             | _ => JS.replaceUnderscores (JS.toLowerCase derived)
             end in
  quantity m = 1%Z /\
  category m = Some derived /\
  (plainName manualName = true ->
   JS.splitSpaceHead manualName = firstWord manualName /\ firstWord manualName <> "") /\
  (allChars JS.isAscii manualName = true ->
   derived = JS.asciiLower (JS.splitSpaceHead manualName) /\
   key = match derived with
         | EmptyString => "outros"
         | _ => JS.replaceUnderscores derived
         end) /\
  (forall v, measureValue m = Some v -> JS.isZero v = false ->
     forall prev : list CartItem,
       (forall item, In item (m :: prev) -> hasMeasure item = true ->
                     groupKey item <> "constructor") ->
       exists G group,
         comparisonGroups
           (handleAddManualItem newId manualName manualPrice manualSize prev)
         = JS.Normal G /\
         G !! key = Some group /\
         In m group).
Proof.
  intros Hm derived key.
  destruct (manualItem_fields laws _ _ _ _ _ Hm)
    as (_ & _ & _ & _ & Hq & Hcat & Hmeasure).
  split; [exact Hq|]. split; [exact Hcat|]. split; [|split].
  - apply plainName_firstWord.
  - intros Hascii.
    pose proof (splitSpaceHead_allChars _ _ Hascii) as Hhead.
    assert (Hd : derived = JS.asciiLower (JS.splitSpaceHead manualName))
      by (apply (JS.lower_ascii _ laws), Hhead).
    split; [exact Hd|]. unfold key. rewrite Hd.
    rewrite (JS.lower_ascii _ laws) by (apply asciiLower_isAscii, Hhead).
    now rewrite asciiLower_idempotent.
  - intros v Hv Hnz prev Hkeys.
    destruct Hmeasure as [[Hnone _]|(v' & unit & Hunit & Hu & Hv' & Hnan & _)];
      [congruence|].
    assert (v' = v) as -> by congruence.
    assert (Hhas : hasMeasure m = true).
    { unfold hasMeasure. rewrite Hv, Hu. cbn [JS.truthyNum].
      rewrite (proj2 (truthy_spec v) (conj Hnan Hnz)).
      now rewrite (nonempty_truthy unit Hunit). }
    assert (Hkey : groupKey m = key).
    { rewrite groupKey_spelled, Hcat. fold derived. unfold key.
      now destruct derived. }
    unfold handleAddManualItem. rewrite Hm.
    destruct (comparisonGroups_completes laws (m :: prev) Hkeys) as [G HG].
    assert (Hmem : In m (members (groupKey m) (m :: prev)))
      by (apply members_In; repeat split; [now left | exact Hhas]).
    pose proof (comparisonGroups_lookup _ _ HG (groupKey m)) as Hlook.
    destruct (members (groupKey m) (m :: prev)) as [|x xs] eqn:Hms; [destruct Hmem|].
    exists G. eexists. split; [exact HG|]. rewrite <- Hkey.
    split; [exact Hlook|].
    apply (group_In _ _ _ _ m HG Hlook). repeat split; [now left | exact Hhas].
Qed.

Lemma C10_leite_witness :
  manualItem (E := Sample.engine) "id-0" "Leite Integral" "4,5" "1 L"
  = Some Sample.leite /\
  category Sample.leite = Some (JS.asciiLower (firstWord "Leite Integral")) /\
  exists G group,
    comparisonGroups (E := Sample.engine)
      (handleAddManualItem (E := Sample.engine) "id-0" "Leite Integral" "4,5" "1 L" [])
    = JS.Normal G /\
    G !! "leite" = Some group /\ In Sample.leite group.
Proof.
  assert (Hm : manualItem (E := Sample.engine) "id-0" "Leite Integral" "4,5" "1 L"
               = Some Sample.leite)
    by (vm_compute; reflexivity).
  split; [exact Hm|].
  destruct (C10_manual_entry_category_and_group engine_laws _ _ _ _ _ Hm)
    as (_ & Hcat & Hplain & Hascii & Hgroup).
  split.
  - destruct (Hplain eq_refl) as [Hword _]. destruct (Hascii eq_refl) as [Hd _].
    now rewrite Hcat, Hd, Hword.
  - apply (Hgroup (Sample.num "1")).
    + reflexivity.
    + reflexivity.
    + intros item [<-|[]] _. vm_compute. discriminate.
Defined.

(** C10 as stated fails, for every engine.  A name typed with a leading
    space gets the empty category, not its first word, and its entry is
    grouped under ["outros"]; a size of ["0g"] yields a measure value and a
    unit, and the entry is in no group. *)
Lemma C10_manual_entry_counterexample :
  (forall E : JS.Engine, JS.EngineLaws E ->
     manualItem "id-0" " Leite Integral" "4,5" "1 L" = Some Sample.leiteLeadingSpace /\
     comparisonGroups (handleAddManualItem "id-0" " Leite Integral" "4,5" "1 L" [])
     = JS.Normal {[ "outros" := [Sample.leiteLeadingSpace] ]} /\
     manualItem "id-0" "Leite" "4,5" "0g" = Some Sample.leiteZero /\
     comparisonGroups (handleAddManualItem "id-0" "Leite" "4,5" "0g" [])
     = JS.Normal ∅) /\
  firstWord " Leite Integral" = "Leite" /\
  category Sample.leiteLeadingSpace = Some "" /\
  measureValue Sample.leiteZero = Some (JS.ofZ 0) /\
  measureUnit Sample.leiteZero = Some "g".
Proof.
  split; [|repeat split; vm_compute; reflexivity].
  intros E laws.
  assert (H1 : manualItem "id-0" " Leite Integral" "4,5" "1 L"
               = Some Sample.leiteLeadingSpace)
    by (rewrite (manualItem_ascii laws) by reflexivity; vm_compute; reflexivity).
  assert (H2 : manualItem "id-0" "Leite" "4,5" "0g" = Some Sample.leiteZero)
    by (rewrite (manualItem_ascii laws) by reflexivity; vm_compute; reflexivity).
  unfold handleAddManualItem. rewrite H1, H2.
  repeat split; vm_compute; reflexivity.
Qed.

(** With an engine that lowers the accented capitals, the category derived
    from the name ["Óleo Liza"] is ["óleo"].  The size is read by
    [parseFloat] into binary64: a size too small for the format is the
    measure value 0, and its entry is in no group; and the white space of
    the size pattern includes the no-break space. *)
Lemma manual_size_is_rounded :
  (exists m,
     manualItem (E := Sample.engine) "id-0" "Óleo Liza" "7,99" "900ml" = Some m /\
     category m = Some "óleo") /\
  (exists m,
     manualItem (E := Sample.engine) "id-0" "Sal" "1"
       ("0." +:+ JS.mapChars (fun _ => "0"%char) (pretty (10 ^ 399)%Z) +:+ "1g")
     = Some m /\
     measureValue m = Some (JS.ofZ 0) /\ hasMeasure m = false) /\
  (exists m,
     manualItem (E := Sample.engine) "id-0" "Sal" "1"
       (String "1" (String (ascii_of_nat 194) (String (ascii_of_nat 160) "kg")))
     = Some m /\
     measureValue m = Some (JS.ofZ 1) /\ measureUnit m = Some "kg").
Proof.
  split; [eexists; split; vm_compute; reflexivity|].
  split; eexists; (split; [vm_compute; reflexivity|]); split; vm_compute; reflexivity.
Qed.

(** ** Shared text *)

Section ShareStringFacts.

Implicit Types (a b c s t : string).

Lemma isDigit_not_LF (x : ascii) : JS.isDigit x = true -> negb (Ascii.eqb x LF) = true.
Proof. destruct x as [[] [] [] [] [] [] [] []]; vm_compute; congruence. Qed.

Lemma splitLines_single a : noLineBreak a = true -> splitLines a = [a].
Proof.
  unfold noLineBreak. induction a as [|x a IH]; simpl; [reflexivity|].
  intros H. apply andb_prop in H as [Hx Ha]. apply negb_true_iff in Hx.
  now rewrite Hx, (IH Ha).
Qed.

Lemma splitLines_break a b :
  noLineBreak a = true -> splitLines (a +:+ String LF b) = a :: splitLines b.
Proof.
  unfold noLineBreak. induction a as [|x a IH].
  - intros _. reflexivity.
  - rewrite append_cons. simpl.
    intros H. apply andb_prop in H as [Hx Ha]. apply negb_true_iff in Hx.
    now rewrite Hx, (IH Ha).
Qed.

Lemma splitLines_join (lines : list string) (rest : string) :
  lines <> [] ->
  Forall (fun line => noLineBreak line = true) lines ->
  splitLines (join (String LF "") lines +:+ String LF rest)
  = lines ++ splitLines rest.
Proof.
  intros Hne Hall. induction Hall as [|x lines Hx Hall IH]; [congruence|].
  destruct lines as [|y lines].
  - simpl. now apply splitLines_break.
  - change (join (String LF "") (x :: y :: lines))
      with (x +:+ String LF (join (String LF "") (y :: lines))).
    rewrite append_assoc.
    change (String LF (join (String LF "") (y :: lines)) +:+ String LF rest)
      with (String LF (join (String LF "") (y :: lines) +:+ String LF rest)).
    rewrite (splitLines_break _ _ Hx), IH by discriminate. reflexivity.
Qed.

(** The lines of a text laid out like the shared one. *)
Lemma splitLines_layout (title final : string) (lines : list string) :
  noLineBreak title = true ->
  lines <> [] ->
  Forall (fun line => noLineBreak line = true) lines ->
  noLineBreak final = true ->
  splitLines (title +:+ String LF (String LF "") +:+ join (String LF "") lines
              +:+ String LF (String LF "") +:+ final)
  = title :: "" :: lines ++ [""; final].
Proof.
  intros Htitle Hne Hlines Hfinal.
  change (String LF (String LF "") +:+ join (String LF "") lines
          +:+ String LF (String LF "") +:+ final)
    with (String LF (String LF (join (String LF "") lines
                                +:+ String LF (String LF final)))).
  rewrite (splitLines_break _ _ Htitle).
  change (splitLines (String LF (join (String LF "") lines
                                 +:+ String LF (String LF final))))
    with ("" :: splitLines (join (String LF "") lines
                            +:+ String LF (String LF final))).
  rewrite (splitLines_join _ _ Hne Hlines).
  change (splitLines (String LF final)) with ("" :: splitLines final).
  now rewrite (splitLines_single _ Hfinal).
Qed.

Lemma stripPrefix_app a b : stripPrefix a (a +:+ b) = Some b.
Proof.
  induction a as [|x a IH]; [now destruct b|].
  rewrite append_cons. simpl. now rewrite Ascii.eqb_refl.
Qed.

Lemma stripFinalAsterisk_app a : stripFinalAsterisk (a +:+ "*") = Some a.
Proof.
  induction a as [|x a IH]; [reflexivity|].
  change (String x a +:+ "*") with (String x (a +:+ "*")).
  cbn [stripFinalAsterisk]. rewrite IH.
  destruct (a +:+ "*") eqn:E; [|reflexivity].
  destruct a; discriminate.
Qed.

(** *** Decimal digits *)

Lemma digitsValueFrom_app (acc : Z) a b :
  JS.digitsValueFrom acc (a +:+ b) = JS.digitsValueFrom (JS.digitsValueFrom acc a) b.
Proof.
  revert acc. induction a as [|x a IH]; intros acc; [reflexivity|].
  rewrite append_cons. simpl. apply IH.
Qed.

Lemma pretty_N_char_digit (d : N) :
  JS.isDigit (pretty_N_char d) = true /\
  ((d < 10)%N -> JS.digitValue (pretty_N_char d) = Z.of_N d).
Proof.
  split.
  - unfold pretty_N_char. repeat case_match; reflexivity.
  - intros H.
    assert (d = 0 \/ d = 1 \/ d = 2 \/ d = 3 \/ d = 4 \/ d = 5
            \/ d = 6 \/ d = 7 \/ d = 8 \/ d = 9)%N as Hd by lia.
    repeat (destruct Hd as [->|Hd]; [reflexivity|]). now subst.
Qed.

Lemma pretty_N_go_digits (x : N) : forall s,
  exists t,
    pretty_N_go x s = t +:+ s /\
    allChars JS.isDigit t = true /\
    ((0 < x)%N -> t <> "") /\
    forall acc : Z,
      JS.digitsValueFrom acc t
      = (acc * 10 ^ Z.of_nat (String.length t) + Z.of_N x)%Z.
Proof.
  induction (N.lt_wf_0 x) as [x _ IH]. intros s.
  destruct (N.eq_dec x 0%N) as [->|Hx].
  - exists "". rewrite pretty_N_go_0. repeat split; [lia|].
    intros acc. simpl. lia.
  - assert (Hpos : (0 < x)%N) by lia.
    rewrite (pretty_N_go_step x s Hpos).
    destruct (IH (x `div` 10)%N (N.div_lt x 10 Hpos eq_refl)
                 (String (pretty_N_char (x `mod` 10)) s))
      as (t & Ht & Hdigits & _ & Hvalue).
    destruct (pretty_N_char_digit (x `mod` 10)%N) as [Hd Hv].
    specialize (Hv (N.mod_lt x 10 ltac:(lia))).
    exists (t +:+ String (pretty_N_char (x `mod` 10)) "").
    split; [rewrite Ht, append_assoc; reflexivity|].
    split; [rewrite allChars_app, Hdigits; simpl; now rewrite Hd|].
    split; [intros _; destruct t; discriminate|].
    intros acc. rewrite digitsValueFrom_app, Hvalue, length_append.
    cbn [JS.digitsValueFrom String.length]. rewrite Hv.
    rewrite Nat2Z.inj_add, Z.pow_add_r by lia.
    pose proof (N.div_mod x 10 ltac:(lia)) as Hdm.
    assert (Hz : Z.of_N x = (10 * Z.of_N (x `div` 10) + Z.of_N (x `mod` 10))%Z) by lia.
    rewrite Hz. change (10 ^ Z.of_nat 1)%Z with 10%Z. ring.
Qed.

Lemma integerToString_digits (n : Z) :
  (0 <= n)%Z ->
  integerToString n <> "" /\
  allChars JS.isDigit (integerToString n) = true /\
  JS.digitsValue (integerToString n) = n.
Proof.
  intros Hn. destruct n as [|p|p]; [repeat split; discriminate | | lia].
  unfold integerToString.
  change (pretty (Z.pos p)) with (pretty_N_go (N.pos p) "").
  destruct (pretty_N_go_digits (N.pos p) "") as (t & -> & Hdigits & Hne & Hvalue).
  rewrite append_empty_r. split; [apply Hne; lia|]. split; [exact Hdigits|].
  unfold JS.digitsValue. rewrite Hvalue. simpl. lia.
Qed.

End ShareStringFacts.

Section ShareFacts.

Variable formatCurrency : JS.number -> string.
Hypothesis formatCurrency_line : forall q, noLineBreak (formatCurrency q) = true.

Lemma leadingQuantity_itemLine (item : CartItem) :
  (0 <= quantity item)%Z ->
  leadingQuantity (itemLine formatCurrency item) = Some (quantity item).
Proof.
  intros Hq. destruct (integerToString_digits _ Hq) as (Hne & Hdigits & Hvalue).
  unfold leadingQuantity, itemLine.
  change ("x " +:+ productName item +:+ " - "
          +:+ formatCurrency (JS.mul (price item) (JS.ofZ (quantity item))))
    with (String "x" (" " +:+ productName item +:+ " - "
                      +:+ formatCurrency (JS.mul (price item) (JS.ofZ (quantity item))))).
  rewrite (span_digits _ "x" _ Hdigits eq_refl), Hvalue.
  destruct (integerToString (quantity item)); [congruence | reflexivity].
Qed.

Lemma itemLine_noLineBreak (item : CartItem) :
  (0 <= quantity item)%Z ->
  noLineBreak (productName item) = true ->
  noLineBreak (itemLine formatCurrency item) = true.
Proof.
  intros Hq Hname. destruct (integerToString_digits _ Hq) as (_ & Hdigits & _).
  unfold noLineBreak, itemLine in *. rewrite !allChars_app.
  rewrite (allChars_impl _ _ _ isDigit_not_LF Hdigits), Hname.
  fold (noLineBreak (formatCurrency (JS.mul (price item) (JS.ofZ (quantity item))))).
  now rewrite formatCurrency_line.
Qed.

Lemma sumQuantities_itemLines (items : list CartItem) :
  Forall (fun item => (0 <= quantity item)%Z) items ->
  sumQuantities (map (itemLine formatCurrency) items)
  = Some (sumZ (map quantity items)).
Proof.
  induction 1 as [|item items Hq _ IH]; [reflexivity|].
  cbn [map sumQuantities]. now rewrite (leadingQuantity_itemLine item Hq), IH.
Qed.

Lemma amountOfTotalLine_total (amount : string) :
  amountOfTotalLine (totalLabel +:+ amount +:+ "*") = Some amount.
Proof.
  unfold amountOfTotalLine. rewrite stripPrefix_app.
  apply stripFinalAsterisk_app.
Qed.

End ShareFacts.

(** C9 (as amended). For every non-empty cart whose product names contain
    no line break and whose quantities are non-negative integers below
    10^21, and for a currency formatter that writes no line break, the text
    is shared and reading it back, the number at the start of each item line
    and the amount of the final total line, gives the item count of the cart
    and its total cost as displayed, that is, formatted as currency. *)
Theorem C9_share_text_read_back
    (formatCurrency : JS.number -> string) (items : list CartItem) :
  (forall q, noLineBreak (formatCurrency q) = true) ->
  items <> [] ->
  Forall (fun item => noLineBreak (productName item) = true
                      /\ (0 <= quantity item < 10 ^ 21)%Z) items ->
  exists text,
    handleShareList formatCurrency items = Some text /\
    parseShare text = Some (itemCount items, formatCurrency (totalCost items)).
Proof.
  intros Hformat Hne Hitems.
  assert (Hq : Forall (fun item => (0 <= quantity item)%Z) items).
  { eapply List.Forall_impl; [|exact Hitems]. intros item [_ H]. lia. }
  assert (Hlines : Forall (fun line => noLineBreak line = true)
                     (map (itemLine formatCurrency) items)).
  { apply List.Forall_map. eapply List.Forall_impl; [|exact Hitems].
    intros item [Hname Hquantity].
    apply itemLine_noLineBreak; [exact Hformat | lia | exact Hname]. }
  set (final := totalLabel +:+ formatCurrency (totalCost items) +:+ "*").
  assert (Hfinal : noLineBreak final = true).
  { unfold final, noLineBreak. rewrite !allChars_app.
    fold (noLineBreak (formatCurrency (totalCost items))).
    rewrite Hformat. reflexivity. }
  exists (shareTitle +:+ String LF (String LF "")
          +:+ join (String LF "") (map (itemLine formatCurrency) items)
          +:+ String LF (String LF "") +:+ final).
  split.
  - unfold handleShareList. destruct items; [congruence | reflexivity].
  - unfold parseShare.
    rewrite (splitLines_layout shareTitle final _ eq_refl); try assumption.
    + rewrite rev_app_distr. cbn [rev app].
      rewrite rev_involutive, (sumQuantities_itemLines _ _ Hq).
      unfold final. rewrite amountOfTotalLine_total.
      now rewrite itemCount_sum.
    + destruct items; [congruence | discriminate].
Qed.

Lemma C9_arroz_witness :
  exists text,
    handleShareList Sample.formatCurrency Sample.arrozCart = Some text /\
    parseShare text = Some (3%Z, "R$ 3900 centavos").
Proof.
  apply (C9_share_text_read_back Sample.formatCurrency Sample.arrozCart).
  - intros q. unfold Sample.formatCurrency, noLineBreak.
    rewrite !allChars_app.
    assert (Hpretty : forall z : Z,
               allChars (fun c => negb (Ascii.eqb c LF)) (pretty z) = true).
    { intros [|p|p].
      - reflexivity.
      - destruct (integerToString_digits (Z.pos p) ltac:(lia)) as (_ & Hd & _).
        exact (allChars_impl _ _ _ isDigit_not_LF Hd).
      - change (pretty (Z.neg p)) with ("-" +:+ integerToString (Z.pos p)).
        rewrite allChars_app.
        destruct (integerToString_digits (Z.pos p) ltac:(lia)) as (_ & Hd & _).
        now rewrite (allChars_impl _ _ _ isDigit_not_LF Hd). }
    now rewrite Hpretty.
  - discriminate.
  - repeat constructor; simpl; lia.
Defined.

(** The shared text does not determine the cart: a name containing a line
    break can spell out further item lines. *)
Lemma share_text_ambiguous (formatCurrency : JS.number -> string) :
  handleShareList formatCurrency (Sample.trickCartFor formatCurrency)
  = handleShareList formatCurrency Sample.plainCart.
Proof.
  unfold handleShareList, Sample.trickCartFor, Sample.plainCart, itemLine.
  cbn [map join productName quantity price].
  change (totalCost _) with (JS.ofZ 5) at 1.
  change (totalCost _) with (JS.ofZ 5).
  change (JS.mul (JS.ofZ 5) (JS.ofZ 1)) with (JS.ofZ 5).
  change (JS.mul (JS.ofZ 1) (JS.ofZ 5)) with (JS.ofZ 5).
  change (JS.mul (JS.ofZ 0) (JS.ofZ 1)) with (JS.ofZ 0).
  f_equal. rewrite !append_assoc. reflexivity.
Qed.

(** C9 as stated fails: a cart of one item and a cart of six items are
    shared as the same text, which reads back as six items. *)
Lemma C9_line_break_counterexample :
  handleShareList Sample.formatCurrency Sample.trickCart
  = handleShareList Sample.formatCurrency Sample.plainCart /\
  itemCount Sample.trickCart = 1%Z /\
  itemCount Sample.plainCart = 6%Z /\
  exists text,
    handleShareList Sample.formatCurrency Sample.trickCart = Some text /\
    parseShare text = Some (6%Z, "R$ 500 centavos").
Proof.
  split; [exact (share_text_ambiguous Sample.formatCurrency)|].
  split; [reflexivity|]. split; [reflexivity|].
  eexists. split; vm_compute; reflexivity.
Qed.

(** * Further properties of the cart store *)

Section StoreAlgebra.

Implicit Types (item x : CartItem) (prev pre post items : list CartItem).

Lemma sumZ_app (a b : list Z) : sumZ (a ++ b) = (sumZ a + sumZ b)%Z.
Proof. induction a as [|q a IH]; simpl; lia. Qed.

Lemma itemCount_app pre post :
  itemCount (pre ++ post) = (itemCount pre + itemCount post)%Z.
Proof. rewrite !itemCount_sum, map_app. apply sumZ_app. Qed.

Lemma itemCount_cons item items :
  itemCount (item :: items) = (quantity item + itemCount items)%Z.
Proof. rewrite !itemCount_sum. reflexivity. Qed.

Lemma handleUpdateItem_length target updates prev :
  length (handleUpdateItem target updates prev) = length prev.
Proof. unfold handleUpdateItem. apply length_map. Qed.

Lemma handleUpdateItem_ids target updates prev :
  u_id updates = None ->
  map id (handleUpdateItem target updates prev) = map id prev.
Proof.
  intros Hid. unfold handleUpdateItem. rewrite map_map. apply map_ext.
  intros x. destruct (String.eqb (id x) target); [|reflexivity].
  simpl. now rewrite Hid.
Qed.

End StoreAlgebra.

(** X1. Removing an identifier leaves no entry that carries it and keeps every
    other entry, is idempotent, and lowers the item count by exactly the
    quantities of the removed entries. *)
Theorem remove_drops_exactly_the_entry (target : string) (items : list CartItem) :
  (forall x, In x (handleRemoveItem target items) <-> In x items /\ id x <> target) /\
  handleRemoveItem target (handleRemoveItem target items)
  = handleRemoveItem target items /\
  itemCount (handleRemoveItem target items)
  = (itemCount items - sumZ (map quantity (withId target items)))%Z.
Proof.
  split; [|split].
  - intros x. unfold handleRemoveItem. rewrite List.filter_In.
    destruct (String.eqb_spec (id x) target); simpl; intuition congruence.
  - apply handleRemoveItem_others. intros x Hx.
    now apply handleRemoveItem_absent in Hx.
  - induction items as [|y items IH]; [reflexivity|].
    unfold handleRemoveItem, withId in *. cbn [List.filter].
    destruct (String.eqb (id y) target); cbn [negb map sumZ fold_right].
    + rewrite IH, itemCount_cons. unfold sumZ. lia.
    + rewrite !itemCount_cons, IH. lia.
Qed.

(** X2. An update never adds or removes an entry; when no entry carries the
    identifier it changes nothing. *)
Theorem update_of_absent_id_is_noop
    (target : string) (updates : CartItemUpdates) (items : list CartItem) :
  length (handleUpdateItem target updates items) = length items /\
  ((forall x, In x items -> id x <> target) ->
   handleUpdateItem target updates items = items).
Proof.
  split; [apply handleUpdateItem_length | apply handleUpdateItem_others].
Qed.

Lemma update_of_absent_id_witness :
  handleUpdateItem "id-9" (mkUpdates None None None (Some 7%Z) None None None)
    Sample.arrozCart = Sample.arrozCart.
Proof.
  apply (proj2 (update_of_absent_id_is_noop "id-9"
                  (mkUpdates None None None (Some 7%Z) None None None)
                  Sample.arrozCart)).
  intros x [<-|[<-|[<-|[]]]]; discriminate.
Defined.

(** X3. Incrementing a row and then decrementing it gives back the cart, for an
    entry of quantity at least 1 whose identifier no other entry carries;
    incrementing adds 1 to the item count. *)
Theorem increment_then_decrement (pre post : list CartItem) (item : CartItem) :
  (forall x, In x (pre ++ post) -> id x <> id item) ->
  (1 <= quantity item)%Z ->
  let cart := pre ++ item :: post in
  exists raised,
    handleIncrement item cart = pre ++ raised :: post /\
    quantity raised = (quantity item + 1)%Z /\
    handleDecrement raised (handleIncrement item cart) = cart /\
    itemCount (handleIncrement item cart) = (itemCount cart + 1)%Z.
Proof.
  intros Hothers Hq cart.
  assert (Hpre : forall x, In x pre -> id x <> id item)
    by (intros x Hx; apply Hothers, in_or_app; now left).
  assert (Hpost : forall x, In x post -> id x <> id item)
    by (intros x Hx; apply Hothers, in_or_app; now right).
  set (raised := {| id := id item; productName := productName item;
                    price := price item; quantity := quantity item + 1;
                    category := category item;
                    measureValue := measureValue item;
                    measureUnit := measureUnit item |}).
  assert (Hinc : handleIncrement item cart = pre ++ raised :: post).
  { unfold handleIncrement, cart.
    rewrite handleUpdateItem_app, (handleUpdateItem_others _ _ pre Hpre).
    f_equal. unfold handleUpdateItem at 1. simpl. rewrite String.eqb_refl.
    f_equal. apply (handleUpdateItem_others _ _ post Hpost). }
  exists raised. split; [exact Hinc|]. split; [reflexivity|]. split.
  - rewrite Hinc. unfold handleDecrement.
    assert (Hlt : (1 <? quantity raised)%Z = true) by (apply Z.ltb_lt; simpl; lia).
    rewrite Hlt. change (id raised) with (id item).
    rewrite handleUpdateItem_app, (handleUpdateItem_others _ _ pre Hpre).
    unfold cart. f_equal. unfold handleUpdateItem at 1. simpl.
    rewrite String.eqb_refl. f_equal.
    + destruct item. unfold applyUpdates. simpl. f_equal. lia.
    + apply (handleUpdateItem_others _ _ post Hpost).
  - rewrite Hinc. unfold cart.
    rewrite !itemCount_app, !itemCount_cons. simpl. lia.
Qed.

Lemma increment_then_decrement_witness :
  exists raised,
    handleIncrement Sample.arrozBom Sample.arrozCart
    = [Sample.avulso] ++ raised :: [Sample.arrozTio] /\
    quantity raised = 2%Z /\
    handleDecrement raised (handleIncrement Sample.arrozBom Sample.arrozCart)
    = Sample.arrozCart.
Proof.
  destruct (increment_then_decrement [Sample.avulso] [Sample.arrozTio] Sample.arrozBom)
    as (raised & H1 & H2 & H3 & _).
  - intros x [<-|[<-|[]]]; discriminate.
  - simpl. lia.
  - exists raised. split; [exact H1|]. split; [exact H2 | exact H3].
Defined.

(** X4. Editing a name changes neither the number of entries, nor their
    identifiers, nor the totals; a text that trims to the current name
    changes nothing at all. *)
Theorem rename_keeps_totals (item : CartItem) (tempName : string)
    (items : list CartItem) :
  length (handleNameBlur item tempName items) = length items /\
  map id (handleNameBlur item tempName items) = map id items /\
  map lineTotal (handleNameBlur item tempName items) = map lineTotal items /\
  totalCost (handleNameBlur item tempName items) = totalCost items /\
  itemCount (handleNameBlur item tempName items) = itemCount items /\
  (JS.trim tempName = productName item ->
   handleNameBlur item tempName items = items).
Proof.
  assert (Hlines : map lineTotal (handleNameBlur item tempName items)
                   = map lineTotal items).
  { unfold handleNameBlur. destruct (String.eqb _ _); [reflexivity|].
    unfold handleUpdateItem. rewrite map_map. apply map_ext.
    intros x. now destruct (String.eqb (id x) (id item)). }
  assert (Hqs : map quantity (handleNameBlur item tempName items)
                = map quantity items).
  { unfold handleNameBlur. destruct (String.eqb _ _); [reflexivity|].
    unfold handleUpdateItem. rewrite map_map. apply map_ext.
    intros x. now destruct (String.eqb (id x) (id item)). }
  split; [|split; [|split; [exact Hlines|split; [|split]]]].
  - unfold handleNameBlur. destruct (String.eqb _ _); [reflexivity|].
    apply handleUpdateItem_length.
  - unfold handleNameBlur. destruct (String.eqb _ _); [reflexivity|].
    now apply handleUpdateItem_ids.
  - now rewrite !totalCost_sum, Hlines.
  - now rewrite !itemCount_sum, Hqs.
  - intros Hsame. unfold handleNameBlur. rewrite Hsame.
    now rewrite String.eqb_refl.
Qed.

Lemma rename_keeps_totals_witness :
  handleNameBlur Sample.arrozBom "  Arroz Bom " Sample.arrozCart = Sample.arrozCart.
Proof.
  apply (rename_keeps_totals Sample.arrozBom "  Arroz Bom " Sample.arrozCart).
  reflexivity.
Defined.

(** * Identifiers stay distinct *)

Section IdInvariant.

Context {E : JS.Engine} {File World : Type}.
Variable analyze : File -> World -> JS.Completion ScannedItem * World.
Variable uuidv4 : World -> string * World.
Variable issued : World -> string -> Prop.
Hypothesis Hfresh : freshIds uuidv4 issued.
Hypothesis Hanalyze : forall f w s, issued w s -> issued (snd (analyze f w)) s.

Lemma distinctIssued_later (items : list CartItem) (w w' : World) :
  (forall s, issued w s -> issued w' s) ->
  distinctIssued issued items w -> distinctIssued issued items w'.
Proof.
  intros Hmono [Hnd Hall]. split; [exact Hnd|].
  eapply List.Forall_impl; [|exact Hall]. exact Hmono.
Qed.

Lemma distinctIssued_fresh (items : list CartItem) (w : World) (new : CartItem) :
  id new = fst (uuidv4 w) ->
  distinctIssued issued items w ->
  distinctIssued issued (new :: items) (snd (uuidv4 w)).
Proof.
  intros Hid [Hnd Hall]. destruct (Hfresh w) as (Hnot & Hnow & Hmono).
  split; simpl.
  - constructor; [|exact Hnd]. rewrite Hid. intros Hin.
    rewrite List.Forall_forall in Hall. exact (Hnot (Hall _ Hin)).
  - constructor; [now rewrite Hid|].
    eapply List.Forall_impl; [|exact Hall]. exact Hmono.
Qed.

Lemma distinctIssued_same_ids (items items' : list CartItem) (w : World) :
  map id items' = map id items ->
  distinctIssued issued items w -> distinctIssued issued items' w.
Proof. unfold distinctIssued. now intros ->. Qed.

Lemma distinctIssued_filter (p : CartItem -> bool) (items : list CartItem) (w : World) :
  distinctIssued issued items w -> distinctIssued issued (List.filter p items) w.
Proof.
  intros [Hnd Hall]. induction items as [|x items IH]; [now split|].
  simpl in Hnd, Hall. apply List.NoDup_cons_iff in Hnd as [Hx Hnd].
  apply List.Forall_cons_iff in Hall as [Hix Hall].
  destruct (IH Hnd Hall) as [IH1 IH2]. simpl.
  destruct (p x); [|now split]. split; simpl.
  - constructor; [|exact IH1]. intros Hin. apply Hx.
    apply in_map_iff in Hin as (y & Hy & Hin).
    apply List.filter_In in Hin as [Hin _].
    rewrite <- Hy. now apply in_map.
  - now constructor.
Qed.

Lemma distinctIssued_middle (new : CartItem) (front back : list CartItem) (w : World) :
  distinctIssued issued (new :: front ++ back) w ->
  distinctIssued issued ((front ++ [new]) ++ back) w.
Proof.
  assert (Hperm : Permutation (map id (new :: front ++ back))
                              (map id ((front ++ [new]) ++ back))).
  { rewrite <- app_assoc. simpl. rewrite !map_app. simpl.
    apply Permutation_middle. }
  intros [Hnd Hall]. split.
  - exact (Permutation_NoDup Hperm Hnd).
  - exact (Permutation_Forall Hperm Hall).
Qed.

Lemma loop_distinctIssued (prev : list CartItem) total files : forall st i,
  distinctIssued issued (newItems st ++ prev) (world st) ->
  distinctIssued issued
    (newItems (loop analyze uuidv4 total st i files) ++ prev)
    (world (loop analyze uuidv4 total st i files)).
Proof.
  induction files as [|file rest IH]; intros st i Hst; [exact Hst|].
  cbn [loop]. apply IH. unfold iteration.
  pose proof (Hanalyze file (world st)) as Hmono.
  destruct (analyze file (world st)) as [[result|e] w1]; cbn [snd] in Hmono.
  - pose proof (distinctIssued_fresh (newItems st ++ prev) w1
                  (newCartItem (fst (uuidv4 w1)) result) eq_refl
                  (distinctIssued_later _ _ _ Hmono Hst)) as Hnew.
    destruct (uuidv4 w1) as [newId w2]. cbn [newItems world fst snd] in *.
    now apply distinctIssued_middle.
  - cbn [newItems world]. exact (distinctIssued_later _ _ _ Hmono Hst).
Qed.

Lemma handleFileChange_world files w :
  snd (handleFileChange analyze uuidv4 files w)
  = match files with
    | [] => w
    | _ =>
        world
          (loop analyze uuidv4 (length files)
             {| newItems := []; errorMsg := None;
                emitted := [SetStatus (mkStatus true None);
                            SetAnalyzingProgress (Some (0, length files)%nat)];
                world := w |} 0 files)
    end.
Proof. now destruct files. Qed.

Lemma step_distinctIssued (st : AppState) (w : World) (e : Event File) :
  writesId e = false ->
  distinctIssued issued (items st) w ->
  distinctIssued issued (items (fst (step analyze uuidv4 (st, w) e)))
    (snd (step analyze uuidv4 (st, w) e)).
Proof.
  intros He Hst. destruct e; cbn [step].
  - pose proof (distinctIssued_fresh (items st) w) as Hnew.
    destruct (uuidv4 w) as [newId w'] eqn:Hid. cbn [fst snd] in *.
    unfold setItems, handleAddManualItem. cbn [items].
    destruct (manualItem newId manualName manualPrice manualSize) as [m|] eqn:Hm.
    + apply Hnew; [|exact Hst].
      exact (manualItem_id _ _ _ _ _ Hm).
    + destruct (Hfresh w) as (_ & _ & Hmono). rewrite Hid in Hmono.
      exact (distinctIssued_later _ _ _ Hmono Hst).
  - pose proof (handleFileChange_items analyze uuidv4 files w st) as Hitems.
    pose proof (handleFileChange_world files w) as Hworld.
    destruct (handleFileChange analyze uuidv4 files w) as [actions w'].
    cbn [fst snd] in *. rewrite Hitems, Hworld.
    destruct files as [|file rest]; [exact Hst|].
    apply loop_distinctIssued. exact Hst.
  - unfold onRow. cbn [fst snd].
    destruct (nth_error (items st) row) as [item|]; [|exact Hst].
    apply (distinctIssued_same_ids (items st)); [|exact Hst].
    now apply handleUpdateItem_ids.
  - unfold onRow. cbn [fst snd].
    destruct (nth_error (items st) row) as [item|]; [|exact Hst].
    unfold setItems, handleDecrement. cbn [items].
    destruct (1 <? quantity item)%Z.
    + apply (distinctIssued_same_ids (items st)); [|exact Hst].
      now apply handleUpdateItem_ids.
    + now apply distinctIssued_filter.
  - unfold onRow. cbn [fst snd].
    destruct (nth_error (items st) row) as [item|]; [|exact Hst].
    unfold setItems, handleNameBlur. cbn [items].
    destruct (String.eqb _ _); [exact Hst|].
    apply (distinctIssued_same_ids (items st)); [|exact Hst].
    now apply handleUpdateItem_ids.
  - cbn [fst snd]. apply (distinctIssued_same_ids (items st)); [|exact Hst].
    apply handleUpdateItem_ids. unfold writesId in He.
    apply bool_decide_eq_false in He.
    destruct (u_id updates) as [s|]; [|reflexivity].
    exfalso. apply He. now exists s.
  - cbn [fst snd]. now apply distinctIssued_filter.
  - cbn [fst snd]. split; constructor.
  - exact Hst.
  - exact Hst.
Qed.

Lemma run_distinctIssued (events : list (Event File)) :
  forallb (fun e => negb (writesId e)) events = true ->
  forall (st : AppState) (w : World),
    distinctIssued issued (items st) w ->
    distinctIssued issued (items (fst (run analyze uuidv4 events (st, w))))
      (snd (run analyze uuidv4 events (st, w))).
Proof.
  unfold run.
  induction events as [|e events IH]; intros Hev st w Hst; [exact Hst|].
  cbn [fold_left]. simpl in Hev. apply andb_prop in Hev as [He Hev].
  apply negb_true_iff in He.
  pose proof (step_distinctIssued st w e He Hst) as Hstep.
  destruct (step analyze uuidv4 (st, w) e) as [st' w'].
  now apply IH.
Qed.

End IdInvariant.

(** X5. When the identifier generator never repeats itself and the analysis
    does not take identifiers back, the entries of every cart reached from
    the empty one carry pairwise distinct identifiers, whatever the user
    does (no event writing an identifier directly). *)
Theorem identifiers_stay_distinct {E : JS.Engine} {File World : Type}
    (analyze : File -> World -> JS.Completion ScannedItem * World)
    (uuidv4 : World -> string * World)
    (issued : World -> string -> Prop)
    (events : list (Event File)) (w : World) :
  freshIds uuidv4 issued ->
  (forall f w s, issued w s -> issued (snd (analyze f w)) s) ->
  forallb (fun e => negb (writesId e)) events = true ->
  List.NoDup (map id (items (fst (run analyze uuidv4 events (initialState, w))))).
Proof.
  intros Hfresh Hanalyze Hev.
  apply (run_distinctIssued analyze uuidv4 issued Hfresh Hanalyze events Hev
           initialState w).
  split; constructor.
Qed.

Lemma Sample_freshIds : freshIds Sample.uuidv4 Sample2.issued.
Proof.
  intros w. unfold Sample.uuidv4, Sample2.issued. cbn [fst snd].
  split; [|split].
  - intros (n & Hn & Heq). apply (inj (String.append "id-")) in Heq.
    apply (inj pretty) in Heq. subst n. exact (Nat.lt_irrefl _ Hn).
  - exists w. split; [lia | reflexivity].
  - intros s (n & Hn & ->). exists n. split; [lia | reflexivity].
Qed.

Lemma Sample_analyze_keeps_ids (f : string) (w : nat) (s : string) :
  Sample2.issued w s -> Sample2.issued (snd (Sample.analyze f w)) s.
Proof.
  intros (n & Hn & ->). exists n. split; [|reflexivity].
  unfold Sample.analyze, analyzeProductImage, Sample.fileToBase64,
    Sample.generateContent. simpl.
  destruct f as [|c f]; simpl; [lia|].
  destruct (Sample.parseScannedItem (String c f)); simpl; lia.
Qed.

Lemma identifiers_stay_distinct_witness :
  List.NoDup
    (map id (items (fst (run (E := Sample.engine) Sample.analyze Sample.uuidv4
                           Sample.session (initialState, 0%nat))))).
Proof.
  apply (identifiers_stay_distinct (E := Sample.engine)
           Sample.analyze Sample.uuidv4 Sample2.issued
           Sample.session 0%nat).
  - exact Sample_freshIds.
  - exact Sample_analyze_keeps_ids.
  - reflexivity.
Defined.


(** * Further properties of the comparison *)

(** X6. The grouping throws exactly when some measured entry has the key
    ["constructor"]; a manual entry does so as soon as the text before the
    first space of its name spells that word in any case and its size gives
    a non-zero value. *)
Theorem grouping_throws_exactly_on_constructor {E : JS.Engine}
    (laws : JS.EngineLaws E) :
  (forall items : list CartItem,
      (exists e, comparisonGroups items = JS.Throw e)
      <-> exists item, In item items /\ hasMeasure item = true
                       /\ groupKey item = "constructor") /\
  (forall (newId manualName manualPrice manualSize : string) (m : CartItem)
          (v : JS.number) (prev : list CartItem),
      manualItem newId manualName manualPrice manualSize = Some m ->
      JS.toLowerCase (JS.splitSpaceHead manualName) = "constructor" ->
      measureValue m = Some v -> JS.isZero v = false ->
      exists e,
        comparisonGroups
          (handleAddManualItem newId manualName manualPrice manualSize prev)
        = JS.Throw e).
Proof.
  split.
  - intros items. split; [|apply comparisonGroups_throws].
    intros [e He].
    destruct (existsb (fun item => hasMeasure item
                                   && String.eqb (groupKey item) "constructor")
                      items) eqn:Hex.
    + apply existsb_exists in Hex as (item & Hin & Hitem).
      apply andb_prop in Hitem as [Hm Hk]. apply String.eqb_eq in Hk.
      now exists item.
    + destruct (comparisonGroups_completes laws items) as [G HG].
      * intros item Hin Hm Hk.
        assert (Htrue : existsb (fun item => hasMeasure item
                                   && String.eqb (groupKey item) "constructor")
                          items = true).
        { apply existsb_exists. exists item. split; [exact Hin|].
          now rewrite Hm, Hk. }
        congruence.
      * rewrite HG in He. discriminate.
  - intros newId manualName manualPrice manualSize m v prev Hm Hword Hv Hnz.
    destruct (manualItem_fields laws _ _ _ _ _ Hm)
      as (_ & _ & _ & _ & _ & Hcat & Hmeasure).
    destruct Hmeasure as [[Hnone _]|(v' & unit & Hunit & Hu & Hv' & Hnan & _)];
      [congruence|].
    assert (v' = v) as -> by congruence.
    unfold handleAddManualItem. rewrite Hm.
    apply comparisonGroups_throws. exists m. split; [now left|]. split.
    + unfold hasMeasure. rewrite Hv, Hu. cbn [JS.truthyNum].
      rewrite (proj2 (truthy_spec v) (conj Hnan Hnz)).
      now rewrite (nonempty_truthy unit Hunit).
    + rewrite groupKey_spelled, Hcat, Hword.
      rewrite (JS.lower_ascii _ laws) by reflexivity. reflexivity.
Qed.

Lemma grouping_throws_witness :
  exists e,
    comparisonGroups (E := Sample.engine)
      (handleAddManualItem (E := Sample.engine)
         "id-9" "Constructor Set" "120" "90g" Sample.arrozCart)
    = JS.Throw e.
Proof.
  apply (proj2 (grouping_throws_exactly_on_constructor engine_laws)
           "id-9" "Constructor Set" "120" "90g"
           (mkItem "id-9" "Constructor Set" (Sample.num "120") 1 (Some "constructor")
                   (Some (Sample.num "90")) (Some "g"))
           (Sample.num "90") Sample.arrozCart).
  - vm_compute. reflexivity.
  - reflexivity.
  - reflexivity.
  - reflexivity.
Defined.

(** X7. When the grouping completes, no group is empty, and there is no group
    at all exactly when no entry of the cart has a measure: the comparison
    button is offered exactly when something can be compared. *)
Theorem groups_are_never_empty {E : JS.Engine} (items : list CartItem) (G : Groups) :
  comparisonGroups items = JS.Normal G ->
  (forall k group, G !! k = Some group -> group <> []) /\
  (G = ∅ <-> forall item, In item items -> hasMeasure item = false).
Proof.
  intros HG. split; [|split].
  - intros k group Hk ->.
    pose proof (group_Permutation _ _ _ _ HG Hk) as Hperm.
    destruct (comparisonGroups_group _ _ _ _ HG Hk) as [_ Hne].
    apply Permutation_nil in Hperm. contradiction.
  - intros -> item Hin. destruct (hasMeasure item) eqn:Hm; [|reflexivity].
    pose proof (comparisonGroups_lookup _ _ HG (groupKey item)) as Hlook.
    assert (Hmem : In item (members (groupKey item) items))
      by (apply members_In; auto).
    rewrite lookup_empty in Hlook.
    destruct (members (groupKey item) items); [destruct Hmem | discriminate].
  - intros Hnone. apply map_eq. intros k.
    rewrite (comparisonGroups_lookup _ _ HG k), lookup_empty.
    destruct (members k items) as [|x xs] eqn:Hms; [reflexivity|].
    assert (Hx : In x (members k items)) by (rewrite Hms; now left).
    apply members_In in Hx as (Hin & Hm & _).
    rewrite (Hnone x Hin) in Hm. discriminate.
Qed.

Lemma groups_are_never_empty_witness :
  Sample.arrozGroups = ∅
  <-> forall item, In item Sample.arrozCart -> hasMeasure item = false.
Proof.
  apply (groups_are_never_empty (E := Sample.engine) Sample.arrozCart Sample.arrozGroups).
  vm_compute. reflexivity.
Defined.

(** X8. The trophy of the comparison view and the badge of the cart mark the
    same entries: in a cart of distinct identifiers, the entry at position
    [idx] of a group is the view's best one exactly when its row is flagged. *)
Theorem comparison_view_agrees_with_badge {E : JS.Engine}
    (items : list CartItem) (G : Groups) :
  List.NoDup (map id items) ->
  comparisonGroups items = JS.Normal G ->
  forall k group idx item,
    G !! k = Some group ->
    nth_error group idx = Some item ->
    modalIsBest idx group = isBestValue G item.
Proof.
  intros Hids HG k group idx item Hk Hnth.
  pose proof (nth_error_In _ _ Hnth) as Hin.
  pose proof (isBestValue_head items G Hids HG k group item Hk Hin) as Hhead.
  unfold modalIsBest. destruct idx as [|idx].
  - destruct group as [|first rest]; [discriminate|].
    injection Hnth as ->. cbn [Nat.eqb andb].
    destruct rest as [|second rest]; simpl.
    + destruct (isBestValue G item) eqn:Hcase; [|reflexivity].
      destruct (proj1 Hhead eq_refl) as (s & r & [=]).
    + symmetry. apply Hhead. eauto.
  - cbn [Nat.eqb andb].
    destruct (isBestValue G item) eqn:Hcase; [|reflexivity]. exfalso.
    destruct (proj1 Hhead eq_refl) as (s & r & ->).
    pose proof (group_NoDup items G Hids HG k _ Hk) as Hnd.
    apply List.NoDup_cons_iff in Hnd as [Hnot _]. apply Hnot.
    simpl in Hnth. exact (nth_error_In _ _ Hnth).
Qed.

Lemma comparison_view_agrees_with_badge_witness :
  modalIsBest 1 [Sample.riceA; Sample.riceB]
  = isBestValue Sample.riceGroups Sample.riceB.
Proof.
  apply (comparison_view_agrees_with_badge (E := Sample.engine)
           Sample.riceCart Sample.riceGroups)
    with (k := "rice").
  - simpl. constructor; [intros [H|[]]; discriminate|].
    constructor; [intros []|constructor].
  - vm_compute. reflexivity.
  - reflexivity.
  - reflexivity.
Defined.

Section ComparisonNeutral.

Context {E : JS.Engine}.
Variable f : CartItem -> CartItem.
Hypothesis Hf : keepsComparison f.

Lemma keeps_hasMeasure item : hasMeasure (f item) = hasMeasure item.
Proof.
  destruct (Hf item) as (_ & _ & _ & Hv & Hu). unfold hasMeasure.
  now rewrite Hv, Hu.
Qed.

Lemma keeps_groupKey item : groupKey (f item) = groupKey item.
Proof.
  destruct (Hf item) as (_ & _ & Hc & _). unfold groupKey. now rewrite Hc.
Qed.

Lemma keeps_getBasePrice item : getBasePrice (f item) = getBasePrice item.
Proof.
  destruct (Hf item) as (_ & Hp & _ & Hv & Hu). unfold getBasePrice.
  now rewrite Hp, Hv, Hu.
Qed.

Lemma members_map k (items : list CartItem) :
  members k (map f items) = map f (members k items).
Proof.
  unfold members. induction items as [|x items IH]; [reflexivity|].
  cbn [map List.filter]. rewrite keeps_hasMeasure, keeps_groupKey, IH.
  now destruct (hasMeasure x && String.eqb (groupKey x) k).
Qed.

Lemma insertSorted_map x (l : list CartItem) :
  JS.insertSorted comparator (f x) (map f l)
  = map f (JS.insertSorted comparator x l).
Proof.
  induction l as [|y l IH]; [reflexivity|].
  cbn [map JS.insertSorted]. unfold comparator at 1.
  rewrite !keeps_getBasePrice. fold (comparator x y).
  destruct (JS.ltb (JS.ofZ 0) (comparator x y)); [|reflexivity].
  cbn [map]. now rewrite IH.
Qed.

Lemma sort_map (l : list CartItem) :
  JS.sort comparator (map f l) = map f (JS.sort comparator l).
Proof.
  induction l as [|x l IH]; [reflexivity|].
  cbn [map JS.sort fold_right]. fold (JS.sort comparator (map f l)).
  fold (JS.sort comparator l). now rewrite IH, insertSorted_map.
Qed.

Lemma comparisonGroups_map (items : list CartItem) (G : Groups) :
  comparisonGroups items = JS.Normal G ->
  comparisonGroups (map f items) = JS.Normal (map f <$> G).
Proof.
  intros HG.
  destruct (comparisonGroups_returns (map f items)) as [G' HG'].
  { intros y Hy Hm. apply in_map_iff in Hy as (x & <- & Hx).
    rewrite keeps_hasMeasure in Hm. rewrite keeps_groupKey.
    exact (completed_not_inherited items G HG x Hx Hm). }
  rewrite HG'. f_equal. apply map_eq. intros k.
  rewrite lookup_fmap, (comparisonGroups_lookup _ _ HG' k),
    (comparisonGroups_lookup _ _ HG k), members_map.
  destruct (members k items) as [|x xs]; [reflexivity|].
  cbn [map fmap option_fmap option_map].
  now rewrite <- sort_map.
Qed.

Lemma bestValueIds_map (G : Groups) : bestValueIds (map f <$> G) = bestValueIds G.
Proof.
  apply set_eq. intros x. rewrite !elem_of_bestValueIds. split.
  - intros (k & first & second & rest & Hk & ->).
    rewrite lookup_fmap in Hk.
    destruct (G !! k) as [[|a [|b l]]|] eqn:HGk; try discriminate.
    injection Hk as <- _ _. exists k, a, b, l. split; [exact HGk|].
    now destruct (Hf a) as (-> & _).
  - intros (k & first & second & rest & Hk & ->).
    exists k, (f first), (f second), (map f rest). split.
    + now rewrite lookup_fmap, Hk.
    + now destruct (Hf first) as (-> & _).
Qed.

End ComparisonNeutral.

(** X9. Changing quantities or names never moves an entry in the comparison:
    after an update that writes only the name or the quantity, the grouping
    still completes, every group holds the updated entries in the same
    order, and the best-value flags are the same. *)
Theorem quantity_and_name_do_not_move_flags {E : JS.Engine}
    (target : string) (updates : CartItemUpdates)
    (items : list CartItem) (G : Groups) :
  u_id updates = None -> u_price updates = None -> u_category updates = None ->
  u_measureValue updates = None -> u_measureUnit updates = None ->
  comparisonGroups items = JS.Normal G ->
  comparisonGroups (handleUpdateItem target updates items)
  = JS.Normal (handleUpdateItem target updates <$> G) /\
  bestValueIds (handleUpdateItem target updates <$> G) = bestValueIds G.
Proof.
  intros Hid Hprice Hcat Hvalue Hunit HG.
  assert (Hkeeps : keepsComparison
                     (fun item => if String.eqb (id item) target
                                  then applyUpdates item updates else item)).
  { intros item. destruct (String.eqb (id item) target); [|repeat split].
    unfold applyUpdates. simpl.
    rewrite Hid, Hprice, Hcat, Hvalue, Hunit. repeat split. }
  split.
  - exact (comparisonGroups_map _ Hkeeps items G HG).
  - exact (bestValueIds_map _ Hkeeps G).
Qed.

Lemma quantity_and_name_witness :
  bestValueIds
    (handleUpdateItem "id-B" (mkUpdates None None None (Some 5%Z) None None None)
       <$> Sample.riceGroups)
  = bestValueIds Sample.riceGroups.
Proof.
  apply (quantity_and_name_do_not_move_flags (E := Sample.engine) "id-B"
           (mkUpdates None None None (Some 5%Z) None None None)
           Sample.riceCart Sample.riceGroups);
    try reflexivity.
Defined.

(** * Shopping list *)

Section ListFacts.

Context {E : JS.Engine}.
Implicit Types (s t : string) (items : list CartItem)
  (shoppingList prev : list ShoppingListItem).

Lemma startsWith_empty s : startsWith s "" = true.
Proof. now destruct s. Qed.

Lemma includes_empty s : includes s "" = true.
Proof. destruct s; simpl; [reflexivity|]. reflexivity. Qed.

Lemma lowerChar_whiteSpace (c : ascii) :
  JS.isWhiteSpace1 c = true -> JS.lowerChar c = c /\ JS.isAscii c = true.
Proof. destruct c as [[] [] [] [] [] [] [] []]; vm_compute; intuition congruence. Qed.

Lemma asciiLower_blank s :
  allChars JS.isWhiteSpace1 s = true ->
  JS.asciiLower s = s /\ allChars JS.isAscii s = true.
Proof.
  unfold JS.asciiLower. induction s as [|c s IH]; [now split|].
  cbn [allChars JS.mapChars]. intros H. apply andb_prop in H as [Hc Hs].
  destruct (lowerChar_whiteSpace c Hc) as [-> ->].
  destruct (IH Hs) as [-> ->]. now split.
Qed.

Lemma trimStart_blank s : allChars JS.isWhiteSpace1 s = true -> JS.trimStart s = "".
Proof.
  induction s as [|c s IH]; [reflexivity|].
  cbn [allChars JS.trimStart]. intros H. apply andb_prop in H as [Hc Hs].
  rewrite Hc. exact (IH Hs).
Qed.

Lemma trim_blank s : allChars JS.isWhiteSpace1 s = true -> JS.trim s = "".
Proof. intros Hs. unfold JS.trim. now rewrite (trimStart_blank s Hs). Qed.

Lemma isItemInCart_spec items listName :
  isItemInCart items listName = true
  <-> exists c, In c items
                /\ includes (JS.toLowerCase (productName c))
                            (JS.trim (JS.toLowerCase listName)) = true.
Proof. unfold isItemInCart. apply existsb_exists. Qed.

Lemma isItemInWishlist_spec shoppingList cartName :
  isItemInWishlist shoppingList cartName = true
  <-> exists l, In l shoppingList
                /\ includes (JS.toLowerCase cartName)
                            (JS.trim (JS.toLowerCase (name l))) = true.
Proof. unfold isItemInWishlist. apply existsb_exists. Qed.

End ListFacts.

Lemma filter_all_true {A} (p : A -> bool) (l : list A) :
  (forall x, In x l -> p x = true) -> List.filter p l = l.
Proof.
  induction l as [|x l IH]; intros Hall; [reflexivity|].
  cbn [List.filter]. rewrite (Hall x) by now left.
  f_equal. apply IH. intros y Hy. apply Hall. now right.
Qed.

(** X10. The two membership checks go together: some cart entry is flagged as
    being on the list exactly when some list item is marked as bought; when
    no cart entry is flagged, the report lists every list item as missing. *)
Theorem bought_and_wished_go_together {E : JS.Engine}
    (items : list CartItem) (shoppingList : list ShoppingListItem) :
  ((exists c, In c items /\ isItemInWishlist shoppingList (productName c) = true)
   <-> (exists l, In l shoppingList /\ isItemInCart items (name l) = true)) /\
  ((forall c, In c items -> isItemInWishlist shoppingList (productName c) = false) ->
   missingItems items shoppingList = shoppingList).
Proof.
  assert (Hdual :
    (exists c, In c items /\ isItemInWishlist shoppingList (productName c) = true)
    <-> (exists l, In l shoppingList /\ isItemInCart items (name l) = true)).
  { split.
    - intros (c & Hc & Hw). apply isItemInWishlist_spec in Hw as (l & Hl & Hinc).
      exists l. split; [exact Hl|]. apply isItemInCart_spec. now exists c.
    - intros (l & Hl & Hb). apply isItemInCart_spec in Hb as (c & Hc & Hinc).
      exists c. split; [exact Hc|]. apply isItemInWishlist_spec. now exists l. }
  split; [exact Hdual|].
  intros Hnone. unfold missingItems.
  assert (Hall : forall l, In l shoppingList -> isItemInCart items (name l) = false).
  { intros l Hl. destruct (isItemInCart items (name l)) eqn:Hcase; [|reflexivity].
    destruct (proj2 Hdual) as (c & Hc & Hw); [now exists l|].
    rewrite (Hnone c Hc) in Hw. discriminate. }
  apply filter_all_true. intros l Hl. now rewrite (Hall l Hl).
Qed.

Lemma bought_and_wished_witness :
  missingItems (E := Sample.engine) [Sample.avulso] Sample2.wishes = Sample2.wishes.
Proof.
  apply (bought_and_wished_go_together (E := Sample.engine)
           [Sample.avulso] Sample2.wishes).
  intros c [<-|[]]. reflexivity.
Defined.

(** X11. A blank name cannot be added to the list by hand; a list item whose name
    is blank, which an imported list can hold, counts as bought as soon as
    the cart is not empty, and makes every cart entry count as wished. *)
Theorem blank_list_name_matches_everything {E : JS.Engine} (laws : JS.EngineLaws E)
    (blank : string) :
  allChars JS.isWhiteSpace1 blank = true ->
  (forall newId prev, handleAddShoppingListItem newId blank prev = prev) /\
  (forall items : list CartItem, items <> [] -> isItemInCart items blank = true) /\
  (forall (shoppingList : list ShoppingListItem) (l : ShoppingListItem)
          (cartName : string),
      In l shoppingList -> name l = blank ->
      isItemInWishlist shoppingList cartName = true).
Proof.
  intros Hblank.
  assert (Hnorm : JS.trim (JS.toLowerCase blank) = "").
  { destruct (asciiLower_blank blank Hblank) as [Hlower Hascii].
    rewrite (JS.lower_ascii _ laws _ Hascii), Hlower. now apply trim_blank. }
  split; [|split].
  - intros newId prev. unfold handleAddShoppingListItem.
    now rewrite (trim_blank _ Hblank).
  - intros items Hne. apply isItemInCart_spec.
    destruct items as [|c items]; [congruence|].
    exists c. split; [now left|]. rewrite Hnorm. apply includes_empty.
  - intros shoppingList l cartName Hl Hname. apply isItemInWishlist_spec.
    exists l. split; [exact Hl|]. rewrite Hname, Hnorm. apply includes_empty.
Qed.

Lemma blank_list_name_witness :
  isItemInCart (E := Sample.engine) [Sample.avulso] "  " = true.
Proof.
  apply (blank_list_name_matches_everything engine_laws "  ");
    [reflexivity | discriminate].
Defined.

(** X12. Ticking a list item twice gives back the list; ticking changes no name
    and no identifier, so it changes neither which cart entries count as
    wished nor which list items the report gives as missing. *)
Theorem toggle_is_an_involution {E : JS.Engine} (target : string)
    (shoppingList : list ShoppingListItem) :
  handleToggleListItem target (handleToggleListItem target shoppingList)
  = shoppingList /\
  map name (handleToggleListItem target shoppingList) = map name shoppingList /\
  map listId (handleToggleListItem target shoppingList) = map listId shoppingList /\
  (forall cartName,
      isItemInWishlist (handleToggleListItem target shoppingList) cartName
      = isItemInWishlist shoppingList cartName) /\
  (forall items,
      map name (missingItems items (handleToggleListItem target shoppingList))
      = map name (missingItems items shoppingList)).
Proof.
  unfold handleToggleListItem. split; [|split; [|split; [|split]]].
  - rewrite map_map. rewrite <- (map_id shoppingList) at 2. apply map_ext.
    intros [i n c]. cbn [listId].
    destruct (String.eqb i target) eqn:Hcase; cbn [listId name isChecked];
      rewrite Hcase; [now rewrite negb_involutive | reflexivity].
  - rewrite map_map. apply map_ext. intros l.
    now destruct (String.eqb (listId l) target).
  - rewrite map_map. apply map_ext. intros l.
    now destruct (String.eqb (listId l) target).
  - intros cartName. unfold isItemInWishlist.
    induction shoppingList as [|l rest IH]; [reflexivity|].
    cbn [map existsb]. rewrite IH. f_equal.
    now destruct (String.eqb (listId l) target).
  - intros items. unfold missingItems.
    induction shoppingList as [|l rest IH]; [reflexivity|].
    cbn [map List.filter].
    assert (Hname : name (if String.eqb (listId l) target
                          then {| listId := listId l; name := name l;
                                  isChecked := negb (isChecked l) |}
                          else l) = name l)
      by now destruct (String.eqb (listId l) target).
    rewrite Hname. destruct (negb (isItemInCart items (name l))); [|exact IH].
    cbn [map]. now rewrite Hname, IH.
Qed.

Section ImportFacts.

Context {File World : Type}.
Variable extract : File -> World -> JS.Completion (list string) * World.
Variable uuidv4 : World -> string * World.

Lemma newListItems_names (names : list string) : forall w,
  map name (fst (newListItems uuidv4 names w)) = names /\
  Forall (fun l => isChecked l = false) (fst (newListItems uuidv4 names w)).
Proof.
  induction names as [|n names IH]; intros w; [now split|].
  cbn [newListItems]. destruct (uuidv4 w) as [newId w1].
  destruct (IH w1) as [Hnames Hunchecked].
  destruct (newListItems uuidv4 names w1) as [rest w2]. cbn [fst] in *.
  split; [simpl; now rewrite Hnames | now constructor].
Qed.

End ImportFacts.

(** X13. Importing a list appends the extracted names, in their order and
    unticked, after the items already on the list; when the extraction fails
    the list is left as it was and the alert is shown; without a file nothing
    happens. *)
Theorem import_appends_or_alerts {File World : Type}
    (extract : File -> World -> JS.Completion (list string) * World)
    (uuidv4 : World -> string * World)
    (file : File) (prev : list ShoppingListItem) (w : World) :
  match extract file w with
  | (JS.Normal names, _) =>
      exists new w',
        handleImportList extract uuidv4 (Some file) prev w = (prev ++ new, false, w') /\
        map name new = names /\
        Forall (fun l => isChecked l = false) new
  | (JS.Throw _, w1) =>
      handleImportList extract uuidv4 (Some file) prev w = (prev, true, w1)
  end /\
  handleImportList extract uuidv4 None prev w = (prev, false, w).
Proof.
  split; [|reflexivity].
  unfold handleImportList.
  destruct (extract file w) as [[names|e] w1]; [|reflexivity].
  destruct (newListItems_names uuidv4 names w1) as [Hnames Hunchecked].
  destruct (newListItems uuidv4 names w1) as [new w2]. cbn [fst] in *.
  now exists new, w2.
Qed.

(** X14. An answer without text is read differently by the two services: the
    list extraction returns the empty list, so that an import changes
    nothing and shows no alert, while the product analysis fails. *)
Theorem empty_answer_is_an_empty_list_but_a_failed_analysis
    {File World : Type} (apiKey : string) (fileType : File -> string)
    (fileToBase64 : File -> World -> JS.Completion string * World)
    (generateContent :
       string -> string -> World -> JS.Completion (option string) * World)
    (parseNames : string -> JS.Completion (list string))
    (parseScannedItem : string -> JS.Completion ScannedItem)
    (uuidv4 : World -> string * World)
    (file : File) (w w1 w2 : World) (base64Data : string) (text : option string)
    (prev : list ShoppingListItem) :
  apiKey <> "" ->
  fileToBase64 file w = (JS.Normal base64Data, w1) ->
  generateContent (fileType file) base64Data w1 = (JS.Normal text, w2) ->
  JS.truthyStr text = false ->
  extractShoppingList apiKey fileType fileToBase64 generateContent parseNames file w
  = (JS.Normal [], w2) /\
  handleImportList
    (extractShoppingList apiKey fileType fileToBase64 generateContent parseNames)
    uuidv4 (Some file) prev w = (prev, false, w2) /\
  analyzeProductImage apiKey fileType fileToBase64 generateContent parseScannedItem
    file w = (JS.Throw analysisFailed, w2).
Proof.
  intros Hkey Hfile Hanswer Htext.
  assert (Hextract :
    extractShoppingList apiKey fileType fileToBase64 generateContent parseNames
      file w = (JS.Normal [], w2)).
  { unfold extractShoppingList.
    rewrite (nonempty_truthy apiKey Hkey). cbn [negb].
    rewrite Hfile, Hanswer, Htext. reflexivity. }
  split; [exact Hextract|]. split.
  - unfold handleImportList. rewrite Hextract. cbn [newListItems].
    now rewrite app_nil_r.
  - unfold analyzeProductImage.
    rewrite (nonempty_truthy apiKey Hkey). cbn [negb].
    rewrite Hfile, Hanswer, Htext. reflexivity.
Qed.

Lemma empty_answer_witness :
  extractShoppingList "key" Sample.fileType Sample.fileToBase64
    Sample2.silentModel Sample2.parseNames "lista.jpg" 0%nat
  = (JS.Normal [], 1%nat).
Proof.
  apply (empty_answer_is_an_empty_list_but_a_failed_analysis
           "key" Sample.fileType Sample.fileToBase64 Sample2.silentModel
           Sample2.parseNames Sample.parseScannedItem Sample.uuidv4
           "lista.jpg" 0%nat 0%nat 1%nat "lista.jpg" None Sample2.wishes).
  - discriminate.
  - reflexivity.
  - reflexivity.
  - reflexivity.
Defined.


(** * Reading numbers and sizes *)

Section PrintedFacts.

Implicit Types (s t : string).

Lemma parseFloat_printed (n : Z) : JS.parseFloat (integerToString n) = JS.ofZ n.
Proof.
  destruct n as [|p|p].
  - reflexivity.
  - destruct (integerToString_digits (Z.pos p) ltac:(lia)) as (Hne & Hdigits & Hvalue).
    destruct (integerToString (Z.pos p)) as [|c t] eqn:Ht; [congruence|].
    rewrite (proj1 (parseFloat_digits c t Hdigits)), Hvalue.
    apply ofDecimal_integer. lia.
  - change (integerToString (Z.neg p)) with ("-" +:+ integerToString (Z.pos p)).
    destruct (integerToString_digits (Z.pos p) ltac:(lia)) as (Hne & Hdigits & Hvalue).
    destruct (integerToString (Z.pos p)) as [|c t] eqn:Ht; [congruence|].
    change ("-" +:+ String c t) with (String "-" (String c t)).
    rewrite (proj2 (parseFloat_digits c t Hdigits)), Hvalue.
    apply (ofDecimal_integer (Z.pos p)); lia.
Qed.

Lemma ofZ_isZero (n : Z) : JS.isZero (JS.ofZ n) = true <-> n = 0%Z.
Proof.
  unfold JS.ofZ. destruct n as [|p|p]; cbn [binary_normalize].
  - now split.
  - pose proof (binary_round_shape false p 0) as H.
    destruct (binary_round JS.prec JS.emax false p 0); split; try discriminate.
    intros _. destruct H as [_ H]. exfalso. apply H. vm_compute. discriminate.
  - pose proof (binary_round_shape true p 0) as H.
    destruct (binary_round JS.prec JS.emax true p 0); split; try discriminate.
    intros _. destruct H as [_ H]. exfalso. apply H. vm_compute. discriminate.
Qed.

Lemma isLetter_not_digit (c : ascii) :
  JS.isLetter c = true -> JS.isDigit c = false.
Proof. destruct c as [[] [] [] [] [] [] [] []]; vm_compute; congruence. Qed.

Lemma isLetter_visible (c : ascii) s :
  JS.isLetter c = true -> JS.startsWithWhiteSpace (String c s) = false.
Proof.
  intros Hc. unfold JS.startsWithWhiteSpace.
  destruct s as [|x2 [|x3 s3]]; cbn [JS.afterWhiteSpace];
    destruct c as [[] [] [] [] [] [] [] []]; try discriminate Hc; reflexivity.
Qed.

Lemma matchSizeHere_number_unit (d u : ascii) t unit :
  allChars JS.isDigit (String d t) = true ->
  allChars JS.isLetter (String u unit) = true ->
  JS.matchSizeHere (String d t +:+ String u unit)
  = Some (String d t, String u unit).
Proof.
  intros Hdigits Hletters.
  pose proof Hletters as Hall. cbn [allChars] in Hall.
  apply andb_prop in Hall as [Hu Hunit].
  unfold JS.matchSizeHere.
  rewrite (span_digits _ u unit Hdigits (isLetter_not_digit u Hu)).
  cbv beta iota.
  assert (Hnum : (match String u unit with
                  | String "." r' =>
                      let '(frac, r'') := JS.span JS.isDigit r' in
                      match frac with
                      | "" => (String d t, String u unit)
                      | String _ _ => (String d t +:+ String "." frac, r'')
                      end
                  | _ => (String d t, String u unit)
                  end) = (String d t, String u unit)).
  { destruct u as [[] [] [] [] [] [] [] []]; try discriminate Hu; reflexivity. }
  rewrite Hnum, (trimStart_visible _ (isLetter_visible u unit Hu)).
  now rewrite (span_all _ _ Hletters).
Qed.

Lemma matchSize_here s m :
  JS.matchSizeHere s = Some m -> JS.matchSize s = Some m.
Proof. destruct s; cbn [JS.matchSize]; now intros ->. Qed.

Lemma isDigit_not_comma (c : ascii) :
  JS.isDigit c = true -> negb (Ascii.eqb c ",") = true.
Proof. destruct c as [[] [] [] [] [] [] [] []]; vm_compute; congruence. Qed.

Lemma digits_shape (c : ascii) (t : string) :
  allChars JS.isDigit (String c t) = true ->
  JS.startsWithWhiteSpace (String c t) = false /\ noComma (String c t) = true.
Proof.
  intros Hdigits. split.
  - apply isDigit_visible. cbn [allChars] in Hdigits.
    now apply andb_prop in Hdigits as [? _].
  - exact (allChars_impl _ _ _ isDigit_not_comma Hdigits).
Qed.

(** What is printed for an integer starts with a visible character and has
    no comma. *)
Lemma printed_shape (n : Z) :
  exists c t, integerToString n = String c t /\
              JS.startsWithWhiteSpace (String c t) = false
              /\ noComma (String c t) = true.
Proof.
  destruct n as [|p|p].
  - exists "0"%char, "". now vm_compute.
  - destruct (integerToString_digits (Z.pos p) ltac:(lia)) as (Hne & Hdigits & _).
    destruct (integerToString (Z.pos p)) as [|c t]; [congruence|].
    exists c, t. split; [reflexivity | exact (digits_shape c t Hdigits)].
  - change (integerToString (Z.neg p)) with ("-" +:+ integerToString (Z.pos p)).
    destruct (integerToString_digits (Z.pos p) ltac:(lia)) as (Hne & Hdigits & _).
    destruct (integerToString (Z.pos p)) as [|c t]; [congruence|].
    exists "-"%char, (String c t). split; [reflexivity|].
    split; [apply minus_visible|].
    destruct (digits_shape c t Hdigits) as [_ Hcomma].
    unfold noComma in *. cbn [allChars] in *. exact Hcomma.
Qed.

Lemma replaceFirstComma_noComma (s : string) :
  noComma s = true -> JS.replaceFirstComma s = s.
Proof.
  induction s as [|c s IH]; [reflexivity|].
  unfold noComma in *. cbn [allChars JS.replaceFirstComma]. intros H.
  apply andb_prop in H as [Hc Hs].
  destruct (Ascii.eqb c ","); [discriminate|]. now rewrite (IH Hs).
Qed.

Lemma printed_not_blank (n : Z) :
  String.eqb (JS.trim (integerToString n)) "" = false /\
  String.eqb (integerToString n) "" = false /\
  JS.replaceFirstComma (integerToString n) = integerToString n.
Proof.
  destruct (printed_shape n) as (c & t & -> & Hc & Hcomma).
  split; [apply String.eqb_neq, trim_visible_first, Hc|].
  split; [reflexivity | exact (replaceFirstComma_noComma _ Hcomma)].
Qed.

End PrintedFacts.

(** X15. The manual form is read back: a name that is not blank, a price typed
    as a whole number and a size typed as a whole number directly followed by
    letters give an entry with the trimmed name, quantity 1, the letters in
    lower case, and as price and size the numbers of binary64 for the ones
    typed, which are those very numbers below 2^53; the entry takes part in
    the comparison exactly when the size is not zero. *)
Theorem manual_form_is_read_back {E : JS.Engine} (laws : JS.EngineLaws E)
    (newId manualName unit : string) (p n : Z) :
  JS.trim manualName <> "" ->
  (0 <= n)%Z -> unit <> "" -> allChars JS.isLetter unit = true ->
  exists m,
    manualItem newId manualName (integerToString p) (integerToString n +:+ unit)
    = Some m /\
    id m = newId /\ productName m = JS.trim manualName /\
    price m = JS.ofZ p /\ quantity m = 1%Z /\
    measureValue m = Some (JS.ofZ n) /\
    measureUnit m = Some (JS.asciiLower unit) /\
    (hasMeasure m = true <-> n <> 0%Z) /\
    ((Z.abs p < 2 ^ 53)%Z -> (JS.toQ (price m) == inject_Z p)%Q) /\
    ((n < 2 ^ 53)%Z -> (JS.toQ (JS.ofZ n) == inject_Z n)%Q).
Proof.
  intros Hname Hn Hunit Hletters.
  destruct (printed_not_blank p) as (HpriceText & _ & Hcomma).
  destruct (integerToString_digits n Hn) as (Hne & Hdigits & _).
  pose proof (parseFloat_printed n) as Hparse.
  destruct (integerToString n) as [|d t] eqn:Ht; [congruence|].
  destruct unit as [|u unit]; [congruence|].
  pose proof (matchSize_here _ _ (matchSizeHere_number_unit d u t unit Hdigits Hletters))
    as Hmatch.
  assert (Hsize : String.eqb (JS.trim (String d t +:+ String u unit)) "" = false).
  { rewrite append_cons.
    apply String.eqb_neq, trim_visible_first, isDigit_visible.
    cbn [allChars] in Hdigits. now apply andb_prop in Hdigits as [? _]. }
  apply String.eqb_neq in Hname.
  unfold manualItem.
  rewrite Hname, HpriceText, Hcomma, (parseFloat_printed p), (ofZ_number p).
  rewrite Hsize, Hmatch, Hparse, (toLowerCase_letters laws _ Hletters).
  cbn [orb]. eexists. split; [reflexivity|].
  unfold hasMeasure. cbn [id productName price quantity measureValue measureUnit].
  repeat (split; [reflexivity|]).
  assert (Hlower : JS.truthyStr (Some (JS.asciiLower (String u unit))) = true)
    by reflexivity.
  rewrite Hlower, andb_true_r. cbn [JS.truthyNum].
  rewrite truthy_spec. pose proof (ofZ_isZero n) as Hzero.
  split; [split|split].
  - intros [_ Hnz] ->. rewrite (proj2 Hzero eq_refl) in Hnz. discriminate.
  - intros Hnz. split; [apply ofZ_number|].
    destruct (JS.isZero (JS.ofZ n)); [|reflexivity].
    destruct Hnz. now apply Hzero.
  - intros Hp. now apply ofZ_exact.
  - intros Hlt. apply ofZ_exact. lia.
Qed.

Lemma manual_form_witness :
  exists m,
    manualItem (E := Sample.engine) "id-0" " Arroz Tio "
      (integerToString 10) (integerToString 500 +:+ "G")
    = Some m /\
    productName m = "Arroz Tio" /\ measureUnit m = Some "g" /\ hasMeasure m = true.
Proof.
  destruct (manual_form_is_read_back engine_laws "id-0" " Arroz Tio " "G" 10 500
              ltac:(discriminate) ltac:(lia) ltac:(discriminate) eq_refl)
    as (m & Hm & _ & Hname & _ & _ & _ & Hunit & Hmeasured & _).
  exists m. split; [exact Hm|]. split; [exact Hname|].
  split; [exact Hunit | apply Hmeasured; lia].
Defined.

(** X16. The budget field is read back: a whole number typed there, negative
    ones included, is stored as the number of binary64 for it, which is that
    very number when its magnitude is below 2^53, and the cart is then over
    budget exactly when its total exceeds the number stored; an empty field
    removes the budget. *)
Theorem budget_text_is_read_back (n : Z) (old : option JS.number)
    (items : list CartItem) :
  handleSetBudget (integerToString n) old = Some (JS.ofZ n) /\
  ((Z.abs n < 2 ^ 53)%Z -> (JS.toQ (JS.ofZ n) == inject_Z n)%Q) /\
  (isOverBudget (handleSetBudget (integerToString n) old) items = true
   <-> JS.ltb (JS.ofZ n) (totalCost items) = true) /\
  handleSetBudget "" old = None.
Proof.
  assert (Hset : handleSetBudget (integerToString n) old = Some (JS.ofZ n)).
  { destruct (printed_not_blank n) as (_ & Hne & Hcomma).
    unfold handleSetBudget.
    now rewrite Hne, Hcomma, (parseFloat_printed n), (ofZ_number n). }
  split; [exact Hset|]. split; [intros Hn; now apply ofZ_exact|].
  split; [|reflexivity].
  rewrite Hset. reflexivity.
Qed.

(** Whole numbers above 2^53 are not all of the format: the price typed as
    9007199254740993 is stored as 9007199254740992.  And the total of three
    units at 3.20 and one at 0.40 exceeds a budget of 10. *)
Lemma whole_numbers_are_rounded :
  JS.parseFloat "9007199254740993" = JS.ofZ 9007199254740992 /\
  JS.ofZ 9007199254740993 = JS.ofZ 9007199254740992 /\
  (let st := fst (run (E := Sample.engine) Sample.analyze Sample.uuidv4
                    [ManualAdd "Cafe" "0.40" ""; ManualAdd "Pao" "3.20" "";
                     Increment 0; Increment 0; SetBudget (integerToString 10)]
                    (initialState, 0%nat)) in
   totalCost (items st) = Sample.num "10.000000000000002" /\
   budget st = Some (JS.ofZ 10) /\
   isOverBudget (budget st) (items st) = true).
Proof. repeat split; vm_compute; reflexivity. Qed.

(** * Reading a file *)

Lemma untilComma_noComma s : noComma s = true -> untilComma s = s.
Proof.
  induction s as [|c s IH]; [reflexivity|].
  unfold noComma in *. cbn [allChars untilComma]. intros H.
  apply andb_prop in H as [Hc Hs].
  destruct (Ascii.eqb c ","); [discriminate|]. now rewrite (IH Hs).
Qed.

Lemma afterComma_first header rest :
  noComma header = true ->
  afterComma (header +:+ String "," rest) = Some rest.
Proof.
  induction header as [|c header IH]; [reflexivity|].
  unfold noComma in *. cbn [allChars]. intros H.
  apply andb_prop in H as [Hc Hs].
  rewrite append_cons. cbn [afterComma].
  destruct (Ascii.eqb c ","); [discriminate|]. exact (IH Hs).
Qed.

Lemma afterComma_noComma s : noComma s = true -> afterComma s = None.
Proof.
  induction s as [|c s IH]; [reflexivity|].
  unfold noComma in *. cbn [allChars afterComma]. intros H.
  apply andb_prop in H as [Hc Hs].
  destruct (Ascii.eqb c ","); [discriminate|]. exact (IH Hs).
Qed.

(** X17. Reading a file yields the payload of its data URL, the text after the
    first comma, when neither the header nor the payload has a comma; a
    reader result without a comma yields [undefined]. *)
Theorem fileToBase64_yields_the_payload {File World : Type}
    (readAsDataURL : File -> World -> JS.Completion string * World)
    (file : File) (w w1 : World) (result : string) :
  readAsDataURL file w = (JS.Normal result, w1) ->
  (forall header payload,
     result = header +:+ String "," payload ->
     noComma header = true -> noComma payload = true ->
     fileToBase64 readAsDataURL file w = (JS.Normal (Some payload), w1)) /\
  (noComma result = true ->
   fileToBase64 readAsDataURL file w = (JS.Normal None, w1)).
Proof.
  intros Hread. unfold fileToBase64, splitCommaSecond. rewrite Hread. split.
  - intros header payload -> Hheader Hpayload.
    rewrite (afterComma_first header payload Hheader). cbn [option_map].
    now rewrite (untilComma_noComma payload Hpayload).
  - intros Hresult. now rewrite (afterComma_noComma result Hresult).
Qed.

Lemma fileToBase64_witness :
  fileToBase64 (fun (f : string) (w : nat) => (JS.Normal f, w))
    "data:image/jpeg;base64,QUJD" 0%nat
  = (JS.Normal (Some "QUJD"), 0%nat).
Proof.
  apply (proj1 (fileToBase64_yields_the_payload
                  (fun (f : string) (w : nat) => (JS.Normal f, w))
                  "data:image/jpeg;base64,QUJD" 0%nat 0%nat
                  "data:image/jpeg;base64,QUJD" eq_refl)
           "data:image/jpeg;base64" "QUJD"); reflexivity.
Defined.

(** * Report *)

Section ReportFacts.

Lemma binary_round_aux_opp (s : bool) (m e : Z) (l : location) :
  binary_round_aux JS.prec JS.emax (negb s) m e l
  = SFopp (binary_round_aux JS.prec JS.emax s m e l).
Proof.
  unfold binary_round_aux.
  destruct (shr_fexp JS.prec JS.emax m e l) as [mrs1 e1].
  destruct (shr_fexp JS.prec JS.emax _ e1 loc_Exact) as [mrs2 e2].
  destruct (shr_m mrs2); try reflexivity.
  now destruct (e2 <=? JS.emax - JS.prec)%Z.
Qed.

Lemma binary_round_opp (s : bool) (m : positive) (e : Z) :
  binary_round JS.prec JS.emax (negb s) m e
  = SFopp (binary_round JS.prec JS.emax s m e).
Proof.
  unfold binary_round. destruct (shl_align m e _) as [mz ez].
  apply binary_round_aux_opp.
Qed.

(** Exchanging the terms of a difference that is not zero changes its sign. *)
Lemma sub_swap (x y : JS.number) :
  JS.isZero (JS.sub x y) = false -> JS.sub y x = SFopp (JS.sub x y).
Proof.
  destruct x as [sx|sx| |sx mx ex], y as [sy|sy| |sy my ey];
    try reflexivity; try (now destruct sx, sy).
  unfold JS.sub, SFsub. rewrite (Z.min_comm ey ex).
  set (ez := Z.min ex ey).
  set (cx := cond_Zopp sx (Z.pos (fst (shl_align mx ex ez)))).
  set (cy := cond_Zopp sy (Z.pos (fst (shl_align my ey ez)))).
  replace (cy - cx)%Z with (- (cx - cy))%Z by lia.
  destruct (cx - cy)%Z as [|d|d]; cbn [Z.opp binary_normalize].
  - discriminate.
  - intros _. exact (binary_round_opp false d ez).
  - intros _. exact (binary_round_opp true d ez).
Qed.

Lemma leb_zero_cases (r : JS.number) :
  JS.isNaN r = false ->
  if JS.leb (JS.ofZ 0) r
  then (exists s, r = S754_zero s) \/ r = S754_infinity false
       \/ exists m e, r = S754_finite false m e
  else r = S754_infinity true \/ exists m e, r = S754_finite true m e.
Proof.
  destruct r as [s|[]| |s m e]; try discriminate; intros _.
  - left. now exists s.
  - now left.
  - right. now left.
  - pose proof (ltb_zero (S754_finite s m e)) as Hlt.
    pose proof (toQ_finite_sign s m e) as Hsign.
    unfold JS.leb, JS.ltb, JS.compare in *.
    cbn [JS.ofZ binary_normalize JS.ext JS.compareExt] in *.
    change (JS.toQ (S754_zero false)) with 0%Q in *.
    destruct (0 ?= JS.toQ (S754_finite s m e))%Q eqn:Hc.
    + apply Qeq_alt in Hc. destruct s; lra.
    + destruct s; [discriminate Hlt | right; right; eauto].
    + destruct s; [right; eauto|]. apply Qgt_alt in Hc. lra.
Qed.

Lemma fold_left_add_inRange (l : list JS.number) : forall acc,
  inRange acc -> Forall inRange l -> inRange (fold_left JS.add l acc).
Proof.
  induction l as [|x l IH]; intros acc Hacc Hl; [exact Hacc|].
  apply Forall_cons_iff in Hl as [Hx Hl]. cbn [fold_left].
  apply IH; [now apply add_inRange | exact Hl].
Qed.

Lemma totalCost_inRange (items : list CartItem) : inRange (totalCost items).
Proof.
  rewrite totalCost_sum. apply fold_left_add_inRange; [apply ofZ_inRange|].
  apply List.Forall_forall. intros x Hx.
  apply in_map_iff in Hx as (item & <- & _). apply mul_inRange.
Qed.

(** The difference of a number other than zero and a finite one is not [-0]. *)
Lemma sub_not_negative_zero (b t : JS.number) :
  JS.isZero b = false -> inRange b -> inRange t ->
  JS.sub b t <> S754_zero true.
Proof.
  destruct b as [sb|sb| |sb mb eb], t as [st|st| |st mt et];
    try discriminate; intros _ Hb Ht;
    try (cbn [JS.sub SFsub]; discriminate);
    try (destruct sb, st; cbn [JS.sub SFsub]; discriminate).
  cbn [inRange] in Hb, Ht. unfold JS.sub, SFsub.
  set (ez := Z.min eb et).
  destruct (_ - _)%Z as [|d|d]; cbn [binary_normalize]; [discriminate| |].
  - pose proof (binary_round_shape false d ez) as H.
    destruct (binary_round JS.prec JS.emax false d ez); try discriminate.
    destruct H as [-> _]. discriminate.
  - pose proof (binary_round_shape true d ez) as H.
    destruct (binary_round JS.prec JS.emax true d ez); try discriminate.
    destruct H as [_ H]. exfalso. apply H. unfold ez. lia.
Qed.

Lemma sub_finite_number (b t : JS.number) :
  JS.isNaN b = false -> isFinite t = true -> JS.isNaN (JS.sub b t) = false.
Proof.
  intros Hb Ht. destruct (JS.isNaN (JS.sub b t)) eqn:Hnan; [|reflexivity].
  assert (Hnt : JS.isNaN t = false) by now destruct t.
  destruct (sub_isNaN b t Hb Hnt Hnan) as (s & _ & ->). discriminate.
Qed.

End ReportFacts.

(** X19. The budget lines of the report agree with the indicators of the
    screen, for a budget that is a number and a total that is finite: the
    report says the limit was exceeded exactly when the over-budget flag is
    set, the amount it prints then is total - limit and otherwise limit -
    total, as binary64 computes them, and for a stored budget other than
    zero that amount is the distance of the remaining budget of the screen
    from zero. *)
Theorem report_agrees_with_budget_flag (budget : option JS.number)
    (items : list CartItem) :
  (forall b, budget = Some b -> JS.isNaN b = false /\ inRange b) ->
  isFinite (totalCost items) = true ->
  (isOverBudget budget items = true
   <-> exists limit over, budgetLines budget items = Exceeded limit over) /\
  (forall limit over, budgetLines budget items = Exceeded limit over ->
     budget = Some limit /\ over = JS.sub (totalCost items) limit
     /\ JS.ltb (JS.ofZ 0) over = true) /\
  (forall limit saved, budgetLines budget items = Balance limit saved ->
     budget = Some limit /\ saved = JS.sub limit (totalCost items)
     /\ JS.leb (JS.ofZ 0) saved = true) /\
  (budgetLines budget items = LimitUndefined <-> budget = None) /\
  (forall b, budget = Some b -> JS.isZero b = false ->
     match budgetLines budget items with
     | Exceeded _ amount | Balance _ amount =>
         amount = JS.abs (remainingBudget budget items)
     | LimitUndefined => False
     end).
Proof.
  intros Hbudget Htotal.
  destruct budget as [b|]; cbn [budgetLines isOverBudget].
  - destruct (Hbudget b eq_refl) as [Hnan Hrange].
    pose proof (totalCost_inRange items) as Rt.
    pose proof (sub_finite_number b _ Hnan Htotal) as Hdiff.
    pose proof (compare_sub b (totalCost items) Hrange Rt Hdiff) as Hcmp.
    pose proof (leb_zero_cases _ Hdiff) as Hcases.
    assert (Hflag : JS.ltb b (totalCost items)
                    = negb (JS.leb (JS.ofZ 0) (JS.sub b (totalCost items)))).
    { unfold JS.ltb, JS.leb. rewrite Hcmp.
      assert (Hnt : JS.isNaN (totalCost items) = false)
        by now destruct (totalCost items).
      destruct (compare_Some _ _ Hnt Hnan) as (x & y & Hx & Hy & ->).
      unfold JS.compare. rewrite Hx, Hy, (compareExt_antisym x y).
      now destruct (JS.compareExt x y). }
    rewrite Hflag.
    destruct (JS.leb (JS.ofZ 0) (JS.sub b (totalCost items))) eqn:Hle; cbn [negb].
    + split; [split; [discriminate | intros (? & ? & [=])]|].
      split; [discriminate|].
      split; [intros limit saved [= <- <-]; now repeat split|].
      split; [split; discriminate|].
      intros b' [= <-] Hnz. unfold remainingBudget.
      rewrite (proj2 (truthy_spec b) (conj Hnan Hnz)).
      pose proof (sub_not_negative_zero b _ Hnz Hrange Rt) as Hneg.
      destruct Hcases as [[s Hs]|[Hs|(m & e & Hs)]]; rewrite Hs in *;
        try reflexivity.
      destruct s; [congruence | reflexivity].
    + assert (Hopp : JS.abs (JS.sub b (totalCost items))
                     = JS.sub (totalCost items) b).
      { rewrite (sub_swap b (totalCost items)).
        - destruct Hcases as [Hs|(m & e & Hs)]; now rewrite Hs.
        - destruct Hcases as [Hs|(m & e & Hs)]; now rewrite Hs. }
      split; [split; [intros _; now eexists _, _ | reflexivity]|].
      split.
      { intros limit over [= <- <-]. split; [reflexivity|].
        split; [exact Hopp|]. rewrite ltb_zero.
        destruct Hcases as [Hs|(m & e & Hs)]; now rewrite Hs. }
      split; [discriminate|].
      split; [split; discriminate|].
      intros b' [= <-] Hnz. unfold remainingBudget.
      now rewrite (proj2 (truthy_spec b) (conj Hnan Hnz)).
  - split; [split; [discriminate | intros (? & ? & [=])]|].
    split; [discriminate|]. split; [discriminate|].
    split; [now split | discriminate].
Qed.

(** Three units at 1.10 against a budget typed as 3.30: the report says the
    limit was exceeded, by 4.440892098500626e-16. *)
Lemma report_agrees_with_budget_flag_witness :
  let st := fst (run (E := Sample.engine) Sample.analyze Sample.uuidv4
                   Sample.centsSession (initialState, 0%nat)) in
  isOverBudget (budget st) (items st) = true /\
  budgetLines (budget st) (items st)
  = Exceeded (Sample.num "3.30") (Sample.num "4.440892098500626e-16").
Proof.
  intros st.
  assert (Hlines : budgetLines (budget st) (items st)
                   = Exceeded (Sample.num "3.30") (Sample.num "4.440892098500626e-16"))
    by (vm_compute; reflexivity).
  split; [|exact Hlines].
  apply (proj1 (report_agrees_with_budget_flag (budget st) (items st)
                  ltac:(intros b [= <-]; split; vm_compute; [reflexivity | discriminate])
                  ltac:(vm_compute; reflexivity))).
  eexists _, _. exact Hlines.
Defined.

(** * Batches of photographs *)

Lemma applyActions_app st l1 l2 :
  applyActions st (l1 ++ l2) = applyActions (applyActions st l1) l2.
Proof. unfold applyActions. apply fold_left_app. Qed.


Section BatchOutcome.

Context {File World : Type}.
Variable analyze : File -> World -> JS.Completion ScannedItem * World.
Variable uuidv4 : World -> string * World.

(** The setter calls of a batch that is not empty, by the log of its files. *)
Lemma handleFileChange_log (files : list File) (w : World) :
  files <> [] ->
  exists log,
    processed analyze uuidv4 w files log
      (snd (handleFileChange analyze uuidv4 files w)) /\
    map fst log = files /\
    fst (handleFileChange analyze uuidv4 files w)
    = ([SetStatus (mkStatus true None);
        SetAnalyzingProgress (Some (0, length files)%nat)]
         ++ progressUpdates (length files) 0 (length files))
        ++ [PrependItems (omap snd log);
            SetStatus (mkStatus false
                         (if allSucceeded log then None else Some batchError));
            SetAnalyzingProgress None].
Proof.
  destruct files as [|file rest]; [congruence|]. intros _.
  set (files := file :: rest).
  set (st0 := {| newItems := []; errorMsg := None;
                 emitted := [SetStatus (mkStatus true None);
                             SetAnalyzingProgress (Some (0, length files)%nat)];
                 world := w |}).
  destruct (loop_processed analyze uuidv4 (length files) files st0 0)
    as (log & Hproc & Hfiles & Hnew & Herr & Hemit).
  exists log. split; [exact Hproc|]. split; [exact Hfiles|].
  unfold handleFileChange, files. cbn [fst]. fold files. fold st0.
  now rewrite Hemit, Hnew, Herr.
Qed.


Lemma processed_all_fail w files log w' :
  (forall file w0, exists e, analyze file w0 = (JS.Throw e, w0)) ->
  processed analyze uuidv4 w files log w' ->
  omap snd log = [] /\ w' = w /\ (files <> [] -> allSucceeded log = false).
Proof.
  intros Hfail. induction 1 as [w | w file rest result w1 newId w2 log w' Hok | 
                                 w file rest e w1 log w' Hthrow Hrest IH].
  - now repeat split.
  - destruct (Hfail file w) as [e He]. congruence.
  - destruct (Hfail file w) as [e' He'].
    assert (w1 = w) by congruence. subst w1.
    destruct IH as (Hnone & Hw & _). now repeat split.
Qed.


Lemma applyActions_closing st l new s :
  let st' := applyActions st
               (l ++ [PrependItems new; SetStatus s; SetAnalyzingProgress None]) in
  status st' = s /\ analyzingProgress st' = None.
Proof. intros st'. subst st'. rewrite applyActions_app. now cbn. Qed.

End BatchOutcome.



(** X21. Without an API key a batch reads no file, asks the model nothing and
    issues no identifier: the cart is as it was and the only trace is the
    general error message, the message of the service being dropped. *)
Theorem batch_without_key_adds_nothing {File World : Type}
    (fileType : File -> string)
    (fileToBase64 : File -> World -> JS.Completion string * World)
    (generateContent :
       string -> string -> World -> JS.Completion (option string) * World)
    (parseScannedItem : string -> JS.Completion ScannedItem)
    (uuidv4 : World -> string * World)
    (files : list File) (w : World) (st : AppState) :
  files <> [] ->
  let analyze :=
    analyzeProductImage "" fileType fileToBase64 generateContent parseScannedItem in
  let st' := applyActions st (fst (handleFileChange analyze uuidv4 files w)) in
  items st' = items st /\
  status st' = mkStatus false (Some batchError) /\
  analyzingProgress st' = None /\
  budget st' = budget st /\
  snd (handleFileChange analyze uuidv4 files w) = w.
Proof.
  intros Hfiles analyze st'. subst st'.
  destruct (handleFileChange_log analyze uuidv4 files w Hfiles)
    as (log & Hproc & Hlog & Hactions).
  destruct (processed_all_fail analyze uuidv4 _ _ _ _
              (fun file w0 => ex_intro _ _
                 (analyzeProductImage_missing_key fileType fileToBase64
                    generateContent parseScannedItem file w0)) Hproc)
    as (Hnone & Hworld & Hfail).
  rewrite Hnone, (Hfail Hfiles) in Hactions.
  split.
  { rewrite applyActions_items, Hactions, !prepended_app.
    now rewrite (proj2 (progressUpdates_quiet _ _ _)). }
  rewrite applyActions_budget, Hactions.
  destruct (applyActions_closing st
              ([SetStatus (mkStatus true None);
                SetAnalyzingProgress (Some (0, length files)%nat)]
                 ++ progressUpdates (length files) 0 (length files))
              [] (mkStatus false (Some batchError))) as [-> ->].
  now repeat split.
Qed.

Lemma batch_without_key_witness :
  items (applyActions initialState
           (fst (handleFileChange
                   (analyzeProductImage "" Sample.fileType Sample.fileToBase64
                      Sample.generateContent Sample.parseScannedItem)
                   Sample.uuidv4 ["arroz.jpg"] 0%nat)))
  = [].
Proof.
  apply (batch_without_key_adds_nothing Sample.fileType Sample.fileToBase64
           Sample.generateContent Sample.parseScannedItem Sample.uuidv4
           ["arroz.jpg"] 0%nat initialState).
  discriminate.
Defined.

(** * The services' failures *)

(** X22. A failure of either service carries one of three messages: the one for
    the missing API key, raised before anything is read; the error of the
    file reader, passed on as it is; or the service's general message, which
    replaces every error of the model and of the parsing of its answer. *)
Theorem service_failures_are_classified {File World : Type}
    (apiKey : string) (fileType : File -> string)
    (fileToBase64 : File -> World -> JS.Completion string * World)
    (generateContent :
       string -> string -> World -> JS.Completion (option string) * World)
    (parseScannedItem : string -> JS.Completion ScannedItem)
    (parseNames : string -> JS.Completion (list string))
    (file : File) (w w' : World) (e : string) :
  (analyzeProductImage apiKey fileType fileToBase64 generateContent
     parseScannedItem file w = (JS.Throw e, w') ->
   (apiKey = "" /\ e = "API Key está faltando." /\ w' = w)
   \/ (apiKey <> "" /\ fileToBase64 file w = (JS.Throw e, w'))
   \/ (apiKey <> "" /\ e = analysisFailed)) /\
  (extractShoppingList apiKey fileType fileToBase64 generateContent
     parseNames file w = (JS.Throw e, w') ->
   (apiKey = "" /\ e = "API Key faltando" /\ w' = w)
   \/ (apiKey <> "" /\ fileToBase64 file w = (JS.Throw e, w'))
   \/ (apiKey <> "" /\ e = listReadFailed)).
Proof.
  unfold analyzeProductImage, extractShoppingList.
  destruct apiKey as [|k apiKey]; cbn [JS.truthyStr negb].
  - split; intros [= <- <-]; left; now repeat split.
  - assert (Hkey : String k apiKey <> "") by discriminate.
    destruct (fileToBase64 file w) as [[base64Data|e0] w1].
    + destruct (generateContent (fileType file) base64Data w1) as [[text|e1] w2].
      * destruct (negb (JS.truthyStr text)).
        -- split; [|discriminate]. intros [= <- <-]. right. right. now split.
        -- split.
           ++ destruct (parseScannedItem _); [discriminate|].
              intros [= <- <-]. right. right. now split.
           ++ destruct (parseNames _); [discriminate|].
              intros [= <- <-]. right. right. now split.
      * split; intros [= <- <-]; right; right; now split.
    + split; intros [= <- <-]; right; left; now split.
Qed.

Lemma service_failures_witness :
  (("key" = "" /\ analysisFailed = "API Key está faltando." /\ 1%nat = 0%nat)
   \/ ("key" <> "" /\
       Sample.fileToBase64 "nota.pdf" 0%nat = (JS.Throw analysisFailed, 1%nat))
   \/ ("key" <> "" /\ analysisFailed = analysisFailed)) /\
  (("key" = "" /\ listReadFailed = "API Key faltando" /\ 1%nat = 0%nat)
   \/ ("key" <> "" /\
       Sample.fileToBase64 "nota.pdf" 0%nat = (JS.Throw listReadFailed, 1%nat))
   \/ ("key" <> "" /\ listReadFailed = listReadFailed)).
Proof.
  split.
  - apply (proj1 (service_failures_are_classified
                    "key" Sample.fileType Sample.fileToBase64 Sample.generateContent
                    Sample.parseScannedItem Sample2.parseNames
                    "nota.pdf" 0%nat 1%nat analysisFailed)).
    reflexivity.
  - apply (proj2 (service_failures_are_classified
                    "key" Sample.fileType Sample.fileToBase64 Sample.generateContent
                    Sample.parseScannedItem Sample2.parseNames
                    "nota.pdf" 0%nat 1%nat listReadFailed)).
    reflexivity.
Defined.

(** * Editing the list by hand *)

(** X23. An item added by hand goes to the end of the list, trimmed and
    unticked; deleting it again, its identifier being new, restores the
    list, and deleting any identifier keeps exactly the items that carry
    another one. *)
Theorem hand_added_item_can_be_deleted (newId text : string)
    (prev : list ShoppingListItem) :
  JS.trim text <> "" ->
  ~ In newId (map listId prev) ->
  handleAddShoppingListItem newId text prev
  = prev ++ [mkListItem newId (JS.trim text) false] /\
  handleDeleteListItem newId (handleAddShoppingListItem newId text prev) = prev /\
  (forall target l,
     In l (handleDeleteListItem target (handleAddShoppingListItem newId text prev))
     <-> (In l prev \/ l = mkListItem newId (JS.trim text) false)
         /\ listId l <> target).
Proof.
  intros Htext Hfresh.
  assert (Hadd : handleAddShoppingListItem newId text prev
                 = prev ++ [mkListItem newId (JS.trim text) false]).
  { unfold handleAddShoppingListItem.
    apply String.eqb_neq in Htext. now rewrite Htext. }
  rewrite Hadd. split; [reflexivity|]. split.
  - unfold handleDeleteListItem. rewrite List.filter_app. cbn.
    rewrite String.eqb_refl. cbn. rewrite app_nil_r.
    apply filter_all_true. intros l Hl.
    apply negb_true_iff, String.eqb_neq. intros Heq. apply Hfresh.
    rewrite <- Heq. now apply in_map.
  - intros target l. unfold handleDeleteListItem.
    rewrite filter_In, in_app_iff, negb_true_iff, String.eqb_neq.
    cbn. intuition (subst; auto).
Qed.

Lemma hand_added_item_witness :
  handleDeleteListItem "l-3"
    (handleAddShoppingListItem "l-3" " Leite " Sample2.wishes)
  = Sample2.wishes.
Proof.
  apply (hand_added_item_can_be_deleted "l-3" " Leite " Sample2.wishes).
  - discriminate.
  - cbn. intros [H|[H|[]]]; discriminate.
Defined.

